(** * Verification of the portfolio site: the image resizer and the contact view

    Shallow embedding of [resize_portfolio_images.py] and of the [contact]
    view of [home/views.py].  Python integers are [Z], Python floats are
    IEEE 754 binary64 values ([spec_float] with precision 53), paths are
    strings handled by a model of [posixpath], the file system is a finite
    map from paths to nodes, and exceptions and console output are threaded
    through a small state-and-exception monad. *)

From Stdlib Require Import ZArith Ascii String Floats.SpecFloat.
From stdpp Require Import gmap strings list fin_maps.
Open Scope string_scope.
Open Scope Z_scope.

(** ** Python string methods used by the program

    Strings are strings of bytes; [lower] maps the ASCII capitals and
    leaves every other byte as it is, which is what [str.lower] does to
    the letters of the extensions and of the suffixes the program
    compares with. *)

Module Str.

Definition lower_char (c : ascii) : ascii :=
  let n := N_of_ascii c in
  if ((65 <=? n) && (n <=? 90))%N then ascii_of_N (n + 32) else c.

Fixpoint lower (s : string) : string :=
  match s with
  | EmptyString => EmptyString
  | String c r => String (lower_char c) (lower r)
  end.

Definition startswith (s pre : string) : bool := String.prefix pre s.

Fixpoint endswith (s suf : string) : bool :=
  String.eqb s suf ||
  match s with
  | EmptyString => false
  | String _ r => endswith r suf
  end.

Fixpoint rfind (c : ascii) (s : string) : Z :=
  match s with
  | EmptyString => -1
  | String a r =>
      let i := rfind c r in
      if 0 <=? i then i + 1 else if Ascii.eqb a c then 0 else -1
  end.

Definition slice (s : string) (i j : Z) : string :=
  String.substring (Z.to_nat i) (Z.to_nat (j - i)) s.

Definition slice_to (s : string) (j : Z) : string := slice s 0 j.

Definition slice_from (s : string) (i : Z) : string :=
  slice s i (Z.of_nat (String.length s)).

Fixpoint rstrip (c : ascii) (s : string) : string :=
  match s with
  | EmptyString => EmptyString
  | String a r =>
      match rstrip c r with
      | EmptyString => if Ascii.eqb a c then EmptyString else String a EmptyString
      | r' => String a r'
      end
  end.

Fixpoint all_chars (c : ascii) (s : string) : bool :=
  match s with
  | EmptyString => true
  | String a r => Ascii.eqb a c && all_chars c r
  end.

End Str.

(** ** [posixpath]: [join], [split] and [splitext] as CPython defines them

    [os.path] is taken to be [posixpath]; [rfind] and the slices are
    Python's [str.rfind] and [p[i:j]]. *)

Module posixpath.

Definition sep : ascii := "/"%char.
Definition extsep : ascii := "."%char.

Definition join (a b : string) : string :=
  if Str.startswith b "/" then b
  else if String.eqb a "" || Str.endswith a "/" then a +:+ b
  else a +:+ "/" +:+ b.

Definition split (p : string) : string * string :=
  let i := Str.rfind sep p + 1 in
  let head := Str.slice_to p i in
  let tail := Str.slice_from p i in
  let head :=
    if negb (String.eqb head "") && negb (Str.all_chars sep head)
    then Str.rstrip sep head else head in
  (head, tail).

Definition splitext (p : string) : string * string :=
  let sepIndex := Str.rfind sep p in
  let dotIndex := Str.rfind extsep p in
  if (sepIndex <? dotIndex) &&
     negb (Str.all_chars extsep (Str.slice p (sepIndex + 1) dotIndex))
  then (Str.slice_to p dotIndex, Str.slice_from p dotIndex)
  else (p, "").

End posixpath.

(** ** Exceptions *)

Inductive exn :=
  | FileNotFoundError
  | FileExistsError
  | IsADirectoryError
  | NotADirectoryError
  | UnidentifiedImageError
  | OSError
  | ZeroDivisionError
  | OverflowError
  | ValueError
  | SystemError
  | UnicodeEncodeError
  | SystemExit (code : Z).

(** [except Exception] catches everything but [SystemExit]. *)
Definition is_Exception (e : exn) : bool :=
  match e with
  | SystemExit _ => false
  | _ => true
  end.

(** [except OSError] catches the file-system errors and PIL's
    [UnidentifiedImageError], which derives from [OSError]. *)
Definition is_OSError (e : exn) : bool :=
  match e with
  | FileNotFoundError | FileExistsError | IsADirectoryError
  | NotADirectoryError | UnidentifiedImageError | OSError => true
  | _ => false
  end.

Definition result (A : Type) : Type := exn + A.

Definition rbind {A B} (r : result A) (k : A -> result B) : result B :=
  match r with
  | inl e => inl e
  | inr a => k a
  end.

(** ** Python floats

    [a / b] on two integers is the correctly rounded quotient, [int * float]
    and [int / float] first convert the integer, [int(x)] truncates. *)

Module PyFloat.

Definition prec : Z := 53.
Definition emax : Z := 1024.

Definition exact (z : Z) : spec_float :=
  match z with
  | Z0 => S754_zero false
  | Zpos p => S754_finite false p 0
  | Zneg p => S754_finite true p 0
  end.

Definition is_zero (x : spec_float) : bool :=
  match x with
  | S754_zero _ => true
  | _ => false
  end.

Definition guard_finite (x : spec_float) : result spec_float :=
  match x with
  | S754_infinity _ => inl OverflowError
  | _ => inr x
  end.

(** [float(z)] *)
Definition of_int (z : Z) : result spec_float :=
  guard_finite (binary_normalize prec emax z 0 false).

(** [a / b] with [a] and [b] integers *)
Definition int_truediv (a b : Z) : result spec_float :=
  if b =? 0 then inl ZeroDivisionError
  else guard_finite (SFdiv prec emax (exact a) (exact b)).

(** [a * x] with [a] an integer and [x] a float *)
Definition int_mul (a : Z) (x : spec_float) : result spec_float :=
  rbind (of_int a) (fun fa => inr (SFmul prec emax fa x)).

(** [a / x] with [a] an integer and [x] a float *)
Definition int_div (a : Z) (x : spec_float) : result spec_float :=
  rbind (of_int a) (fun fa =>
    if is_zero x then inl ZeroDivisionError else inr (SFdiv prec emax fa x)).

(** [x > y] *)
Definition gt (x y : spec_float) : bool := SFltb y x.

(** [int(x)] *)
Definition to_int (x : spec_float) : result Z :=
  match x with
  | S754_zero _ => inr 0
  | S754_finite s m e =>
      let a := Z.shiftl (Zpos m) e in inr (if s then - a else a)
  | S754_infinity _ => inl OverflowError
  | S754_nan => inl ValueError
  end.

End PyFloat.

(** ** Images, files and the state of the world *)

(** What an image holds, as the history of the PIL operations that made
    it; [Raster id] is the picture a source file decodes to. *)
Inductive pixels :=
  | Raster (id : N)
  | Convert (m : string) (p : pixels)
  | Resize (size : Z * Z) (p : pixels)
  | Crop (box : Z * Z * Z * Z) (p : pixels)
  | New (m : string) (size : Z * Z) (color : Z * Z * Z)
  | Paste (canvas : pixels) (im : pixels) (at_ : Z * Z).

Record image := Image {
  width : Z;
  height : Z;
  mode : string;
  data : pixels
}.

(** A regular file holds an encoded image, what a writer had written of
    an image when it gave up, or bytes no decoder accepts. *)
Inductive content :=
  | Encoded (format : string) (quality : option Z) (im : image)
  | Partial (format : string) (im : image)
  | Bytes (b : string).

Inductive node :=
  | Dir
  | File (c : content).

(** One constructor per [print] of the program. *)
Inductive line :=
  | Resized (input_path : string) (target_size : Z * Z) (output_path : string)
  | ErrorProcessing (input_path : string) (e : exn)
  | BackupDirectoryCreated (backup_dir : string)
  | PreviewDirectory (preview_dir : string)
  | SliderDirectory (slider_dir : string)
  | BackedUp (filename : string)
  | DirectoryDoesNotExist (portfolio_dir : string)
  | Text (s : string).

Record state := State {
  fs : gmap string node;
  stdout : list line
}.

Inductive outcome (A : Type) :=
  | Returned (a : A) (s : state)
  | Raised (e : exn) (s : state).
Arguments Returned {A} a s.
Arguments Raised {A} e s.

Definition M (A : Type) : Type := state -> outcome A.

Definition ret {A} (a : A) : M A := fun s => Returned a s.

Definition raise {A} (e : exn) : M A := fun s => Raised e s.

Definition bind {A B} (m : M A) (k : A -> M B) : M B :=
  fun s =>
    match m s with
    | Returned a s' => k a s'
    | Raised e s' => Raised e s'
    end.

#[global] Instance M_ret : MRet M := @ret.
#[global] Instance M_bind : MBind M := fun A B k m => bind m k.

Definition lift {A} (r : result A) : M A :=
  match r with
  | inl e => raise e
  | inr a => ret a
  end.

(** [try: body except <class> as e: handler(e)] *)
Definition try_except {A} (body : M A) (catches : exn -> bool)
    (handler : exn -> M A) : M A :=
  fun s =>
    match body s with
    | Returned a s' => Returned a s'
    | Raised e s' => if catches e then handler e s' else Raised e s'
    end.

Definition get_fs : M (gmap string node) := fun s => Returned (fs s) s.

Definition put_fs (f : gmap string node) : M unit :=
  fun s => Returned tt (State f (stdout s)).

(** [print], on a console that has every character of the line. *)
Definition print (l : line) : M unit :=
  fun s => Returned tt (State (fs s) (stdout s ++ [l])).

Fixpoint for_each {A} (l : list A) (body : A -> M unit) : M unit :=
  match l with
  | [] => ret tt
  | x :: l' => body x ;; for_each l' body
  end.

(** ** The operating-system calls of the program

    A path is looked up as it is written: the finite map has one key
    for each file and each directory, its plain path; the same path
    spelled otherwise, with a trailing slash or a component [.], is
    another key. *)

Module os.

Definition exists_ (p : string) : M bool :=
  f ← get_fs; ret (bool_decide (is_Some (f !! p))).

Definition isfile (p : string) : M bool :=
  f ← get_fs;
  ret match f !! p with
      | Some (File _) => true
      | _ => false
      end.

Definition isdir (p : string) : M bool :=
  f ← get_fs;
  ret match f !! p with
      | Some Dir => true
      | _ => false
      end.

(** The error of a path at which nothing is: [NotADirectoryError] when
    the path leads through a regular file, [FileNotFoundError]
    otherwise.  The heads get shorter, so the length of the path
    bounds the depth. *)
Fixpoint lookup_error (depth : nat) (f : gmap string node) (p : string) : exn :=
  let head := fst (posixpath.split p) in
  if String.eqb head "" then FileNotFoundError
  else match f !! head with
       | Some (File _) => NotADirectoryError
       | Some Dir => FileNotFoundError
       | None =>
           match depth with
           | O => FileNotFoundError
           | S depth' => lookup_error depth' f head
           end
       end.

Definition missing (f : gmap string node) (p : string) : exn :=
  lookup_error (String.length p) f p.

(** The directory an entry is created in must be there; the empty head
    is the current directory. *)
Definition check_parent (p : string) : M unit :=
  f ← get_fs;
  let head := fst (posixpath.split p) in
  if String.eqb head "" then ret tt
  else match f !! head with
       | Some Dir => ret tt
       | Some (File _) => raise NotADirectoryError
       | None => raise (missing f head)
       end.

Definition mkdir (p : string) : M unit :=
  f ← get_fs;
  match f !! p with
  | Some _ => raise FileExistsError
  | None => check_parent p ;; put_fs (<[p := Dir]> f)
  end.

(** [os.makedirs(name, exist_ok=exist_ok)]; each recursive call is on a
    strictly shorter path, so the length of [name] bounds the depth. *)
Fixpoint makedirs_rec (depth : nat) (name : string) (exist_ok : bool) : M unit :=
  let '(head, tail) := posixpath.split name in
  let '(head, tail) :=
    if String.eqb tail "" then posixpath.split head else (head, tail) in
  head_exists ← exists_ head;
  (if negb (String.eqb head "") && negb (String.eqb tail "") && negb head_exists
   then
     match depth with
     | O => ret tt
     | S depth' =>
         try_except (makedirs_rec depth' head exist_ok)
           (fun e => match e with FileExistsError => true | _ => false end)
           (fun _ => ret tt)
     end
   else ret tt) ;;
  if negb (String.eqb head "") && negb (String.eqb tail "") && negb head_exists
     && String.eqb tail "."
  then ret tt
  else
    try_except (mkdir name) is_OSError
      (fun e =>
         d ← isdir name;
         if negb exist_ok || negb d then raise e else ret tt).

Definition makedirs (name : string) (exist_ok : bool) : M unit :=
  makedirs_rec (String.length name) name exist_ok.

(** The entries of a directory are the paths whose head is the directory. *)
Definition listdir (p : string) : M (list string) :=
  f ← get_fs;
  match f !! p with
  | Some Dir =>
      ret (omap (fun k =>
                   let '(head, tail) := posixpath.split k in
                   if String.eqb head p && negb (String.eqb tail "")
                   then Some tail else None)
                (fst <$> map_to_list f))
  | Some (File _) => raise NotADirectoryError
  | None => raise (missing f p)
  end.

End os.

Module shutil.

(** [shutil.copy2(src, dst)]: into [dst] when it is a directory. *)
Definition copy2 (src dst : string) : M unit :=
  f ← get_fs;
  let dst :=
    match f !! dst with
    | Some Dir => posixpath.join dst (snd (posixpath.split src))
    | _ => dst
    end in
  match f !! src with
  | None => raise (os.missing f src)
  | Some Dir => raise IsADirectoryError
  | Some (File c) =>
      match f !! dst with
      | Some Dir => raise IsADirectoryError
      | _ => os.check_parent dst ;; put_fs (<[dst := File c]> f)
      end
  end.

End shutil.

(** ** The PIL calls of the program *)

Module PIL.

(** [Image.open(path)] *)
Definition open (path : string) : M image :=
  f ← get_fs;
  match f !! path with
  | None => raise (os.missing f path)
  | Some Dir => raise IsADirectoryError
  | Some (File (Bytes _)) => raise UnidentifiedImageError
  | Some (File (Partial _ _)) => raise OSError
  | Some (File (Encoded _ _ im)) => ret im
  end.

(** [img.convert(m)] *)
Definition convert (img : image) (m : string) : image :=
  Image (width img) (height img) m (Convert m (data img)).

(** [img.resize(size, Image.Resampling.LANCZOS)] *)
Definition resize (img : image) (size : Z * Z) : result image :=
  if (fst size <? 1) || (snd size <? 1) then inl ValueError
  else inr (Image (fst size) (snd size) (mode img) (Resize size (data img))).

(** [img.crop((left, top, right, bottom))]; the box may leave the image,
    what lies outside is filled with zeros. *)
Definition crop (img : image) (box : Z * Z * Z * Z) : result image :=
  let '(x0, y0, x1, y1) := box in
  if (x1 <? x0) || (y1 <? y0) then inl ValueError
  else inr (Image (x1 - x0) (y1 - y0) (mode img) (Crop box (data img))).

(** [Image.new(m, size, color)] *)
Definition new (m : string) (size : Z * Z) (color : Z * Z * Z) : result image :=
  if (fst size <? 0) || (snd size <? 0) then inl ValueError
  else inr (Image (fst size) (snd size) m (New m size color)).

(** [canvas.paste(im, at_)], in place *)
Definition paste (canvas im : image) (at_ : Z * Z) : image :=
  Image (width canvas) (height canvas) (mode canvas)
        (Paste (data canvas) (data im) at_).

(** The modes the JPEG and PNG writers accept. *)
Definition JPEG_RAWMODE : list string :=
  ["1"; "L"; "RGB"; "RGBX"; "CMYK"; "YCbCr"].

Definition PNG_OUTMODES : list string :=
  ["1"; "L;1"; "L;2"; "L;4"; "L"; "LA"; "I"; "I;16"; "I;16B";
   "P;1"; "P;2"; "P;4"; "P"; "RGB"; "RGBA"].

Definition save_handler (img : image) (format : string) : result unit :=
  if String.eqb format "JPEG" then
    if (width img =? 0) || (height img =? 0) then inl ValueError
    else if bool_decide (mode img ∈ JPEG_RAWMODE) then inr tt
    else inl OSError
  else
    if negb (bool_decide (mode img ∈ PNG_OUTMODES)) then inl OSError
    else if (width img <=? 0) || (height img <=? 0) then inl SystemError
    else inr tt.

(** [img.save(path, format, quality=quality, optimize=True)]: the file is
    opened for writing first; when the writer fails, a file this call
    created is removed again, and a file that was there keeps what the
    writer had written. *)
Definition save (img : image) (path format : string) (quality : option Z)
    : M unit :=
  f ← get_fs;
  let created := negb (bool_decide (is_Some (f !! path))) in
  match f !! path with
  | Some Dir => raise IsADirectoryError
  | _ =>
      os.check_parent path ;;
      match save_handler img format with
      | inl e =>
          put_fs (if created then f
                  else <[path := File (Partial format img)]> f) ;;
          raise e
      | inr _ => put_fs (<[path := File (Encoded format quality img)]> f)
      end
  end.

End PIL.

(** ** [resize_portfolio_images.py] *)

(** Lines 34 to 62: resize, then crop to fill. *)
Definition crop_to_fill (img : image) (target_size : Z * Z) : result image :=
  rbind (PyFloat.int_truediv (width img) (height img)) (fun img_ratio =>
  rbind (PyFloat.int_truediv (fst target_size) (snd target_size)) (fun target_ratio =>
  if PyFloat.gt img_ratio target_ratio then
    let new_height := snd target_size in
    rbind (rbind (PyFloat.int_mul (snd target_size) img_ratio) PyFloat.to_int)
      (fun new_width =>
    rbind (PIL.resize img (new_width, new_height)) (fun resized =>
    let left := (new_width - fst target_size) / 2 in
    let top := 0 in
    let right := left + fst target_size in
    let bottom := snd target_size in
    PIL.crop resized (left, top, right, bottom)))
  else
    let new_width := fst target_size in
    rbind (rbind (PyFloat.int_div (fst target_size) img_ratio) PyFloat.to_int)
      (fun new_height =>
    rbind (PIL.resize img (new_width, new_height)) (fun resized =>
    let left := 0 in
    let top := (new_height - snd target_size) / 2 in
    let right := fst target_size in
    let bottom := top + snd target_size in
    PIL.crop resized (left, top, right, bottom))))).

(** Lines 65 to 88: resize to fit, then paste on a white canvas. *)
Definition pad_to_fit (img : image) (target_size : Z * Z) : result image :=
  rbind (PyFloat.int_truediv (width img) (height img)) (fun img_ratio =>
  rbind (PyFloat.int_truediv (fst target_size) (snd target_size)) (fun target_ratio =>
  rbind
    (if PyFloat.gt img_ratio target_ratio then
       let new_width := fst target_size in
       rbind (rbind (PyFloat.int_div (fst target_size) img_ratio) PyFloat.to_int)
         (fun new_height => inr (new_width, new_height))
     else
       let new_height := snd target_size in
       rbind (rbind (PyFloat.int_mul (snd target_size) img_ratio) PyFloat.to_int)
         (fun new_width => inr (new_width, new_height)))
    (fun '(new_width, new_height) =>
  rbind (PIL.resize img (new_width, new_height)) (fun resized_img =>
  rbind (PIL.new "RGB" target_size (255, 255, 255)) (fun final_img =>
  let x_offset := (fst target_size - new_width) / 2 in
  let y_offset := (snd target_size - new_height) / 2 in
  inr (PIL.paste final_img resized_img (x_offset, y_offset))))))).

(** Lines 29 and 30. *)
Definition to_rgb_if_necessary (img : image) : image :=
  if bool_decide (mode img ∈ ["RGBA"; "LA"; "P"])
  then PIL.convert img "RGB" else img.

(** Lines 27 to 96: what the [try] block of [resize_image] does, on a
    console that has every character. *)
Definition resize_image_try (input_path output_path : string)
    (target_size : Z * Z) (quality : Z) (crop_mode : bool) : M unit :=
  img ← PIL.open input_path;
  let img := to_rgb_if_necessary img in
  final_img ← lift (if crop_mode then crop_to_fill img target_size
                     else pad_to_fit img target_size);
  (if Str.endswith (Str.lower output_path) ".jpg"
      || Str.endswith (Str.lower output_path) ".jpeg"
   then PIL.save final_img output_path "JPEG" (Some quality)
   else PIL.save final_img output_path "PNG" None) ;;
  print (Resized input_path target_size output_path).

Definition resize_image (input_path output_path : string)
    (target_size : Z * Z) (quality : Z) (crop_mode : bool) : M unit :=
  try_except
    (resize_image_try input_path output_path target_size quality crop_mode)
    is_Exception
    (fun e => print (ErrorProcessing input_path e)).

(** The console: the lines whose characters the encoding of standard
    output has.  [print] raises [UnicodeEncodeError] on the others,
    before it writes anything. *)
Definition console : Type := line → bool.

Definition print_on (c : console) (l : line) : M unit :=
  if c l then print l else raise UnicodeEncodeError.

(** [resize_image] on a console: lines 26 to 99 with the two [print]
    calls, the one of line 96 inside the [try] block and the one of
    line 99 in the handler, outside of it. *)
Definition resize_image_try_on (c : console) (input_path output_path : string)
    (target_size : Z * Z) (quality : Z) (crop_mode : bool) : M unit :=
  img ← PIL.open input_path;
  let img := to_rgb_if_necessary img in
  final_img ← lift (if crop_mode then crop_to_fill img target_size
                     else pad_to_fit img target_size);
  (if Str.endswith (Str.lower output_path) ".jpg"
      || Str.endswith (Str.lower output_path) ".jpeg"
   then PIL.save final_img output_path "JPEG" (Some quality)
   else PIL.save final_img output_path "PNG" None) ;;
  print_on c (Resized input_path target_size output_path).

Definition resize_image_on (c : console) (input_path output_path : string)
    (target_size : Z * Z) (quality : Z) (crop_mode : bool) : M unit :=
  try_except
    (resize_image_try_on c input_path output_path target_size quality crop_mode)
    is_Exception
    (fun e => print_on c (ErrorProcessing input_path e)).

Definition preview_size : Z * Z := (800, 600).
Definition slider_size : Z * Z := (1200, 800).

Definition image_extensions : list string :=
  [".jpg"; ".jpeg"; ".png"; ".bmp"; ".tiff"; ".webp"].

(** Lines 143 to 148: the backup copy, made only when there is none. *)
Definition backup_file (backup : bool) (backup_dir input_path filename : string)
    : M unit :=
  if backup then
    let backup_path := posixpath.join backup_dir filename in
    present ← os.exists_ backup_path;
    if negb present then
      shutil.copy2 input_path backup_path ;;
      print (BackedUp filename)
    else ret tt
  else ret tt.

(** The body of the loop of [process_portfolio_images], lines 133 to 162. *)
Definition process_file (portfolio_dir : string) (backup : bool)
    (backup_dir preview_dir slider_dir filename : string) : M unit :=
  is_file ← os.isfile (posixpath.join portfolio_dir filename);
  if negb is_file then ret tt else
  let file_ext := Str.lower (snd (posixpath.splitext filename)) in
  if negb (bool_decide (file_ext ∈ image_extensions)) then ret tt else
  let input_path := posixpath.join portfolio_dir filename in
  backup_file backup backup_dir input_path filename ;;
  let base_name := fst (posixpath.splitext filename) in
  let ext := snd (posixpath.splitext filename) in
  let preview_filename := base_name +:+ "_preview" +:+ ext in
  let preview_path := posixpath.join preview_dir preview_filename in
  resize_image input_path preview_path preview_size 85 true ;;
  let slider_filename := base_name +:+ "_slider" +:+ ext in
  let slider_path := posixpath.join slider_dir slider_filename in
  resize_image input_path slider_path slider_size 85 true.

(** The body of the loop as [process_portfolio_images] runs it, with the
    three directories of the batch. *)
Definition batch_step (portfolio_dir : string) (backup : bool)
    (filename : string) : M unit :=
  process_file portfolio_dir backup
    (posixpath.join portfolio_dir "backup_original")
    (posixpath.join portfolio_dir "preview")
    (posixpath.join portfolio_dir "slider") filename.

Definition process_portfolio_images (portfolio_dir : string) (backup : bool)
    : M unit :=
  let backup_dir := posixpath.join portfolio_dir "backup_original" in
  (if backup then
     os.makedirs backup_dir true ;;
     print (BackupDirectoryCreated backup_dir)
   else ret tt) ;;
  let preview_dir := posixpath.join portfolio_dir "preview" in
  let slider_dir := posixpath.join portfolio_dir "slider" in
  os.makedirs preview_dir true ;;
  os.makedirs slider_dir true ;;
  print (PreviewDirectory preview_dir) ;;
  print (SliderDirectory slider_dir) ;;
  names ← os.listdir portfolio_dir;
  for_each names
    (process_file portfolio_dir backup backup_dir preview_dir slider_dir).

(** The lines [main] prints before and after the batch (lines 181 to
    187 and 192 to 202); a line break inside a [print] starts a line. *)
Definition banner (portfolio_dir : string) (no_backup : bool) : list line :=
  [Text "Portfolio Image Resizer - Dual Version (Smart Cropping)";
   Text "==================================================";
   Text ("Processing images in: " +:+ portfolio_dir);
   Text "Preview size: 800x600px (4:3 ratio) - Smart cropped";
   Text "Slider size: 1200x800px (3:2 ratio) - Smart cropped";
   Text ("Backup original images: " +:+ if no_backup then "False" else "True");
   Text ""].

Definition summary (portfolio_dir : string) : list line :=
  [Text "";
   Text "==================================================";
   Text "Resizing complete!";
   Text "";
   Text "File structure created:";
   Text ("├── " +:+ portfolio_dir +:+ "/");
   Text "│   ├── backup_original/     # Original images";
   Text "│   ├── preview/             # 800x600px for grid (cropped)";
   Text "│   └── slider/              # 1200x800px for detail pages (cropped)";
   Text "";
   Text "Next steps:";
   Text "1. Update templates to use preview/ and slider/ images";
   Text "2. Test the portfolio display";
   Text "3. Delete original images if satisfied"].

(** [main], with the parsed [--portfolio-dir] and [--no-backup];
    [sys.exit(1)] raises [SystemExit]. *)
Definition main (portfolio_dir : string) (no_backup : bool) : M unit :=
  present ← os.exists_ portfolio_dir;
  (if negb present then
     print (DirectoryDoesNotExist portfolio_dir) ;;
     print (Text "Please provide the correct path to your portfolio images directory.") ;;
     raise (SystemExit 1)
   else ret tt) ;;
  for_each (banner portfolio_dir no_backup) print ;;
  process_portfolio_images portfolio_dir (negb no_backup) ;;
  for_each (summary portfolio_dir) print.


(** ** [home/views.py] *)

Module Views.

(** Modelled from the spec: the [Contact] model of [home/models.py], which
    is not part of the sources; a ContactSubmission has the four text
    fields [name], [email], [subject] and [message]. *)
Record Contact := {
  name : string;
  email : string;
  subject : string;
  message : string
}.

(** Modelled from the spec: [Contact.objects.create], a create-only
    operation that adds one record to the persistent store. *)
Definition objects_create (c : Contact) (db : list Contact) : list Contact :=
  db ++ [c].

(** A request: its method and its form data, a Django [QueryDict] that
    maps each key to the list of the values submitted for it. *)
Record HttpRequest := {
  method : string;
  POST : gmap string (list string)
}.

Inductive HttpResponse :=
  | Rendered (template : string).

(** [QueryDict.get(key, default)]: the last value of the key. *)
Definition QueryDict_get (q : gmap string (list string)) (key default : string)
    : string :=
  match q !! key with
  | None => default
  | Some values =>
      match last values with
      | None => default
      | Some v => v
      end
  end.

Definition render (request : HttpRequest) (template : string) : HttpResponse :=
  Rendered template.

Definition home (request : HttpRequest) (db : list Contact)
    : HttpResponse * list Contact :=
  (render request "home.html", db).

Definition project (request : HttpRequest) (db : list Contact)
    : HttpResponse * list Contact :=
  (render request "project.html", db).

Definition user_management_dashboard (request : HttpRequest)
    (db : list Contact) : HttpResponse * list Contact :=
  (render request "user_management_dashboard.html", db).

Definition ancap_automation (request : HttpRequest) (db : list Contact)
    : HttpResponse * list Contact :=
  (render request "ancap_automation.html", db).

Definition contact (request : HttpRequest) (db : list Contact)
    : HttpResponse * list Contact :=
  let db :=
    if String.eqb (method request) "POST" then
      let name := QueryDict_get (POST request) "name" "" in
      let email := QueryDict_get (POST request) "email" "" in
      let subject := QueryDict_get (POST request) "subject" "" in
      let message := QueryDict_get (POST request) "message" "" in
      objects_create (Build_Contact name email subject message) db
    else db in
  (render request "home.html", db).

Definition reroom (request : HttpRequest) (db : list Contact)
    : HttpResponse * list Contact :=
  (render request "reroom.html", db).

Definition insurance_call_simulator (request : HttpRequest)
    (db : list Contact) : HttpResponse * list Contact :=
  (render request "insurance_call_simulator.html", db).

Definition ocr_pdf_extractor (request : HttpRequest) (db : list Contact)
    : HttpResponse * list Contact :=
  (render request "ocr_pdf_extractor.html", db).

Definition survey_creator (request : HttpRequest) (db : list Contact)
    : HttpResponse * list Contact :=
  (render request "survey_creator.html", db).

End Views.

(** ** Vocabulary of the statements *)

(** The state a run ends in, whether it returned or raised. *)
Definition final {A} (o : outcome A) : state :=
  match o with
  | Returned _ s => s
  | Raised _ s => s
  end.

(** A directory path in normal form: not empty, no trailing slash. *)
Definition normal_path (d : string) : Prop :=
  d ≠ "" ∧ Str.endswith d "/" = false.

(** The components of a path, between its slashes. *)
Fixpoint components (p : string) : list string :=
  match p with
  | EmptyString => [""]
  | String c r =>
      if Ascii.eqb c posixpath.sep then "" :: components r
      else match components r with
           | x :: xs => String c x :: xs
           | [] => [String c ""]
           end
  end.

(** A path written plainly, the one spelling under which the file
    system map holds a file or a directory: relative or absolute, no
    trailing slash, and no component that is empty, [.] or [..]. *)
Definition plain_path (d : string) : Prop :=
  Forall (λ c, c ≠ "" ∧ c ≠ "." ∧ c ≠ "..")
    (match components d with
     | "" :: c :: cs => c :: cs
     | cs => cs
     end).

(** A name as [os.listdir] returns them: not empty, no slash. *)
Definition entry_name (n : string) : Prop :=
  n ≠ "" ∧ Str.rfind posixpath.sep n = -1.

Definition recognized (filename : string) : Prop :=
  Str.lower (snd (posixpath.splitext filename)) ∈ image_extensions.

Definition backup_path (portfolio_dir filename : string) : string :=
  posixpath.join (posixpath.join portfolio_dir "backup_original") filename.

Definition derivative_path (portfolio_dir subdir suffix filename : string)
    : string :=
  posixpath.join (posixpath.join portfolio_dir subdir)
    (fst (posixpath.splitext filename) +:+ suffix
       +:+ snd (posixpath.splitext filename)).

Definition preview_path (portfolio_dir filename : string) : string :=
  derivative_path portfolio_dir "preview" "_preview" filename.

Definition slider_path (portfolio_dir filename : string) : string :=
  derivative_path portfolio_dir "slider" "_slider" filename.

(** The format and the quality [resize_image] writes with, chosen from
    the output name (lines 91 to 94). *)
Definition output_format (output_path : string) (quality : Z)
    : string * option Z :=
  if Str.endswith (Str.lower output_path) ".jpg"
     || Str.endswith (Str.lower output_path) ".jpeg"
  then ("JPEG", Some quality) else ("PNG", None).

(** A subdirectory the batch can create or reuse. *)
Definition creatable (f : gmap string node) (p : string) : Prop :=
  f !! p = None ∨ f !! p = Some Dir.

(** The output directories are in place. *)
Definition directories_ready (f : gmap string node) (portfolio_dir : string)
    (backup : bool) : Prop :=
  (backup = true → f !! posixpath.join portfolio_dir "backup_original" = Some Dir)
  ∧ f !! posixpath.join portfolio_dir "preview" = Some Dir
  ∧ f !! posixpath.join portfolio_dir "slider" = Some Dir.

(** The directory an output is written in is there. *)
Definition parent_ready (f : gmap string node) (p : string) : Prop :=
  fst (posixpath.split p) = "" ∨ f !! fst (posixpath.split p) = Some Dir.

(** A file that holds an image of which [resize_image], in crop mode, can
    compute and encode the derivative of the given size at the given path. *)
Definition derivable (f : gmap string node) (input_path output_path : string)
    (target_size : Z * Z) (quality : Z) (final_img : image) : Prop :=
  ∃ fmt q img,
    f !! input_path = Some (File (Encoded fmt q img))
    ∧ crop_to_fill (to_rgb_if_necessary img) target_size = inr final_img
    ∧ PIL.save_handler final_img (fst (output_format output_path quality)) = inr tt
    ∧ f !! output_path ≠ Some Dir.

(** What a derivative file holds. *)
Definition derivative (output_path : string) (quality : Z) (final_img : image)
    : node :=
  File (Encoded (fst (output_format output_path quality))
                (snd (output_format output_path quality)) final_img).

(** The directories the batch sets up before its loop. *)
Definition output_directory (portfolio_dir : string) (backup : bool)
    (p : string) : Prop :=
  p = posixpath.join portfolio_dir "preview"
  ∨ p = posixpath.join portfolio_dir "slider"
  ∨ (backup = true ∧ p = posixpath.join portfolio_dir "backup_original").

(** From [f] to [f'] nothing happened but the creation of directories
    of [W] that were absent. *)
Definition created_directories (W : string → Prop) (f f' : gmap string node)
    : Prop :=
  ∀ p, f' !! p = f !! p ∨ (W p ∧ f !! p = None ∧ f' !! p = Some Dir).

(** The lines the batch prints before its loop (lines 118, 125 and 126). *)
Definition setup_lines (portfolio_dir : string) (backup : bool) : list line :=
  (if backup
   then [BackupDirectoryCreated (posixpath.join portfolio_dir "backup_original")]
   else [])
  ++ [PreviewDirectory (posixpath.join portfolio_dir "preview");
      SliderDirectory (posixpath.join portfolio_dir "slider")].

(** The line [resize_image] prints for an output: the success, or an
    error. *)
Definition report_line (l : line) (input_path : string) (target_size : Z * Z)
    (output_path : string) : Prop :=
  l = Resized input_path target_size output_path
  ∨ ∃ e, is_Exception e = true ∧ l = ErrorProcessing input_path e.

(** [m] changes the file system only by writing regular files at paths
    of [Wa] and by creating entries of [Wn] that were absent. *)
Definition only_writes {A} (Wa Wn : string → Prop) (m : M A) : Prop :=
  ∀ s p,
    fs (final (m s)) !! p = fs s !! p
    ∨ (Wa p ∧ ∃ c, fs (final (m s)) !! p = Some (File c))
    ∨ (Wn p ∧ fs s !! p = None).

(** [m] only adds lines to the console. *)
Definition only_prints {A} (m : M A) : Prop :=
  ∀ s, stdout s `prefix_of` stdout (final (m s)).

(** A computation that fails only with exceptions of class [Exception]. *)
Definition fails_with_Exception {A} (r : result A) : Prop :=
  ∀ e, r = inl e → is_Exception e = true.

(** ** Example worlds *)

(** A photograph with an alpha channel, and its two derivatives. *)
Definition photo : image := Image 1600 900 "RGBA" (Raster 1).

Definition photo_preview : image :=
  Image 800 600 "RGB"
    (Crop (133, 0, 933, 600) (Resize (1066, 600) (Convert "RGB" (Raster 1)))).

Definition photo_slider : image :=
  Image 1200 800 "RGB"
    (Crop (111, 0, 1311, 800) (Resize (1422, 800) (Convert "RGB" (Raster 1)))).

(** A portfolio directory with a photograph, a file with the extension
    of an image that is none, and a file the batch does not look at. *)
Definition portfolio_fs : gmap string node :=
  list_to_map
    [("portfolio", Dir);
     ("portfolio/good.jpg", File (Encoded "JPEG" None photo));
     ("portfolio/bad.png", File (Bytes "not an image"));
     ("portfolio/notes.txt", File (Bytes "to do"))].


(** The same directory after a first run of the batch, with backups. *)
Definition rerun_fs : gmap string node :=
  fs (final (process_portfolio_images "portfolio" true (State portfolio_fs []))).


(** A greyscale image, alone in the current directory. *)
Definition grey_fs : gmap string node :=
  {["grey.png" := File (Encoded "PNG" None (Image 1600 1200 "L" (Raster 2)))]}.

(** A thumbnail that has the size asked for already. *)
Definition thumb_fs : gmap string node :=
  {["thumb.png" := File (Encoded "PNG" None (Image 220 200 "RGB" (Raster 3)))]}.

(** A directory without images: a text file, and a subdirectory that
    holds a photograph. *)
Definition notes_fs : gmap string node :=
  list_to_map
    [("docs", Dir);
     ("docs/notes.txt", File (Bytes "to do"));
     ("docs/old", Dir);
     ("docs/old/scan.jpg", File (Encoded "JPEG" None photo))].

(** The photograph on a white canvas of 800x600. *)
Definition photo_padded : image :=
  Image 800 600 "RGB"
    (Paste (New "RGB" (800, 600) (255, 255, 255))
       (Resize (800, 450) (Convert "RGB" (Raster 1))) (0, 75)).

(** A poster in the colours of print, valid as a TIFF image, alone in a
    portfolio directory. *)
Definition poster : image := Image 2400 1800 "CMYK" (Raster 4).

Definition poster_fs : gmap string node :=
  list_to_map
    [("portfolio", Dir);
     ("portfolio/poster.tiff", File (Encoded "TIFF" None poster))].

(** A console that has every character, and one whose encoding, such as
    ASCII or cp1252, lacks U+2713 and U+2717, the marks that open the
    lines of [resize_image]. *)
Definition utf8 : console := λ _, true.

Definition cp1252 : console :=
  λ l, match l with
       | Resized _ _ _ | ErrorProcessing _ _ => false
       | _ => true
       end.

(** A contact form sent without subject and message. *)
Definition partial_form : Views.HttpRequest :=
  {| Views.method := "POST";
     Views.POST := {["name" := ["Ada"]; "email" := ["ada@example.org"]]} |}.

(** * Strings *)

Section strings.
Implicit Types (a b s t : string) (c x : ascii).

Lemma string_app_cons x s t : String x s +:+ t = String x (s +:+ t).
Proof. reflexivity. Qed.

Lemma string_app_nil_l t : "" +:+ t = t.
Proof. reflexivity. Qed.

Lemma string_app_nil_r s : s +:+ "" = s.
Proof. induction s as [|x s IH]; [done|]. by rewrite string_app_cons, IH. Qed.

Lemma string_app_assoc s t u : (s +:+ t) +:+ u = s +:+ (t +:+ u).
Proof. induction s as [|x s IH]; [done|]. by rewrite !string_app_cons, IH. Qed.

Lemma string_app_length s t :
  String.length (s +:+ t) = (String.length s + String.length t)%nat.
Proof. induction s as [|x s IH]; [done|]. rewrite string_app_cons. simpl. by rewrite IH. Qed.

Lemma string_app_eq_nil s t : s +:+ t = "" → s = "" ∧ t = "".
Proof. destruct s; [done|]. by rewrite string_app_cons. Qed.

Lemma string_app_inv_tail s1 s2 t : s1 +:+ t = s2 +:+ t → s1 = s2.
Proof.
  revert s2. induction s1 as [|x s1 IH]; intros [|y s2] H; try done.
  - exfalso. apply (f_equal String.length) in H.
    rewrite string_app_nil_l, string_app_cons in H. simpl in H. rewrite string_app_length in H. lia.
  - exfalso. apply (f_equal String.length) in H.
    rewrite string_app_nil_l, string_app_cons in H. simpl in H. rewrite string_app_length in H. lia.
  - rewrite !string_app_cons in H. injection H as -> H. f_equal. by apply IH.
Qed.

Lemma rfind_range c s : -1 ≤ Str.rfind c s < Z.of_nat (String.length s).
Proof.
  induction s as [|x s IH]; simpl; [lia|].
  destruct (0 <=? Str.rfind c s) eqn:E; [lia|].
  destruct (Ascii.eqb x c); lia.
Qed.

Lemma rfind_app c s t :
  Str.rfind c (s +:+ t) =
    if 0 <=? Str.rfind c t then Z.of_nat (String.length s) + Str.rfind c t
    else Str.rfind c s.
Proof.
  induction s as [|x s IH].
  - rewrite string_app_nil_l. simpl. pose proof (rfind_range c t).
    destruct (0 <=? Str.rfind c t) eqn:E; lia.
  - rewrite string_app_cons. simpl Str.rfind. rewrite IH.
    pose proof (rfind_range c t). pose proof (rfind_range c s).
    destruct (0 <=? Str.rfind c t) eqn:E.
    + replace (0 <=? Z.of_nat (String.length s) + Str.rfind c t) with true by lia.
      simpl String.length. lia.
    + done.
Qed.

Lemma rfind_cons_eq c t : Str.rfind c t = -1 → Str.rfind c (String c t) = 0.
Proof. intros H. simpl. rewrite H. simpl. by rewrite Ascii.eqb_refl. Qed.

(** The last occurrence of a character splits the string. *)
Lemma rfind_split c s :
  0 ≤ Str.rfind c s →
  ∃ a b, s = a +:+ String c b ∧ Str.rfind c b = -1
         ∧ Str.rfind c s = Z.of_nat (String.length a).
Proof.
  induction s as [|x s IH]; simpl; [lia|].
  pose proof (rfind_range c s).
  destruct (0 <=? Str.rfind c s) eqn:E.
  - intros _. destruct IH as (a & b & -> & Hb & Hl); [lia|].
    exists (String x a), b. rewrite string_app_cons. split_and!; [done..|].
    simpl String.length. lia.
  - destruct (Ascii.eqb_spec x c) as [->|]; [|lia].
    intros _. exists "", s. split_and!; [done| lia |done].
Qed.

Lemma rfind_app_none c s t :
  Str.rfind c (s +:+ t) = -1 ↔ Str.rfind c s = -1 ∧ Str.rfind c t = -1.
Proof.
  rewrite rfind_app. pose proof (rfind_range c t). pose proof (rfind_range c s).
  destruct (0 <=? Str.rfind c t) eqn:E; lia.
Qed.

Lemma substring_all s : String.substring 0 (String.length s) s = s.
Proof. induction s as [|x s IH]; simpl; [done|]. by rewrite IH. Qed.

Lemma substring_app_l s t : String.substring 0 (String.length s) (s +:+ t) = s.
Proof.
  induction s as [|x s IH]; simpl; [by destruct t|]. by rewrite IH.
Qed.

Lemma substring_app_r s t n :
  String.substring (String.length s) n (s +:+ t) = String.substring 0 n t.
Proof. induction s as [|x s IH]; simpl; done. Qed.

Lemma slice_to_app s t : Str.slice_to (s +:+ t) (Z.of_nat (String.length s)) = s.
Proof.
  unfold Str.slice_to, Str.slice. rewrite Z.sub_0_r, Nat2Z.id.
  apply substring_app_l.
Qed.

Lemma slice_from_app s t : Str.slice_from (s +:+ t) (Z.of_nat (String.length s)) = t.
Proof.
  unfold Str.slice_from, Str.slice. rewrite Nat2Z.id, string_app_length.
  replace (Z.to_nat _) with (String.length t) by lia.
  rewrite substring_app_r. apply substring_all.
Qed.

Lemma slice_app s t u :
  Str.slice (s +:+ t +:+ u) (Z.of_nat (String.length s))
    (Z.of_nat (String.length s) + Z.of_nat (String.length t)) = t.
Proof.
  unfold Str.slice. rewrite Nat2Z.id.
  replace (Z.to_nat _) with (String.length t) by lia.
  rewrite substring_app_r. apply substring_app_l.
Qed.

End strings.

Section paths.
Implicit Types (a b d n s t : string) (c x : ascii).

Lemma endswith_one x : Str.endswith (String x "") "/" = Ascii.eqb x "/".
Proof. unfold Str.endswith. simpl. by destruct (Ascii.eqb x "/"). Qed.

Lemma endswith_two x y s :
  Str.endswith (String x (String y s)) "/" = Str.endswith (String y s) "/".
Proof.
  change (Str.endswith (String x (String y s)) "/")
    with (String.eqb (String x (String y s)) "/" || Str.endswith (String y s) "/").
  simpl String.eqb. by destruct (Ascii.eqb x "/").
Qed.

Lemma endswith_app s t : t ≠ "" →
  Str.endswith (s +:+ t) "/" = Str.endswith t "/".
Proof.
  intros Ht. induction s as [|x s IH]; [done|].
  rewrite string_app_cons. destruct (s +:+ t) as [|y u] eqn:E.
  - apply string_app_eq_nil in E as [_ ?]. done.
  - by rewrite endswith_two.
Qed.

Lemma rstrip_app_char c s : Str.rstrip c (s +:+ String c "") = Str.rstrip c s.
Proof.
  induction s as [|x s IH].
  - simpl. by rewrite Ascii.eqb_refl.
  - rewrite string_app_cons. simpl. by rewrite IH.
Qed.

Lemma rstrip_id s : s ≠ "" → Str.endswith s "/" = false → Str.rstrip "/" s = s.
Proof.
  induction s as [|x s IH]; [done|]. intros _ H.
  destruct s as [|y s].
  - rewrite endswith_one in H. simpl. by rewrite H.
  - rewrite endswith_two in H.
    change (Str.rstrip "/" (String x (String y s)))
      with (match Str.rstrip "/" (String y s) with
            | "" => if Ascii.eqb x "/" then "" else String x ""
            | r' => String x r'
            end).
    by rewrite IH.
Qed.

Lemma all_chars_app c s t :
  Str.all_chars c (s +:+ t) = Str.all_chars c s && Str.all_chars c t.
Proof.
  induction s as [|x s IH]; [done|]. rewrite string_app_cons. simpl.
  rewrite IH. by rewrite andb_assoc.
Qed.

Lemma all_chars_normal s : s ≠ "" → Str.endswith s "/" = false →
  Str.all_chars "/" s = false.
Proof.
  induction s as [|x s IH]; [done|]. intros _ H.
  destruct s as [|y s].
  - rewrite endswith_one in H. simpl. by rewrite H.
  - rewrite endswith_two in H.
    change (Str.all_chars "/" (String x (String y s)))
      with (Ascii.eqb x "/" && Str.all_chars "/" (String y s)).
    rewrite IH; [|done..]. apply andb_false_r.
Qed.

Lemma endswith_entry n : entry_name n → Str.endswith n "/" = false.
Proof.
  intros [Hn1 Hn2]. induction n as [|x n IH]; [done|].
  simpl in Hn2. pose proof (rfind_range posixpath.sep n).
  destruct (0 <=? Str.rfind posixpath.sep n) eqn:E; [lia|].
  destruct (Ascii.eqb_spec x posixpath.sep) as [->|Hx]; [done|].
  destruct n as [|y n].
  - rewrite endswith_one. by destruct (Ascii.eqb_spec x "/").
  - rewrite endswith_two. apply IH; [done|lia].
Qed.

Lemma startswith_sep_false n :
  Str.rfind posixpath.sep n = -1 → Str.startswith n "/" = false.
Proof.
  destruct n as [|x n]; [done|]. unfold Str.startswith.
  change (String.prefix "/" (String x n))
    with (if ascii_dec "/" x then String.prefix "" n else false).
  destruct (ascii_dec "/" x) as [<-|]; [|done].
  intros H. exfalso. simpl in H. pose proof (rfind_range posixpath.sep n).
  destruct (0 <=? Str.rfind posixpath.sep n) eqn:E; lia.
Qed.

Lemma join_normal d n : normal_path d → Str.rfind posixpath.sep n = -1 →
  posixpath.join d n = d +:+ "/" +:+ n.
Proof.
  intros [Hd1 Hd2] Hn. unfold posixpath.join.
  rewrite startswith_sep_false by done. rewrite Hd2.
  by destruct (String.eqb_spec d "").
Qed.

Lemma normal_join d n : entry_name n → normal_path (d +:+ "/" +:+ n).
Proof.
  intros Hn. split.
  - intros [_ ?]%string_app_eq_nil. done.
  - rewrite <-string_app_assoc, endswith_app by apply Hn. by apply endswith_entry.
Qed.

Lemma split_join d n : normal_path d → Str.rfind posixpath.sep n = -1 →
  posixpath.split (d +:+ "/" +:+ n) = (d, n).
Proof.
  intros [Hd1 Hd2] Hn. unfold posixpath.split.
  assert (Str.rfind posixpath.sep (d +:+ "/" +:+ n) + 1
          = Z.of_nat (String.length (d +:+ "/"))) as ->.
  { rewrite rfind_app. change ("/" +:+ n) with (String posixpath.sep n).
    rewrite rfind_cons_eq by done. simpl. rewrite string_app_length. simpl. lia. }
  rewrite <-string_app_assoc, slice_to_app, slice_from_app.
  rewrite all_chars_app, all_chars_normal by done.
  destruct (String.eqb_spec (d +:+ "/") "") as [[_ ?]%string_app_eq_nil|_]; [done|].
  simpl. change "/" with (String posixpath.sep "") at 1.
  unfold posixpath.sep at 1. rewrite rstrip_app_char.
  by rewrite rstrip_id.
Qed.

Lemma slice_from_0 s : Str.slice_from s 0 = s.
Proof.
  unfold Str.slice_from, Str.slice. rewrite Z.sub_0_r, Nat2Z.id.
  apply substring_all.
Qed.

Lemma slice_to_0 s : Str.slice_to s 0 = "".
Proof. unfold Str.slice_to, Str.slice. simpl. by destruct s. Qed.

Lemma split_tail_no_sep p : Str.rfind posixpath.sep (snd (posixpath.split p)) = -1.
Proof.
  unfold posixpath.split. simpl.
  pose proof (rfind_range posixpath.sep p).
  destruct (decide (Str.rfind posixpath.sep p = -1)) as [E|E].
  - rewrite E. simpl. by rewrite slice_from_0.
  - destruct (rfind_split posixpath.sep p) as (a & b & -> & Hb & Hl); [lia|].
    rewrite Hl.
    replace (Z.of_nat (String.length a) + 1)
      with (Z.of_nat (String.length (a +:+ "/")))
      by (rewrite string_app_length; simpl; lia).
    change (String posixpath.sep b) with ("/" +:+ b).
    by rewrite <-string_app_assoc, slice_from_app.
Qed.

End paths.

Lemma split_no_sep n :
  Str.rfind posixpath.sep n = -1 → posixpath.split n = ("", n).
Proof.
  intros Hn. unfold posixpath.split. rewrite Hn.
  change (-1 + 1) with 0. by rewrite slice_to_0, slice_from_0.
Qed.

(** * Plain paths *)





Section splitext.
Implicit Types (a b d n s t e : string) (c x : ascii).

(** What [splitext] returns on a name without a slash. *)
Lemma splitext_entry n :
  Str.rfind posixpath.sep n = -1 →
  posixpath.splitext n = (n, "")
  ∨ ∃ b e, posixpath.splitext n = (b, String posixpath.extsep e)
           ∧ n = b +:+ String posixpath.extsep e
           ∧ Str.rfind posixpath.extsep e = -1
           ∧ Str.all_chars posixpath.extsep b = false.
Proof.
  intros Hn. unfold posixpath.splitext. rewrite Hn.
  pose proof (rfind_range posixpath.extsep n).
  destruct (decide (Str.rfind posixpath.extsep n = -1)) as [E|E].
  { rewrite E. by left. }
  destruct (rfind_split posixpath.extsep n) as (a & b & -> & Hb & Hl); [lia|].
  rewrite Hl. rewrite (proj2 (Z.ltb_lt _ _)) by lia.
  change (-1 + 1) with 0.
  change (Str.slice ?s 0 ?j) with (Str.slice_to s j).
  rewrite slice_to_app, slice_from_app.
  destruct (Str.all_chars posixpath.extsep a) eqn:Ha; [by left|].
  right. by exists a, b.
Qed.

Lemma splitext_derived b suf e :
  Str.all_chars posixpath.extsep b = false →
  Str.rfind posixpath.extsep e = -1 →
  Str.rfind posixpath.sep (b +:+ suf +:+ String posixpath.extsep e) = -1 →
  posixpath.splitext (b +:+ suf +:+ String posixpath.extsep e)
  = (b +:+ suf, String posixpath.extsep e).
Proof.
  intros Hb He Hs. unfold posixpath.splitext. rewrite Hs.
  rewrite <-string_app_assoc.
  assert (Str.rfind posixpath.extsep ((b +:+ suf) +:+ String posixpath.extsep e)
          = Z.of_nat (String.length (b +:+ suf))) as ->.
  { rewrite rfind_app, rfind_cons_eq by done. simpl. lia. }
  rewrite (proj2 (Z.ltb_lt _ _)) by lia.
  change (-1 + 1) with 0.
  change (Str.slice ?s 0 ?j) with (Str.slice_to s j).
  rewrite slice_to_app, slice_from_app.
  by rewrite all_chars_app, Hb.
Qed.

Lemma lower_nil_inv s : Str.lower s = "" → s = "".
Proof. by destruct s. Qed.

Lemma recognized_ext n : recognized n → snd (posixpath.splitext n) ≠ "".
Proof.
  unfold recognized. intros H E. rewrite E in H.
  assert (bool_decide (Str.lower "" ∈ image_extensions) = false) as Hd
    by reflexivity.
  by apply bool_decide_eq_false in Hd.
Qed.

(** A recognized entry is its base name followed by its extension, and
    the name of a derivative splits into the suffixed base and that
    extension. *)
Lemma splitext_recognized n suf :
  entry_name n → recognized n → Str.rfind posixpath.sep suf = -1 →
  let base := fst (posixpath.splitext n) in
  let ext := snd (posixpath.splitext n) in
  n = base +:+ ext
  ∧ entry_name (base +:+ suf +:+ ext)
  ∧ posixpath.splitext (base +:+ suf +:+ ext) = (base +:+ suf, ext).
Proof.
  intros [Hn1 Hn2] Hr Hsuf. pose proof (recognized_ext n Hr) as Hext.
  destruct (splitext_entry n Hn2) as [E|(b & e & E & Hn & He & Hb)];
    rewrite E in Hext |- *; simpl in *; [done|].
  subst n. apply rfind_app_none in Hn2 as [Hb2 He2].
  assert (Str.rfind posixpath.sep (b +:+ suf +:+ String posixpath.extsep e) = -1)
    as Hs by (by rewrite !rfind_app_none).
  split; [done|]. split; [split; [|done]|by apply splitext_derived].
  intros [_ [_ ?]%string_app_eq_nil]%string_app_eq_nil. done.
Qed.

Lemma derivative_name_inj n1 n2 suf :
  entry_name n1 → recognized n1 → entry_name n2 → recognized n2 →
  Str.rfind posixpath.sep suf = -1 →
  fst (posixpath.splitext n1) +:+ suf +:+ snd (posixpath.splitext n1)
  = fst (posixpath.splitext n2) +:+ suf +:+ snd (posixpath.splitext n2) →
  n1 = n2.
Proof.
  intros H1 R1 H2 R2 Hsuf Heq.
  destruct (splitext_recognized n1 suf H1 R1 Hsuf) as (E1 & _ & S1).
  destruct (splitext_recognized n2 suf H2 R2 Hsuf) as (E2 & _ & S2).
  rewrite Heq, S2 in S1. injection S1 as Hb He.
  apply string_app_inv_tail in Hb. rewrite E1, E2. by rewrite Hb, He.
Qed.

End splitext.

(** * Lower case *)

Lemma lower_char_sep a :
  Ascii.eqb (Str.lower_char a) posixpath.sep = Ascii.eqb a posixpath.sep.
Proof. destruct a as [[] [] [] [] [] [] [] []]; vm_compute; reflexivity. Qed.

Lemma lower_char_extsep a :
  Ascii.eqb (Str.lower_char a) posixpath.extsep = Ascii.eqb a posixpath.extsep.
Proof. destruct a as [[] [] [] [] [] [] [] []]; vm_compute; reflexivity. Qed.

Lemma rfind_lower c s :
  (∀ a, Ascii.eqb (Str.lower_char a) c = Ascii.eqb a c) →
  Str.rfind c (Str.lower s) = Str.rfind c s.
Proof.
  intros Hc. induction s as [|a s IH]; [done|].
  cbn [Str.lower Str.rfind]. by rewrite IH, Hc.
Qed.

(** * The monad *)

Section monad.
Context {A B : Type}.
Implicit Types (m : M A) (k : A → M B) (s : state).

Lemma run_bind m k s :
  (m ≫= k) s = match m s with
               | Returned a s' => k a s'
               | Raised e s' => Raised e s'
               end.
Proof. reflexivity. Qed.

Lemma bind_returned m k s a s' : m s = Returned a s' → (m ≫= k) s = k a s'.
Proof. intros H. by rewrite run_bind, H. Qed.

Lemma bind_raised m k s e s' : m s = Raised e s' → (m ≫= k) s = Raised e s'.
Proof. intros H. by rewrite run_bind, H. Qed.

Lemma only_writes_bind Wa Wn m k :
  only_writes Wa Wn m → (∀ a, only_writes Wa Wn (k a)) →
  only_writes Wa Wn (m ≫= k).
Proof.
  intros Hm Hk s p. rewrite run_bind. specialize (Hm s p).
  destruct (m s) as [a s1|e s1]; simpl in Hm; [|done].
  specialize (Hk a s1 p). destruct Hm as [Hm|[[? Hm]|?]]; [|  |by auto].
  - rewrite Hm in Hk. done.
  - destruct Hk as [Hk|[?|[_ Hk]]]; [|by auto|].
    + rewrite Hk. by auto.
    + destruct Hm as [c Hm]. by rewrite Hm in Hk.
Qed.

Lemma only_prints_bind m k :
  only_prints m → (∀ a, only_prints (k a)) → only_prints (m ≫= k).
Proof.
  intros Hm Hk s. rewrite run_bind. specialize (Hm s).
  destruct (m s) as [a s1|e s1]; simpl in Hm; [|done].
  by etrans; [|apply Hk].
Qed.

End monad.

Section monad_facts.
Context {A : Type}.
Implicit Types (m : M A) (s : state).

Lemma only_writes_weaken (Wa Wn Wa' Wn' : string → Prop) m :
  (∀ p, Wa p → Wa' p) → (∀ p, Wn p → Wn' p) →
  only_writes Wa Wn m → only_writes Wa' Wn' m.
Proof. intros Ha Hn Hm s p. destruct (Hm s p) as [?|[[??]|[??]]]; auto. Qed.

Lemma only_writes_pure Wa Wn m :
  (∀ s, fs (final (m s)) = fs s) → only_writes Wa Wn m.
Proof. intros H s p. left. by rewrite H. Qed.

Lemma only_writes_try Wa Wn m catches (handler : exn → M A) :
  only_writes Wa Wn m → (∀ e, only_writes Wa Wn (handler e)) →
  only_writes Wa Wn (try_except m catches handler).
Proof.
  intros Hm Hh s p. unfold try_except. specialize (Hm s p).
  destruct (m s) as [a s1|e s1]; simpl in Hm; [done|].
  destruct (catches e); [|done].
  specialize (Hh e s1 p). destruct Hm as [Hm|[[? Hm]|?]]; [|  |by auto].
  - rewrite Hm in Hh. done.
  - destruct Hh as [Hh|[?|[_ Hh]]]; [|by auto|].
    + rewrite Hh. by auto.
    + destruct Hm as [c Hm]. by rewrite Hm in Hh.
Qed.

Lemma only_prints_try m catches (handler : exn → M A) :
  only_prints m → (∀ e, only_prints (handler e)) →
  only_prints (try_except m catches handler).
Proof.
  intros Hm Hh s. unfold try_except. specialize (Hm s).
  destruct (m s) as [a s1|e s1]; simpl in Hm; [done|].
  destruct (catches e); [|done]. by etrans; [|apply Hh].
Qed.

Lemma only_prints_quiet m :
  (∀ s, stdout (final (m s)) = stdout s) → only_prints m.
Proof. intros H s. by rewrite H. Qed.

End monad_facts.

Lemma run_print l s :
  print l s = Returned tt (State (fs s) (stdout s ++ [l])).
Proof. reflexivity. Qed.

Lemma run_for_each_print ls s :
  for_each ls print s = Returned tt (State (fs s) (stdout s ++ ls)).
Proof.
  revert s. induction ls as [|l ls IH]; intros s.
  - simpl. rewrite app_nil_r. by destruct s.
  - simpl. rewrite run_bind, run_print, IH. simpl.
    by rewrite <-app_assoc.
Qed.

Lemma only_writes_for_each {X} Wa Wn (l : list X) (body : X → M unit) :
  (∀ x, x ∈ l → only_writes Wa Wn (body x)) →
  only_writes Wa Wn (for_each l body).
Proof.
  induction l as [|x l IH]; intros H.
  - by apply only_writes_pure.
  - simpl. apply only_writes_bind.
    + apply H. by left.
    + intros _. apply IH. intros y Hy. apply H. by right.
Qed.

Lemma only_prints_for_each {X} (l : list X) (body : X → M unit) :
  (∀ x, x ∈ l → only_prints (body x)) → only_prints (for_each l body).
Proof.
  induction l as [|x l IH]; intros H.
  - by apply only_prints_quiet.
  - simpl. apply only_prints_bind.
    + apply H. by left.
    + intros _. apply IH. intros y Hy. apply H. by right.
Qed.

(** A loop whose body keeps an invariant, on the entries of the list,
    returns and keeps it; what the body establishes for one entry and
    keeps for the others holds at the end. *)
Lemma for_each_invariant {X} (I : state → Prop) (l : list X)
    (body : X → M unit) :
  (∀ x s, x ∈ l → I s → ∃ s', body x s = Returned tt s' ∧ I s') →
  ∀ s, I s → ∃ s', for_each l body s = Returned tt s' ∧ I s'.
Proof.
  induction l as [|x l IH]; intros H s Hs.
  - by exists s.
  - destruct (H x s) as (s1 & E1 & H1); [by left|done|].
    destruct (IH (λ y s0 Hy, H y s0 (list_elem_of_further _ _ _ Hy)) s1 H1)
      as (s2 & E2 & H2).
    exists s2. split; [|done]. simpl. by rewrite (bind_returned _ _ _ _ _ E1).
Qed.

Lemma for_each_establish {X} (I Q : state → Prop) (l : list X)
    (body : X → M unit) (g : X) :
  (∀ x s, x ∈ l → I s →
     ∃ s', body x s = Returned tt s' ∧ I s' ∧ (x = g → Q s') ∧ (Q s → Q s')) →
  g ∈ l →
  ∀ s, I s → ∃ s', for_each l body s = Returned tt s' ∧ I s' ∧ Q s'.
Proof.
  intros H Hg s Hs.
  assert (∀ s, I s → (Q s ∨ g ∈ l) →
          ∃ s', for_each l body s = Returned tt s' ∧ I s' ∧ Q s') as Hgen.
  { clear s Hs Hg. induction l as [|x l IH]; intros s Hs HQ.
    - destruct HQ as [HQ|HQ]; [by exists s|by apply elem_of_nil in HQ].
    - destruct (H x s) as (s1 & E1 & H1 & Hx & Hk); [by left|done|].
      destruct (IH (λ y s0 Hy, H y s0 (list_elem_of_further _ _ _ Hy)) s1 H1)
        as (s2 & E2 & H2).
      { destruct HQ as [HQ|[->|HQ]%elem_of_cons]; auto. }
      exists s2. split; [|done]. simpl. by rewrite (bind_returned _ _ _ _ _ E1). }
  apply Hgen; auto.
Qed.

(** * Exceptions of the pure computations *)

Lemma lookup_error_class depth f p :
  os.lookup_error depth f p = FileNotFoundError
  ∨ os.lookup_error depth f p = NotADirectoryError.
Proof.
  revert p. induction depth as [|depth IH]; intros p; cbn [os.lookup_error];
    destruct (String.eqb _ ""); auto;
    destruct (f !! _) as [[|c]|]; auto.
Qed.

Lemma missing_OSError f p : is_OSError (os.missing f p) = true.
Proof.
  unfold os.missing.
  by destruct (lookup_error_class (String.length p) f p) as [->| ->].
Qed.

Lemma missing_Exception f p : is_Exception (os.missing f p) = true.
Proof.
  unfold os.missing.
  by destruct (lookup_error_class (String.length p) f p) as [->| ->].
Qed.

Lemma fails_rbind {X Y} (r : result X) (k : X → result Y) :
  fails_with_Exception r → (∀ x, fails_with_Exception (k x)) →
  fails_with_Exception (rbind r k).
Proof.
  intros Hr Hk e. destruct r as [e'|x]; simpl.
  - intros [= ->]. by apply Hr.
  - apply Hk.
Qed.

Lemma fails_inr {X} (x : X) : fails_with_Exception (inr x : result X).
Proof. by intros e. Qed.

Lemma fails_inl {X} (e0 : exn) :
  is_Exception e0 = true → fails_with_Exception (inl e0 : result X).
Proof. intros H e' E. by simplify_eq. Qed.

Lemma fails_guard_finite x : fails_with_Exception (PyFloat.guard_finite x).
Proof. destruct x; by intros e0 [= <-]. Qed.

Lemma fails_of_int z : fails_with_Exception (PyFloat.of_int z).
Proof. apply fails_guard_finite. Qed.

Lemma fails_int_truediv a b : fails_with_Exception (PyFloat.int_truediv a b).
Proof.
  unfold PyFloat.int_truediv. destruct (b =? 0); [by apply fails_inl|].
  apply fails_guard_finite.
Qed.

Lemma fails_int_mul a x : fails_with_Exception (PyFloat.int_mul a x).
Proof. apply fails_rbind; [apply fails_of_int|]. intros. apply fails_inr. Qed.

Lemma fails_int_div a x : fails_with_Exception (PyFloat.int_div a x).
Proof.
  apply fails_rbind; [apply fails_of_int|]. intros fa.
  destruct (PyFloat.is_zero x); [by apply fails_inl|apply fails_inr].
Qed.

Lemma fails_to_int x : fails_with_Exception (PyFloat.to_int x).
Proof. destruct x; by intros e0 [= <-]. Qed.

Lemma fails_resize img size : fails_with_Exception (PIL.resize img size).
Proof.
  unfold PIL.resize. destruct (_ || _); [by apply fails_inl|apply fails_inr].
Qed.

Lemma fails_crop img box : fails_with_Exception (PIL.crop img box).
Proof.
  destruct box as [[[x0 y0] x1] y1]. unfold PIL.crop.
  destruct (_ || _); [by apply fails_inl|apply fails_inr].
Qed.

Lemma fails_new m size color : fails_with_Exception (PIL.new m size color).
Proof.
  unfold PIL.new. destruct (_ || _); [by apply fails_inl|apply fails_inr].
Qed.

Lemma fails_crop_to_fill img target_size :
  fails_with_Exception (crop_to_fill img target_size).
Proof.
  unfold crop_to_fill.
  repeat first
    [ apply fails_int_truediv | apply fails_int_mul | apply fails_int_div
    | apply fails_to_int | apply fails_resize | apply fails_crop
    | apply fails_rbind; [|intros ?]
    | match goal with |- context [if ?b then _ else _] => destruct b end ].
Qed.

Lemma fails_pad_to_fit img target_size :
  fails_with_Exception (pad_to_fit img target_size).
Proof.
  unfold pad_to_fit.
  repeat first
    [ apply fails_int_truediv | apply fails_int_mul | apply fails_int_div
    | apply fails_to_int | apply fails_resize | apply fails_new
    | apply fails_inr
    | apply fails_rbind; [|intros ?]
    | match goal with |- fails_with_Exception (let '(_, _) := ?p in _) =>
        destruct p end
    | match goal with |- context [if ?b then _ else _] => destruct b end ].
Qed.

Lemma fails_save_handler img format :
  fails_with_Exception (PIL.save_handler img format).
Proof.
  unfold PIL.save_handler.
  repeat match goal with |- context [if ?b then _ else _] => destruct b end;
    by intros e [= <-].
Qed.

(** Lines 91 to 94 choose the writer from the name. *)
Lemma run_save_format final_img output_path quality :
  (if Str.endswith (Str.lower output_path) ".jpg"
      || Str.endswith (Str.lower output_path) ".jpeg"
   then PIL.save final_img output_path "JPEG" (Some quality)
   else PIL.save final_img output_path "PNG" None)
  = PIL.save final_img output_path (fst (output_format output_path quality))
      (snd (output_format output_path quality)).
Proof. unfold output_format. by destruct (_ || _). Qed.

Lemma output_format_eq output_path quality :
  output_format output_path quality
  = if Str.endswith (Str.lower output_path) ".jpg"
       || Str.endswith (Str.lower output_path) ".jpeg"
    then ("JPEG", Some quality) else ("PNG", None).
Proof. done. Qed.

(** * The geometry of the crop mode *)

Lemma rbind_inr {X Y} (r : result X) (k : X → result Y) y :
  rbind r k = inr y → ∃ x, r = inr x ∧ k x = inr y.
Proof. destruct r as [e|x]; simpl; [done|]. by exists x. Qed.

Lemma resize_inr img size r :
  PIL.resize img size = inr r →
  r = Image (fst size) (snd size) (mode img) (Resize size (data img))
  ∧ 1 ≤ fst size ∧ 1 ≤ snd size.
Proof.
  unfold PIL.resize. destruct (_ || _) eqn:E; [done|]. intros [= <-].
  apply orb_false_iff in E as [?%Z.ltb_ge ?%Z.ltb_ge]. done.
Qed.

Lemma crop_inr img x0 y0 x1 y1 r :
  PIL.crop img (x0, y0, x1, y1) = inr r →
  r = Image (x1 - x0) (y1 - y0) (mode img) (Crop (x0, y0, x1, y1) (data img))
  ∧ x0 ≤ x1 ∧ y0 ≤ y1.
Proof.
  unfold PIL.crop. destruct (_ || _) eqn:E; [done|]. intros [= <-].
  apply orb_false_iff in E as [?%Z.ltb_ge ?%Z.ltb_ge]. done.
Qed.

(** The two branches of lines 37 to 62: what the image is resized to and
    which box is cut out of it. *)
Lemma crop_to_fill_inv img tw th final_img :
  crop_to_fill img (tw, th) = inr final_img →
  ∃ img_ratio target_ratio new_width new_height x0 y0 x1 y1,
    PyFloat.int_truediv (width img) (height img) = inr img_ratio
    ∧ PyFloat.int_truediv tw th = inr target_ratio
    ∧ final_img
      = Image tw th (mode img)
          (Crop (x0, y0, x1, y1) (Resize (new_width, new_height) (data img)))
    ∧ 1 ≤ new_width ∧ 1 ≤ new_height
    ∧ (if PyFloat.gt img_ratio target_ratio
       then new_height = th
            ∧ rbind (PyFloat.int_mul th img_ratio) PyFloat.to_int = inr new_width
            ∧ x0 = (new_width - tw) / 2 ∧ y0 = 0
            ∧ x1 = x0 + tw ∧ y1 = th
       else new_width = tw
            ∧ rbind (PyFloat.int_div tw img_ratio) PyFloat.to_int = inr new_height
            ∧ x0 = 0 ∧ y0 = (new_height - th) / 2
            ∧ x1 = tw ∧ y1 = y0 + th).
Proof.
  unfold crop_to_fill. cbn [fst snd].
  intros (img_ratio & E1 & H)%rbind_inr.
  apply rbind_inr in H as (target_ratio & E2 & H).
  exists img_ratio, target_ratio.
  destruct (PyFloat.gt img_ratio target_ratio).
  - apply rbind_inr in H as (new_width & E3 & H).
    apply rbind_inr in H as (resized & E4 & H).
    apply resize_inr in E4 as (-> & ? & ?). cbn [fst snd] in *.
    apply crop_inr in H as (-> & ? & ?). simpl.
    exists new_width, th, ((new_width - tw) / 2), 0,
      ((new_width - tw) / 2 + tw), th.
    split_and!; try done. f_equal; lia.
  - apply rbind_inr in H as (new_height & E3 & H).
    apply rbind_inr in H as (resized & E4 & H).
    apply resize_inr in E4 as (-> & ? & ?). cbn [fst snd] in *.
    apply crop_inr in H as (-> & ? & ?). simpl.
    exists tw, new_height, 0, ((new_height - th) / 2), tw,
      ((new_height - th) / 2 + th).
    split_and!; try done. f_equal; lia.
Qed.

(** The box has the target size and sits in the middle of the resized
    image: the margin after it exceeds the margin before it by at most one. *)
Lemma crop_to_fill_centered img tw th final_img :
  crop_to_fill img (tw, th) = inr final_img →
  ∃ new_width new_height x0 y0 x1 y1,
    final_img
    = Image tw th (mode img)
        (Crop (x0, y0, x1, y1) (Resize (new_width, new_height) (data img)))
    ∧ x1 - x0 = tw ∧ y1 - y0 = th
    ∧ 0 ≤ (new_width - x1) - x0 ≤ 1
    ∧ 0 ≤ (new_height - y1) - y0 ≤ 1.
Proof.
  intros (img_ratio & target_ratio & nw & nh & x0 & y0 & x1 & y1
          & _ & _ & -> & _ & _ & H)%crop_to_fill_inv.
  exists nw, nh, x0, y0, x1, y1. split; [done|].
  destruct (PyFloat.gt img_ratio target_ratio).
  - destruct H as (-> & _ & -> & -> & -> & ->).
    pose proof (Z.div_mod (nw - tw) 2) as Hd.
    pose proof (Z.mod_pos_bound (nw - tw) 2). lia.
  - destruct H as (-> & _ & -> & -> & -> & ->).
    pose proof (Z.div_mod (nh - th) 2) as Hd.
    pose proof (Z.mod_pos_bound (nh - th) 2). lia.
Qed.

Lemma crop_to_fill_size img target_size final_img :
  crop_to_fill img target_size = inr final_img →
  width final_img = fst target_size ∧ height final_img = snd target_size
  ∧ mode final_img = mode img.
Proof.
  destruct target_size as [tw th].
  intros (nw & nh & x0 & y0 & x1 & y1 & -> & _)%crop_to_fill_centered. done.
Qed.

Lemma pad_to_fit_mode img target_size final_img :
  pad_to_fit img target_size = inr final_img → mode final_img = "RGB".
Proof.
  unfold pad_to_fit.
  intros (img_ratio & _ & H)%rbind_inr.
  apply rbind_inr in H as (target_ratio & _ & H).
  apply rbind_inr in H as ([nw nh] & _ & H).
  apply rbind_inr in H as (resized & _ & H).
  apply rbind_inr in H as (canvas & Hc & H).
  injection H as <-. simpl. unfold PIL.new in Hc.
  destruct (_ || _); [done|]. by injection Hc as <-.
Qed.

(** Lines 65 to 88: one side of the resized image has the length of the
    target, and the image is pasted where the margins before it are the
    halves, rounded down, of what the target has left over. *)
Lemma pad_to_fit_inv img tw th final_img :
  pad_to_fit img (tw, th) = inr final_img →
  ∃ new_width new_height,
    final_img
    = Image tw th "RGB"
        (Paste (New "RGB" (tw, th) (255, 255, 255))
           (Resize (new_width, new_height) (data img))
           ((tw - new_width) / 2, (th - new_height) / 2))
    ∧ 1 ≤ new_width ∧ 1 ≤ new_height
    ∧ (new_width = tw ∨ new_height = th).
Proof.
  unfold pad_to_fit. cbn [fst snd].
  intros (img_ratio & _ & H)%rbind_inr.
  apply rbind_inr in H as (target_ratio & _ & H).
  apply rbind_inr in H as ([nw nh] & Hs & H).
  apply rbind_inr in H as (resized & Hr & H).
  apply rbind_inr in H as (canvas & Hc & H).
  apply resize_inr in Hr as (-> & ? & ?). cbn [fst snd] in *.
  unfold PIL.new in Hc. destruct (_ || _); [done|]. injection Hc as <-.
  injection H as <-. exists nw, nh. split_and!; try done.
  destruct (PyFloat.gt img_ratio target_ratio);
    apply rbind_inr in Hs as (x & _ & [= <- <-]); auto.
Qed.

(** A target of height zero: the ratio of the target cannot be taken. *)
Lemma zero_height_fails img tw (crop_mode : bool) :
  ∃ e, (if crop_mode then crop_to_fill img (tw, 0)
        else pad_to_fit img (tw, 0)) = inl e
       ∧ is_Exception e = true.
Proof.
  destruct (PyFloat.int_truediv (width img) (height img)) as [e|r] eqn:E.
  - exists e. split; [|exact (fails_int_truediv _ _ e E)].
    destruct crop_mode; unfold crop_to_fill, pad_to_fit; by rewrite E.
  - exists ZeroDivisionError. split; [|done].
    destruct crop_mode; unfold crop_to_fill, pad_to_fit; by rewrite E.
Qed.

Lemma to_rgb_if_necessary_converts img :
  mode img ∈ ["RGBA"; "LA"; "P"] →
  to_rgb_if_necessary img = PIL.convert img "RGB".
Proof. intros H. unfold to_rgb_if_necessary. by rewrite bool_decide_eq_true_2. Qed.

Lemma to_rgb_if_necessary_mode img :
  mode (to_rgb_if_necessary img)
  = if bool_decide (mode img ∈ ["RGBA"; "LA"; "P"]) then "RGB" else mode img.
Proof. unfold to_rgb_if_necessary. by destruct (bool_decide _). Qed.

(** * The calls on the world *)

(** From here on these functions are handled through their lemmas. *)
Opaque posixpath.split posixpath.join posixpath.splitext.
Opaque crop_to_fill pad_to_fit to_rgb_if_necessary PIL.save_handler output_format.

Lemma run_check_parent_ready p s :
  parent_ready (fs s) p → os.check_parent p s = Returned tt s.
Proof.
  intros H. unfold os.check_parent. rewrite run_bind. simpl.
  destruct (String.eqb_spec (posixpath.split p).1 "") as [E|E]; [done|].
  destruct H as [H|H]; [done|]. by rewrite H.
Qed.

Lemma run_check_parent p s :
  (os.check_parent p s = Returned tt s ∧ parent_ready (fs s) p)
  ∨ ∃ e, os.check_parent p s = Raised e s ∧ is_Exception e = true.
Proof.
  unfold os.check_parent, parent_ready. rewrite run_bind. simpl.
  destruct (String.eqb_spec (posixpath.split p).1 "") as [E|E]; [by auto|].
  destruct (fs s !! (posixpath.split p).1) as [[|c]|];
    eauto using missing_Exception.
Qed.

(** [save] either writes the encoded image, or raises and leaves at most
    another file where a file was. *)
Lemma run_save img path format quality s :
  (PIL.save_handler img format = inr tt ∧ fs s !! path ≠ Some Dir
   ∧ parent_ready (fs s) path
   ∧ PIL.save img path format quality s
     = Returned tt (State (<[path := File (Encoded format quality img)]> (fs s))
                          (stdout s)))
  ∨ ∃ e f', PIL.save img path format quality s = Raised e (State f' (stdout s))
            ∧ is_Exception e = true
            ∧ (f' = fs s
               ∨ (∃ c, fs s !! path = Some (File c))
                 ∧ ∃ c', f' = <[path := File c']> (fs s)).
Proof.
  unfold PIL.save. rewrite run_bind. simpl.
  destruct (fs s !! path) as [[|c]|] eqn:Hp.
  - right. exists IsADirectoryError, (fs s). destruct s; auto.
  - destruct (run_check_parent path s) as [[E Hr]|(e & E & He)];
      rewrite run_bind, E.
    + destruct (PIL.save_handler img format) as [e|[]] eqn:Hh.
      * right. exists e, (<[path := File (Partial format img)]> (fs s)).
        rewrite bool_decide_eq_true_2 by eauto. simpl.
        split_and!; [done|by eapply fails_save_handler|eauto].
      * left. by split_and!.
    + right. exists e, (fs s). destruct s; auto.
  - destruct (run_check_parent path s) as [[E Hr]|(e & E & He)];
      rewrite run_bind, E.
    + destruct (PIL.save_handler img format) as [e|[]] eqn:Hh.
      * right. exists e, (fs s).
        rewrite bool_decide_eq_false_2 by (by intros [? ?]). simpl.
        split_and!; [by destruct s|by eapply fails_save_handler|auto].
      * left. by split_and!.
    + right. exists e, (fs s). destruct s; auto.
Qed.

(** What the [try] block does: it raises before printing anything, or
    writes the derivative and reports it. *)
Lemma run_resize_image_try input_path output_path target_size quality crop_mode s :
  (∃ e f',
     resize_image_try input_path output_path target_size quality crop_mode s
     = Raised e (State f' (stdout s))
     ∧ is_Exception e = true
     ∧ (f' = fs s
        ∨ (∃ c, fs s !! output_path = Some (File c))
          ∧ ∃ c', f' = <[output_path := File c']> (fs s)))
  ∨ (∃ fmt q img final_img,
       fs s !! input_path = Some (File (Encoded fmt q img))
       ∧ (if crop_mode then crop_to_fill (to_rgb_if_necessary img) target_size
          else pad_to_fit (to_rgb_if_necessary img) target_size) = inr final_img
       ∧ PIL.save_handler final_img (fst (output_format output_path quality)) = inr tt
       ∧ fs s !! output_path ≠ Some Dir
       ∧ parent_ready (fs s) output_path
       ∧ resize_image_try input_path output_path target_size quality crop_mode s
         = Returned tt
             (State (<[output_path := derivative output_path quality final_img]> (fs s))
                    (stdout s ++ [Resized input_path target_size output_path]))).
Proof.
  remember (resize_image_try input_path output_path target_size quality
              crop_mode s) as r eqn:Er.
  unfold resize_image_try in Er.
  rewrite run_bind in Er. unfold PIL.open in Er. rewrite run_bind in Er.
  simpl in Er.
  destruct (fs s !! input_path) as [[|[fmt q img|fmt img|b]]|] eqn:Hi;
    [left; eexists _, (fs s); subst r; destruct s;
       by auto using missing_Exception| |
     left; eexists _, (fs s); subst r; destruct s;
       by auto using missing_Exception..].
  simpl in Er. rewrite run_bind in Er.
  destruct (if crop_mode then _ else _) as [e|final_img] eqn:Hr; simpl in Er.
  { left. exists e, (fs s). subst r. split_and!; [by destruct s| |by auto].
    destruct crop_mode;
      [by eapply fails_crop_to_fill|by eapply fails_pad_to_fit]. }
  rewrite run_save_format, run_bind in Er.
  destruct (run_save final_img output_path
              (fst (output_format output_path quality))
              (snd (output_format output_path quality)) s)
    as [(Hh & Hd & Hp & E)|(e & f' & E & He & Hf)]; rewrite E in Er; subst r.
  - right. exists fmt, q, img, final_img. by split_and!.
  - left. by exists e, f'.
Qed.

Lemma run_save_ok img path format quality s :
  PIL.save_handler img format = inr tt → fs s !! path ≠ Some Dir →
  parent_ready (fs s) path →
  PIL.save img path format quality s
  = Returned tt (State (<[path := File (Encoded format quality img)]> (fs s))
                       (stdout s)).
Proof.
  intros Hh Hd Hp. unfold PIL.save. rewrite run_bind. simpl.
  destruct (fs s !! path) as [[|c]|] eqn:E; [done|..];
    by rewrite run_bind, (run_check_parent_ready _ _ Hp), Hh.
Qed.

(** The derivative is written and reported when the image can be
    derived and the output directory is there. *)
Lemma resize_image_ok input_path output_path target_size quality s final_img :
  derivable (fs s) input_path output_path target_size quality final_img →
  parent_ready (fs s) output_path →
  resize_image input_path output_path target_size quality true s
  = Returned tt
      (State (<[output_path := derivative output_path quality final_img]> (fs s))
             (stdout s ++ [Resized input_path target_size output_path])).
Proof.
  intros (fmt & q & img & Hi & Hr & Hh & Hd) Hp.
  unfold resize_image, try_except, resize_image_try.
  rewrite run_bind. unfold PIL.open. rewrite run_bind. simpl. rewrite Hi.
  simpl. rewrite run_bind, Hr. simpl.
  rewrite run_save_format, run_bind, (run_save_ok _ _ _ _ _ Hh Hd Hp).
  done.
Qed.

(** [resize_image] returns whatever happens: with the error reported,
    or with the derivative written and reported. *)
Lemma run_resize_image input_path output_path target_size quality crop_mode s :
  (∃ e f',
     resize_image input_path output_path target_size quality crop_mode s
     = Returned tt (State f' (stdout s ++ [ErrorProcessing input_path e]))
     ∧ is_Exception e = true
     ∧ (f' = fs s
        ∨ (∃ c, fs s !! output_path = Some (File c))
          ∧ ∃ c', f' = <[output_path := File c']> (fs s)))
  ∨ (∃ fmt q img final_img,
       fs s !! input_path = Some (File (Encoded fmt q img))
       ∧ (if crop_mode then crop_to_fill (to_rgb_if_necessary img) target_size
          else pad_to_fit (to_rgb_if_necessary img) target_size) = inr final_img
       ∧ PIL.save_handler final_img (fst (output_format output_path quality)) = inr tt
       ∧ fs s !! output_path ≠ Some Dir
       ∧ parent_ready (fs s) output_path
       ∧ resize_image input_path output_path target_size quality crop_mode s
         = Returned tt
             (State (<[output_path := derivative output_path quality final_img]> (fs s))
                    (stdout s ++ [Resized input_path target_size output_path]))).
Proof.
  unfold resize_image, try_except.
  destruct (run_resize_image_try input_path output_path target_size quality
              crop_mode s)
    as [(e & f' & E & He & Hf)|(fmt & q & img & final_img & ? & ? & ? & ? & ? & E)];
    rewrite E.
  - left. exists e, f'. by rewrite He.
  - right. exists fmt, q, img, final_img. by split_and!.
Qed.

Lemma resize_image_returns input_path output_path target_size quality crop_mode s :
  ∃ s', resize_image input_path output_path target_size quality crop_mode s
        = Returned tt s'.
Proof.
  destruct (run_resize_image input_path output_path target_size quality
              crop_mode s)
    as [(e & f' & E & _)|(fmt & q & img & final_img & _ & _ & _ & _ & _ & E)];
    eauto.
Qed.

Lemma only_writes_resize_image input_path output_path target_size quality crop_mode Wn :
  only_writes (λ p, p = output_path) Wn
    (resize_image input_path output_path target_size quality crop_mode).
Proof.
  intros s p.
  destruct (run_resize_image input_path output_path target_size quality
              crop_mode s)
    as [(e & f' & E & _ & Hf)|(fmt & q & img & final_img & _ & _ & _ & _ & _ & E)];
    rewrite E; simpl.
  - destruct Hf as [->|[_ [c' ->]]]; [by left|].
    destruct (decide (p = output_path)) as [->|Hne].
    + right; left. rewrite lookup_insert_eq. eauto.
    + left. by rewrite lookup_insert_ne.
  - destruct (decide (p = output_path)) as [->|Hne].
    + right; left. unfold derivative. rewrite lookup_insert_eq. eauto.
    + left. by rewrite lookup_insert_ne.
Qed.

Lemma only_prints_resize_image input_path output_path target_size quality crop_mode :
  only_prints (resize_image input_path output_path target_size quality crop_mode).
Proof.
  intros s.
  destruct (run_resize_image input_path output_path target_size quality
              crop_mode s)
    as [(e & f' & E & _)|(fmt & q & img & final_img & _ & _ & _ & _ & _ & E)];
    rewrite E; simpl; by apply prefix_app_r.
Qed.

(** ** On a console *)

(** On a console that has every character, this is [resize_image]. *)
Lemma resize_image_on_every_character input_path output_path target_size
    quality crop_mode :
  resize_image_on (λ _, true) input_path output_path target_size quality
    crop_mode
  = resize_image input_path output_path target_size quality crop_mode.
Proof. reflexivity. Qed.

(** The [try] block on a console: the block of [resize_image], whose
    last step, the [print] of line 96, raises when the console lacks a
    character of the line. *)
Lemma resize_image_try_on_eq c input_path output_path target_size quality
    crop_mode s :
  resize_image_try_on c input_path output_path target_size quality crop_mode s
  = match resize_image_try input_path output_path target_size quality
            crop_mode s with
    | Returned _ s' =>
        if c (Resized input_path target_size output_path)
        then Returned tt s'
        else Raised UnicodeEncodeError (State (fs s') (stdout s))
    | Raised e s' => Raised e s'
    end.
Proof.
  unfold resize_image_try_on, resize_image_try.
  rewrite !run_bind. unfold PIL.open. rewrite !run_bind. simpl.
  destruct (fs s !! input_path) as [[|[fmt q img|fmt img|b]]|]; simpl;
    try done.
  rewrite !run_bind.
  destruct (if crop_mode then _ else _) as [e|final_img]; simpl; [done|].
  rewrite !run_save_format, !run_bind.
  destruct (run_save final_img output_path
              (fst (output_format output_path quality))
              (snd (output_format output_path quality)) s)
    as [(_ & _ & _ & E)|(e & f' & E & _)]; rewrite E; [|done].
  unfold print_on. by destruct (c _).
Qed.

(** * Paths below the portfolio directory *)

Section below.
Implicit Types (d n sub suf p : string).

Lemma path_ne_dir d n : d +:+ "/" +:+ n ≠ d.
Proof.
  intros H. apply (f_equal String.length) in H.
  rewrite !string_app_length in H. simpl in H. lia.
Qed.

(** A path is taken apart into its directory and its entry in one way. *)
Lemma path_inj d1 n1 d2 n2 :
  normal_path d1 → normal_path d2 →
  Str.rfind posixpath.sep n1 = -1 → Str.rfind posixpath.sep n2 = -1 →
  d1 +:+ "/" +:+ n1 = d2 +:+ "/" +:+ n2 → d1 = d2 ∧ n1 = n2.
Proof.
  intros Hd1 Hd2 Hn1 Hn2 H.
  pose proof (split_join d1 n1 Hd1 Hn1) as E1.
  pose proof (split_join d2 n2 Hd2 Hn2) as E2.
  rewrite H, E2 in E1. by injection E1.
Qed.

Lemma parent_ready_in (f : gmap string node) d n :
  normal_path d → Str.rfind posixpath.sep n = -1 → f !! d = Some Dir →
  parent_ready f (d +:+ "/" +:+ n).
Proof. intros Hd Hn Hf. right. by rewrite split_join. Qed.

Lemma entry_backup_original : entry_name "backup_original".
Proof. by split. Qed.

Lemma entry_preview : entry_name "preview".
Proof. by split. Qed.

Lemma entry_slider : entry_name "slider".
Proof. by split. Qed.

Lemma backup_path_eq d n : normal_path d → entry_name n →
  backup_path d n = (d +:+ "/" +:+ "backup_original") +:+ "/" +:+ n.
Proof.
  intros Hd Hn. unfold backup_path.
  rewrite (join_normal d) by (done || apply entry_backup_original).
  apply join_normal; [|apply Hn]. apply normal_join, entry_backup_original.
Qed.

Lemma derivative_path_eq d sub suf n :
  normal_path d → entry_name sub → entry_name n → recognized n →
  Str.rfind posixpath.sep suf = -1 →
  derivative_path d sub suf n
  = (d +:+ "/" +:+ sub) +:+ "/"
    +:+ (fst (posixpath.splitext n) +:+ suf +:+ snd (posixpath.splitext n)).
Proof.
  intros Hd Hsub Hn Hr Hsuf. unfold derivative_path.
  rewrite (join_normal d) by (done || apply Hsub).
  apply join_normal; [by apply normal_join|].
  by destruct (splitext_recognized n suf Hn Hr Hsuf) as (_ & [_ ?] & _).
Qed.

Lemma below_ne d n sub x :
  normal_path d → entry_name n → entry_name sub →
  Str.rfind posixpath.sep x = -1 →
  d +:+ "/" +:+ n ≠ (d +:+ "/" +:+ sub) +:+ "/" +:+ x.
Proof.
  intros Hd Hn Hsub Hx H.
  apply path_inj in H as [H _]; [|done|by apply normal_join|apply Hn|done].
  symmetry in H. by apply path_ne_dir in H.
Qed.

Lemma below_inj d sub1 x1 sub2 x2 :
  normal_path d → entry_name sub1 → entry_name sub2 →
  Str.rfind posixpath.sep x1 = -1 → Str.rfind posixpath.sep x2 = -1 →
  (d +:+ "/" +:+ sub1) +:+ "/" +:+ x1 = (d +:+ "/" +:+ sub2) +:+ "/" +:+ x2 →
  sub1 = sub2 ∧ x1 = x2.
Proof.
  intros Hd H1 H2 Hx1 Hx2 H.
  apply path_inj in H as [H ->]; [|by apply normal_join..|done|done].
  split; [|done]. by apply (inj (String.app d)), (inj (String.app "/")) in H.
Qed.

End below.

(** * Directories *)

Lemma run_exists p s :
  os.exists_ p s = Returned (bool_decide (is_Some (fs s !! p))) s.
Proof. reflexivity. Qed.

Lemma run_isfile p s :
  os.isfile p s = Returned (match fs s !! p with
                            | Some (File _) => true
                            | _ => false
                            end) s.
Proof. reflexivity. Qed.

Lemma run_isdir p s :
  os.isdir p s = Returned (match fs s !! p with
                           | Some Dir => true
                           | _ => false
                           end) s.
Proof. reflexivity. Qed.

Lemma makedirs_rec_eq depth name exist_ok :
  os.makedirs_rec depth name exist_ok
  = (let '(head, tail) := posixpath.split name in
     let '(head, tail) :=
       if String.eqb tail "" then posixpath.split head else (head, tail) in
     head_exists ← os.exists_ head;
     (if negb (String.eqb head "") && negb (String.eqb tail "")
         && negb head_exists
      then
        match depth with
        | O => ret tt
        | S depth' =>
            try_except (os.makedirs_rec depth' head exist_ok)
              (fun e => match e with FileExistsError => true | _ => false end)
              (fun _ => ret tt)
        end
      else ret tt) ;;
     if negb (String.eqb head "") && negb (String.eqb tail "")
        && negb head_exists && String.eqb tail "."
     then ret tt
     else
       try_except (os.mkdir name) is_OSError
         (fun e =>
            d ← os.isdir name;
            if negb exist_ok || negb d then raise e else ret tt)).
Proof. by destruct depth. Qed.

(** Creating a subdirectory of an existing directory: it is made when
    absent, kept when it is a directory, and a regular file of that name
    makes [makedirs] raise. *)
Lemma run_makedirs d sub s :
  normal_path d → entry_name sub → fs s !! d = Some Dir →
  os.makedirs (d +:+ "/" +:+ sub) true s
  = match fs s !! (d +:+ "/" +:+ sub) with
    | None => Returned tt (State (<[d +:+ "/" +:+ sub := Dir]> (fs s)) (stdout s))
    | Some Dir => Returned tt s
    | Some (File _) => Raised FileExistsError s
    end.
Proof.
  intros Hd [Hs1 Hs2] Hf. unfold os.makedirs. rewrite makedirs_rec_eq.
  rewrite split_join by done.
  destruct (String.eqb_spec sub "") as [?|_]; [done|].
  rewrite run_bind, run_exists, Hf.
  rewrite bool_decide_eq_true_2 by eauto.
  rewrite !andb_false_r. simpl. rewrite run_bind. simpl.
  unfold try_except, os.mkdir. rewrite run_bind. simpl.
  destruct (fs s !! (d +:+ "/" +:+ sub)) as [[|c]|] eqn:E; simpl.
  - rewrite run_bind, run_isdir, E. done.
  - rewrite run_bind, run_isdir, E. done.
  - rewrite run_bind, run_check_parent_ready by (by apply parent_ready_in).
    done.
Qed.

Lemma only_writes_check_parent Wa Wn p : only_writes Wa Wn (os.check_parent p).
Proof.
  apply only_writes_pure. intros s.
  by destruct (run_check_parent p s) as [[-> _]|(e & -> & _)].
Qed.

Lemma only_writes_mkdir Wa p : only_writes Wa (λ _, True) (os.mkdir p).
Proof.
  intros s q. unfold os.mkdir. rewrite run_bind. simpl.
  destruct (fs s !! p) as [n|] eqn:E; [by left|].
  rewrite run_bind.
  destruct (run_check_parent p s) as [[-> _]|(e & -> & _)]; [|by left].
  simpl. destruct (decide (q = p)) as [->|Hne].
  - right; right. done.
  - left. by rewrite lookup_insert_ne.
Qed.

Lemma only_writes_makedirs_rec Wa depth name exist_ok :
  only_writes Wa (λ _, True) (os.makedirs_rec depth name exist_ok).
Proof.
  revert name. induction depth as [|depth IH]; intros name;
    rewrite makedirs_rec_eq;
    destruct (posixpath.split name) as [head tail];
    destruct (if String.eqb tail "" then _ else _) as [head' tail'];
    (apply only_writes_bind; [by apply only_writes_pure|intros head_exists]);
    (apply only_writes_bind;
       [|intros _; destruct (_ && _);
         [by apply only_writes_pure|
          apply only_writes_try; [apply only_writes_mkdir|
            intros e; apply only_writes_bind; [by apply only_writes_pure|
              intros b; destruct (_ || _); by apply only_writes_pure]]]]);
    (destruct (_ && _); [|by apply only_writes_pure]).
  - by apply only_writes_pure.
  - apply only_writes_try; [apply IH|]. intros _. by apply only_writes_pure.
Qed.

Lemma only_prints_check_parent p : only_prints (os.check_parent p).
Proof.
  apply only_prints_quiet. intros s.
  by destruct (run_check_parent p s) as [[-> _]|(e & -> & _)].
Qed.

Lemma only_prints_mkdir p : only_prints (os.mkdir p).
Proof.
  apply only_prints_quiet. intros s. unfold os.mkdir. rewrite run_bind. simpl.
  destruct (fs s !! p) as [n|] eqn:E; [done|].
  rewrite run_bind.
  by destruct (run_check_parent p s) as [[-> _]|(e & -> & _)].
Qed.

Lemma only_prints_makedirs_rec depth name exist_ok :
  only_prints (os.makedirs_rec depth name exist_ok).
Proof.
  revert name. induction depth as [|depth IH]; intros name;
    rewrite makedirs_rec_eq;
    destruct (posixpath.split name) as [head tail];
    destruct (if String.eqb tail "" then _ else _) as [head' tail'];
    (apply only_prints_bind; [by apply only_prints_quiet|intros head_exists]);
    (apply only_prints_bind;
       [|intros _; destruct (_ && _);
         [by apply only_prints_quiet|
          apply only_prints_try; [apply only_prints_mkdir|
            intros e; apply only_prints_bind; [by apply only_prints_quiet|
              intros b; destruct (_ || _); by apply only_prints_quiet]]]]);
    (destruct (_ && _); [|by apply only_prints_quiet]).
  - by apply only_prints_quiet.
  - apply only_prints_try; [apply IH|]. intros _. by apply only_prints_quiet.
Qed.

Lemma only_writes_print Wa Wn l : only_writes Wa Wn (print l).
Proof. by apply only_writes_pure. Qed.

Lemma only_prints_print l : only_prints (print l).
Proof. intros s. simpl. by apply prefix_app_r. Qed.

(** What [os.listdir] returns: entry names, among them every entry of
    the directory. *)
Lemma run_listdir d s :
  fs s !! d = Some Dir →
  ∃ names, os.listdir d s = Returned names s
           ∧ Forall entry_name names
           ∧ (normal_path d → ∀ n, entry_name n →
              is_Some (fs s !! (d +:+ "/" +:+ n)) → n ∈ names).
Proof.
  intros Hd. unfold os.listdir. rewrite run_bind. simpl. rewrite Hd.
  eexists. split; [done|]. split.
  - apply Forall_forall. intros n (k & _ & Hk)%list_elem_of_omap.
    pose proof (split_tail_no_sep k) as Ht.
    destruct (posixpath.split k) as [head tail]. simpl in Ht.
    destruct (String.eqb_spec tail "") as [|Hne];
      [by rewrite andb_false_r in Hk|].
    destruct (String.eqb head d); simpl in Hk; [|done].
    injection Hk as <-. done.
  - intros Hn n [Hn1 Hn2] [v Hv]. apply list_elem_of_omap.
    exists (d +:+ "/" +:+ n). split.
    + apply list_elem_of_fmap. exists (d +:+ "/" +:+ n, v). split; [done|].
      by apply elem_of_map_to_list.
    + rewrite split_join by done. rewrite String.eqb_refl.
      by destruct (String.eqb_spec n "").
Qed.

(** * One file of the batch *)

Lemma only_writes_keeps {A} (Wa Wn : string → Prop) (m : M A) s p :
  only_writes Wa Wn m → ¬ Wa p → is_Some (fs s !! p) →
  fs (final (m s)) !! p = fs s !! p.
Proof.
  intros Hm Ha [v Hv]. destruct (Hm s p) as [?|[[? _]|[_ ?]]]; [done..|].
  congruence.
Qed.

Lemma only_writes_outside {A} (Wa Wn : string → Prop) (m : M A) s p :
  only_writes Wa Wn m → ¬ Wa p → ¬ Wn p →
  fs (final (m s)) !! p = fs s !! p.
Proof. intros Hm Ha Hn. by destruct (Hm s p) as [?|[[? _]|[? _]]]. Qed.

Lemma only_writes_not_dir {A} (Wa Wn : string → Prop) (m : M A) s p :
  only_writes Wa Wn m → ¬ Wn p → fs s !! p ≠ Some Dir →
  fs (final (m s)) !! p ≠ Some Dir.
Proof.
  intros Hm Hn Hp. destruct (Hm s p) as [->|[[_ [c ->]]|[? _]]]; done.
Qed.

Lemma stdout_copy2 src dst s :
  stdout (final (shutil.copy2 src dst s)) = stdout s.
Proof.
  unfold shutil.copy2. rewrite run_bind. simpl.
  generalize (match fs s !! dst with
              | Some Dir => posixpath.join dst (posixpath.split src).2
              | _ => dst
              end).
  intros dst'. destruct (fs s !! src) as [[|c0]|]; [done| |done].
  destruct (fs s !! dst') as [[|c1]|]; [done|..]; rewrite run_bind;
    by destruct (run_check_parent dst' s) as [[-> _]|(e & -> & _)].
Qed.

Section file.
Context (d : string) (backup : bool) (n : string).
Hypothesis Hd : normal_path d.
Hypothesis Hn : entry_name n.

(** The backup copy is made unless there is one, and nothing else changes. *)
Lemma run_backup_file s c :
  (backup = true → fs s !! posixpath.join d "backup_original" = Some Dir) →
  fs s !! posixpath.join d n = Some (File c) →
  ∃ s0,
    backup_file backup (posixpath.join d "backup_original")
      (posixpath.join d n) n s = Returned tt s0
    ∧ (∀ p, p ≠ backup_path d n → fs s0 !! p = fs s !! p)
    ∧ (is_Some (fs s !! backup_path d n) → fs s0 = fs s)
    ∧ (backup = true → is_Some (fs s0 !! backup_path d n))
    ∧ stdout s `prefix_of` stdout s0.
Proof.
  intros Hb Hi. unfold backup_file. destruct backup; [|by exists s].
  specialize (Hb eq_refl).
  rewrite run_bind, run_exists. fold (backup_path d n).
  destruct (fs s !! backup_path d n) as [v|] eqn:E.
  { rewrite bool_decide_eq_true_2 by eauto. simpl. exists s.
    rewrite E. by eauto. }
  rewrite bool_decide_eq_false_2 by (by intros [? ?]). simpl.
  rewrite run_bind. unfold shutil.copy2. rewrite run_bind. simpl.
  rewrite E, Hi. simpl. rewrite E. rewrite run_bind, run_check_parent_ready.
  2:{ rewrite backup_path_eq by done. apply parent_ready_in; [|apply Hn|].
      - apply normal_join, entry_backup_original.
      - by rewrite <-(join_normal d) by (done || apply entry_backup_original). }
  simpl. eexists. split; [done|]. simpl. split_and!.
  - intros p Hp. by rewrite lookup_insert_ne.
  - by intros [? ?].
  - intros _. rewrite lookup_insert_eq. eauto.
  - by apply prefix_app_r.
Qed.

Lemma only_writes_backup_file Wa input_path :
  only_writes Wa (λ p, p = backup_path d n)
    (backup_file backup (posixpath.join d "backup_original") input_path n).
Proof.
  intros s p. unfold backup_file. destruct backup; [|by left].
  rewrite run_bind, run_exists. fold (backup_path d n).
  destruct (fs s !! backup_path d n) as [v|] eqn:E.
  { rewrite bool_decide_eq_true_2 by eauto. by left. }
  rewrite bool_decide_eq_false_2 by (by intros [? ?]). simpl.
  rewrite run_bind. unfold shutil.copy2. rewrite run_bind. simpl.
  rewrite E. destruct (fs s !! input_path) as [[|c]|]; [by left| |by left].
  simpl. rewrite E. rewrite run_bind.
  destruct (run_check_parent (backup_path d n) s) as [[-> _]|(e & -> & _)];
    [|by left].
  simpl. destruct (decide (p = backup_path d n)) as [->|Hne].
  - right; right. done.
  - left. by rewrite lookup_insert_ne.
Qed.

Lemma only_prints_backup_file input_path :
  only_prints
    (backup_file backup (posixpath.join d "backup_original") input_path n).
Proof.
  unfold backup_file. destruct backup; [|by apply only_prints_quiet].
  apply only_prints_bind; [by apply only_prints_quiet|]. intros present.
  destruct present; [by apply only_prints_quiet|]. simpl.
  apply only_prints_bind; [|intros _; apply only_prints_print].
  apply only_prints_quiet. intros s. apply stdout_copy2.
Qed.

Lemma process_file_eq s c :
  fs s !! posixpath.join d n = Some (File c) → recognized n →
  batch_step d backup n s
  = (backup_file backup (posixpath.join d "backup_original")
       (posixpath.join d n) n ;;
     resize_image (posixpath.join d n) (preview_path d n) preview_size 85 true ;;
     resize_image (posixpath.join d n) (slider_path d n) slider_size 85 true) s.
Proof.
  intros Hi Hr. unfold batch_step, process_file.
  rewrite run_bind, run_isfile, Hi. simpl.
  by rewrite bool_decide_eq_true_2.
Qed.

Lemma only_writes_process_file :
  only_writes
    (λ p, recognized n ∧ (p = preview_path d n ∨ p = slider_path d n))
    (λ p, p = backup_path d n) (batch_step d backup n).
Proof.
  unfold batch_step, process_file.
  apply only_writes_bind; [by apply only_writes_pure|]. intros is_file.
  destruct is_file; [|by apply only_writes_pure]. simpl.
  destruct (bool_decide_reflect
              (Str.lower (snd (posixpath.splitext n)) ∈ image_extensions))
    as [Hr|Hr]; [|by apply only_writes_pure]. simpl.
  apply only_writes_bind; [apply only_writes_backup_file|]. intros _.
  apply only_writes_bind; [|intros _];
    (eapply only_writes_weaken; [| |apply only_writes_resize_image]);
    simpl; intros p; try done; intros ->; auto.
Qed.

Lemma only_prints_process_file : only_prints (batch_step d backup n).
Proof.
  unfold batch_step, process_file.
  apply only_prints_bind; [by apply only_prints_quiet|]. intros is_file.
  destruct is_file; [|by apply only_prints_quiet]. simpl.
  destruct (bool_decide _); [|by apply only_prints_quiet]. simpl.
  apply only_prints_bind; [apply only_prints_backup_file|]. intros _.
  apply only_prints_bind; [|intros _]; apply only_prints_resize_image.
Qed.

Lemma join_dir sub : entry_name sub →
  posixpath.join d sub = d +:+ "/" +:+ sub.
Proof. intros Hs. apply join_normal; [done|apply Hs]. Qed.

Lemma preview_path_eq : recognized n →
  preview_path d n
  = (d +:+ "/" +:+ "preview") +:+ "/"
    +:+ (fst (posixpath.splitext n) +:+ "_preview" +:+ snd (posixpath.splitext n)).
Proof.
  intros Hr. by apply derivative_path_eq; [|apply entry_preview|..].
Qed.

Lemma slider_path_eq : recognized n →
  slider_path d n
  = (d +:+ "/" +:+ "slider") +:+ "/"
    +:+ (fst (posixpath.splitext n) +:+ "_slider" +:+ snd (posixpath.splitext n)).
Proof.
  intros Hr. by apply derivative_path_eq; [|apply entry_slider|..].
Qed.

(** A path directly in the portfolio directory is none of the paths the
    step writes. *)
Lemma process_file_spares_entries x p :
  entry_name x → p = d +:+ "/" +:+ x →
  ¬ (recognized n ∧ (p = preview_path d n ∨ p = slider_path d n))
  ∧ p ≠ backup_path d n.
Proof.
  intros Hx ->. split.
  - intros [Hr [H|H]];
      [rewrite preview_path_eq in H by done
      |rewrite slider_path_eq in H by done];
      (eapply below_ne in H; [done..| |]);
      first [apply entry_preview | apply entry_slider
            | by destruct (splitext_recognized n "_preview" Hn Hr eq_refl)
                as (_ & [_ ?] & _)
            | by destruct (splitext_recognized n "_slider" Hn Hr eq_refl)
                as (_ & [_ ?] & _) ].
  - rewrite backup_path_eq by done. intros H.
    eapply below_ne in H; [done..|apply entry_backup_original|apply Hn].
Qed.

Lemma process_file_keeps_entry s x :
  entry_name x → is_Some (fs s !! (d +:+ "/" +:+ x)) →
  fs (final (batch_step d backup n s)) !! (d +:+ "/" +:+ x) = fs s !! (d +:+ "/" +:+ x).
Proof.
  intros Hx Hp. eapply only_writes_keeps; [apply only_writes_process_file| |done].
  by eapply process_file_spares_entries.
Qed.

Lemma process_file_keeps_ready s :
  directories_ready (fs s) d backup →
  directories_ready (fs (final (batch_step d backup n s))) d backup.
Proof.
  intros (Hb & Hp & Hs). unfold directories_ready.
  rewrite !join_dir in *
    by first [apply entry_backup_original|apply entry_preview|apply entry_slider].
  split_and!; [intros Hk; specialize (Hb Hk)|..];
    (rewrite process_file_keeps_entry; [done| |by eauto]);
    first [apply entry_backup_original|apply entry_preview|apply entry_slider].
Qed.

Lemma process_file_returns s :
  directories_ready (fs s) d backup → ∃ s', batch_step d backup n s = Returned tt s'.
Proof.
  intros (Hb & Hp & Hs). unfold batch_step, process_file.
  rewrite run_bind, run_isfile.
  destruct (fs s !! posixpath.join d n) as [[|c]|] eqn:Hi; simpl; eauto.
  destruct (bool_decide _); simpl; eauto.
  destruct (run_backup_file s c Hb Hi) as (s0 & E0 & _).
  rewrite (bind_returned _ _ _ _ _ E0).
  destruct (resize_image_returns (posixpath.join d n)
              (posixpath.join (posixpath.join d "preview")
                 (fst (posixpath.splitext n) +:+ "_preview"
                    +:+ snd (posixpath.splitext n)))
              preview_size 85 true s0) as [s1 E1].
  rewrite (bind_returned _ _ _ _ _ E1). apply resize_image_returns.
Qed.

Hypothesis Hr : recognized n.

Lemma derived_name_entry suf : Str.rfind posixpath.sep suf = -1 →
  Str.rfind posixpath.sep
    (fst (posixpath.splitext n) +:+ suf +:+ snd (posixpath.splitext n)) = -1.
Proof.
  intros Hsuf. by destruct (splitext_recognized n suf Hn Hr Hsuf) as (_ & [_ ?] & _).
Qed.

Lemma preview_ne_backup : preview_path d n ≠ backup_path d n.
Proof.
  rewrite preview_path_eq, backup_path_eq by done. intros H.
  apply below_inj in H as [? _];
    [done|done|apply entry_preview|apply entry_backup_original
    |by apply derived_name_entry|apply Hn].
Qed.

Lemma slider_ne_backup : slider_path d n ≠ backup_path d n.
Proof.
  rewrite slider_path_eq, backup_path_eq by done. intros H.
  apply below_inj in H as [? _];
    [done|done|apply entry_slider|apply entry_backup_original
    |by apply derived_name_entry|apply Hn].
Qed.

Lemma slider_ne_preview : slider_path d n ≠ preview_path d n.
Proof.
  rewrite slider_path_eq, preview_path_eq by done. intros H.
  apply below_inj in H as [? _];
    [done|done|apply entry_slider|apply entry_preview
    |by apply derived_name_entry..].
Qed.

Lemma entry_ne_paths x : entry_name x →
  posixpath.join d x ≠ preview_path d n
  ∧ posixpath.join d x ≠ slider_path d n
  ∧ posixpath.join d x ≠ backup_path d n.
Proof.
  intros Hx. rewrite join_dir by done.
  destruct (process_file_spares_entries x _ Hx eq_refl) as [H1 H2].
  split_and!; [| |done]; intros H; apply H1; auto.
Qed.

Lemma parent_ready_preview (f : gmap string node) :
  f !! posixpath.join d "preview" = Some Dir →
  parent_ready f (preview_path d n).
Proof.
  intros H. rewrite preview_path_eq by done.
  apply parent_ready_in;
    [apply normal_join, entry_preview|by apply derived_name_entry|].
  by rewrite <-join_dir by apply entry_preview.
Qed.

Lemma parent_ready_slider (f : gmap string node) :
  f !! posixpath.join d "slider" = Some Dir →
  parent_ready f (slider_path d n).
Proof.
  intros H. rewrite slider_path_eq by done.
  apply parent_ready_in;
    [apply normal_join, entry_slider|by apply derived_name_entry|].
  by rewrite <-join_dir by apply entry_slider.
Qed.

(** Both derivatives of a file that can be derived are written, whatever
    was at their paths. *)
Lemma process_file_derives s preview_img slider_img :
  directories_ready (fs s) d backup →
  derivable (fs s) (posixpath.join d n) (preview_path d n) preview_size 85
    preview_img →
  derivable (fs s) (posixpath.join d n) (slider_path d n) slider_size 85
    slider_img →
  ∃ s', batch_step d backup n s = Returned tt s'
    ∧ fs s' !! preview_path d n
      = Some (derivative (preview_path d n) 85 preview_img)
    ∧ fs s' !! slider_path d n
      = Some (derivative (slider_path d n) 85 slider_img)
    ∧ Resized (posixpath.join d n) preview_size (preview_path d n) ∈ stdout s'
    ∧ Resized (posixpath.join d n) slider_size (slider_path d n) ∈ stdout s'.
Proof.
  intros (Hb & Hp & Hs) (fmt & q & img & Hi & Hc1 & Hh1 & Hd1)
    (fmt' & q' & img' & Hi' & Hc2 & Hh2 & Hd2).
  rewrite Hi in Hi'. injection Hi' as <- <- <-.
  destruct (entry_ne_paths n Hn) as (Ni1 & Ni2 & Ni3).
  destruct (entry_ne_paths "preview" entry_preview) as (Np1 & Np2 & Np3).
  destruct (entry_ne_paths "slider" entry_slider) as (Ns1 & Ns2 & Ns3).
  rewrite (process_file_eq s _ Hi Hr).
  destruct (run_backup_file s _ Hb Hi) as (s0 & E0 & F0 & _ & _ & P0).
  rewrite (bind_returned _ _ _ _ _ E0).
  assert (derivable (fs s0) (posixpath.join d n) (preview_path d n)
            preview_size 85 preview_img) as D1.
  { exists fmt, q, img. rewrite !F0 by (done || apply preview_ne_backup). done. }
  rewrite (bind_returned _ _ _ _ _
             (resize_image_ok _ _ _ _ _ _ D1
                (parent_ready_preview _ ltac:(by rewrite F0)))).
  set (s1 := State _ _).
  assert (derivable (fs s1) (posixpath.join d n) (slider_path d n)
            slider_size 85 slider_img) as D2.
  { exists fmt, q, img. simpl.
    rewrite !lookup_insert_ne by (done || by apply not_eq_sym, slider_ne_preview).
    rewrite !F0 by (done || apply slider_ne_backup). done. }
  assert (parent_ready (fs s1) (slider_path d n)) as R2.
  { apply parent_ready_slider. simpl.
    rewrite lookup_insert_ne by (by apply not_eq_sym).
    by rewrite F0. }
  rewrite (resize_image_ok _ _ _ _ _ _ D2 R2).
  eexists. split; [done|]. simpl. split_and!.
  - rewrite lookup_insert_ne by apply slider_ne_preview.
    by rewrite lookup_insert_eq.
  - by rewrite lookup_insert_eq.
  - apply elem_of_app. left. apply elem_of_app. right. by left.
  - apply elem_of_app. right. by left.
Qed.


(** The preview is written when it can be derived, whatever happens to
    the slider. *)
Lemma process_file_preview s preview_img :
  directories_ready (fs s) d backup →
  derivable (fs s) (posixpath.join d n) (preview_path d n) preview_size 85
    preview_img →
  ∃ s', batch_step d backup n s = Returned tt s'
    ∧ fs s' !! preview_path d n
      = Some (derivative (preview_path d n) 85 preview_img).
Proof.
  intros (Hb & Hp & Hs) (fmt & q & img & Hi & Hc1 & Hh1 & Hd1).
  destruct (entry_ne_paths n Hn) as (Ni1 & Ni2 & Ni3).
  destruct (entry_ne_paths "preview" entry_preview) as (Np1 & Np2 & Np3).
  rewrite (process_file_eq s _ Hi Hr).
  destruct (run_backup_file s _ Hb Hi) as (s0 & E0 & F0 & _ & _ & P0).
  rewrite (bind_returned _ _ _ _ _ E0).
  assert (derivable (fs s0) (posixpath.join d n) (preview_path d n)
            preview_size 85 preview_img) as D1.
  { exists fmt, q, img. rewrite !F0 by (done || apply preview_ne_backup). done. }
  rewrite (bind_returned _ _ _ _ _
             (resize_image_ok _ _ _ _ _ _ D1
                (parent_ready_preview _ ltac:(by rewrite F0)))).
  set (s1 := State _ _).
  destruct (resize_image_returns (posixpath.join d n) (slider_path d n)
              slider_size 85 true s1) as [s2 E2].
  exists s2. split; [done|].
  assert (s2 = final (resize_image (posixpath.join d n) (slider_path d n)
                        slider_size 85 true s1)) as -> by (by rewrite E2).
  rewrite (only_writes_outside (λ p, p = slider_path d n) (λ _, False));
    [|apply only_writes_resize_image
     |by apply not_eq_sym, slider_ne_preview|by auto].
  simpl. by rewrite lookup_insert_eq.
Qed.


End file.

(** * The batch *)

Ltac entry_tac :=
  first [ apply entry_backup_original | apply entry_preview
        | apply entry_slider | by apply derived_name_entry
        | match goal with H : entry_name ?n |- Str.rfind _ ?n = -1 => apply H end
        | done ].

Section batch.
Context (d : string) (backup : bool).
Hypothesis Hd : normal_path d.

(** The paths two files are written to differ. *)
Lemma paths_of_other_file n m :
  entry_name n → recognized n → entry_name m → n ≠ m →
  ¬ (recognized m ∧ (preview_path d n = preview_path d m
                      ∨ preview_path d n = slider_path d m))
  ∧ ¬ (recognized m ∧ (slider_path d n = preview_path d m
                        ∨ slider_path d n = slider_path d m)).
Proof.
  intros Hn Rn Hm Hne. split; intros [Rm [H|H]];
    rewrite ?preview_path_eq, ?slider_path_eq in H by done;
    (apply below_inj in H as [Hs Hx]; [|entry_tac..]);
    try done; by apply derivative_name_inj in Hx.
Qed.

Lemma derivative_ne_backup n m :
  entry_name n → recognized n → entry_name m →
  preview_path d n ≠ backup_path d m ∧ slider_path d n ≠ backup_path d m.
Proof.
  intros Hn Rn Hm. split; intros H;
    rewrite ?preview_path_eq, ?slider_path_eq, backup_path_eq in H by done;
    (apply below_inj in H as [Hs Hx]; [done|entry_tac..]).
Qed.

Lemma backup_ne_derivative n m :
  entry_name n → entry_name m →
  ¬ (recognized m ∧ (backup_path d n = preview_path d m
                      ∨ backup_path d n = slider_path d m)).
Proof.
  intros Hn Hm [Rm [H|H]];
    by destruct (derivative_ne_backup m n Hm Rm Hn).
Qed.

(** Creating or reusing one output directory. *)
Lemma run_makedirs_creatable sub s :
  entry_name sub → fs s !! d = Some Dir →
  creatable (fs s) (posixpath.join d sub) →
  ∃ s', os.makedirs (posixpath.join d sub) true s = Returned tt s'
    ∧ fs s' !! posixpath.join d sub = Some Dir
    ∧ (∀ p, p ≠ posixpath.join d sub → fs s' !! p = fs s !! p)
    ∧ (∀ p, is_Some (fs s !! p) → fs s' !! p = fs s !! p)
    ∧ stdout s' = stdout s.
Proof.
  intros Hs Hf Hc. rewrite join_dir in * by done.
  rewrite run_makedirs by done. destruct Hc as [Hc|Hc]; rewrite Hc.
  - eexists. split; [done|]. simpl. split_and!; [|  |  |done].
    + by rewrite lookup_insert_eq.
    + intros p Hp. by rewrite lookup_insert_ne.
    + intros p [v Hv]. rewrite lookup_insert_ne; [done|]. congruence.
  - by exists s.
Qed.

(** The directories are set up and the entries listed; what is left of
    the batch is the loop. *)
Lemma run_setup s :
  fs s !! d = Some Dir →
  (backup = true → creatable (fs s) (posixpath.join d "backup_original")) →
  creatable (fs s) (posixpath.join d "preview") →
  creatable (fs s) (posixpath.join d "slider") →
  ∃ s1 names,
    process_portfolio_images d backup s = for_each names (batch_step d backup) s1
    ∧ directories_ready (fs s1) d backup
    ∧ Forall entry_name names
    ∧ (∀ n, entry_name n → is_Some (fs s !! posixpath.join d n) → n ∈ names)
    ∧ (∀ p, is_Some (fs s !! p) → fs s1 !! p = fs s !! p)
    ∧ (∀ p, p ≠ posixpath.join d "backup_original" →
            p ≠ posixpath.join d "preview" → p ≠ posixpath.join d "slider" →
            fs s1 !! p = fs s !! p)
    ∧ stdout s `prefix_of` stdout s1.
Proof.
  intros Hf Hcb Hcp Hcs. unfold process_portfolio_images.
  assert (∃ s0, (if backup
                 then os.makedirs (posixpath.join d "backup_original") true ;;
                      print (BackupDirectoryCreated
                               (posixpath.join d "backup_original"))
                 else ret tt) s = Returned tt s0
            ∧ (backup = true →
               fs s0 !! posixpath.join d "backup_original" = Some Dir)
            ∧ (∀ p, p ≠ posixpath.join d "backup_original" →
                    fs s0 !! p = fs s !! p)
            ∧ (∀ p, is_Some (fs s !! p) → fs s0 !! p = fs s !! p)
            ∧ stdout s `prefix_of` stdout s0) as (s0 & E0 & B0 & F0 & K0 & P0).
  { destruct backup; [|by exists s].
    destruct (run_makedirs_creatable "backup_original" s
                entry_backup_original Hf (Hcb eq_refl))
      as (s' & E & Hb & Hfr & Hk & Ho).
    rewrite (bind_returned _ _ _ _ _ E). eexists. split; [done|]. simpl.
    split_and!; [done..|]. rewrite Ho. by apply prefix_app_r. }
  rewrite (bind_returned _ _ _ _ _ E0).
  assert (posixpath.join d "preview" ≠ posixpath.join d "backup_original"
          ∧ posixpath.join d "slider" ≠ posixpath.join d "backup_original"
          ∧ posixpath.join d "slider" ≠ posixpath.join d "preview")
    as (N1 & N2 & N3).
  { rewrite !join_dir by entry_tac.
    split_and!; intros H; by apply (inj (String.app d)) in H. }
  destruct (run_makedirs_creatable "preview" s0 entry_preview) as
    (s1 & E1 & B1 & F1 & K1 & O1).
  { by rewrite K0. } { unfold creatable. by rewrite F0. }
  rewrite (bind_returned _ _ _ _ _ E1).
  destruct (run_makedirs_creatable "slider" s1 entry_slider) as
    (s2 & E2 & B2 & F2 & K2 & O2).
  { rewrite K1; [by rewrite K0|]. rewrite K0; eauto. }
  { unfold creatable. rewrite F1, F0 by done. done. }
  rewrite (bind_returned _ _ _ _ _ E2).
  rewrite run_bind. simpl. rewrite run_bind. simpl.
  assert (∀ p, is_Some (fs s !! p) → fs s2 !! p = fs s !! p) as K.
  { intros p Hp. rewrite K2, K1, K0; try done.
    - by rewrite K0.
    - rewrite K1; by rewrite K0. }
  destruct (run_listdir d
              (State (fs s2)
                 ((stdout s2 ++ [PreviewDirectory (posixpath.join d "preview")])
                  ++ [SliderDirectory (posixpath.join d "slider")])))
    as (names & EL & Hnames & Hall).
  { simpl. rewrite K; eauto. }
  rewrite (bind_returned _ _ _ _ _ EL).
  eexists _, names. split; [done|]. simpl. split_and!.
  - split_and!; [|by rewrite F2|done].
    intros Hb. rewrite F2, F1 by done. by apply B0.
  - done.
  - intros n Hn Hp. apply (Hall Hd n Hn). simpl.
    rewrite <-join_dir by done. by rewrite K.
  - done.
  - intros p H1 H2 H3. by rewrite F2, F1, F0.
  - rewrite O2, O1. etrans; [done|].
    etrans; [|apply prefix_app_r; done]. by apply prefix_app_r.
Qed.

Lemma derivable_transfer (f f' : gmap string node) input_path output_path
    target_size quality final_img :
  f' !! input_path = f !! input_path →
  (f !! output_path ≠ Some Dir → f' !! output_path ≠ Some Dir) →
  derivable f input_path output_path target_size quality final_img →
  derivable f' input_path output_path target_size quality final_img.
Proof.
  intros Hi Ho (fmt & q & img & ? & ? & ? & ?). exists fmt, q, img.
  rewrite Hi. auto.
Qed.

(** One step of the loop keeps what the derivation of another file needs. *)
Lemma step_keeps_derivable x s s' good suf sub target_size final_img :
  entry_name x → entry_name good → recognized good →
  (sub = "preview" ∧ suf = "_preview" ∨ sub = "slider" ∧ suf = "_slider") →
  batch_step d backup x s = Returned tt s' →
  derivable (fs s) (posixpath.join d good)
    (derivative_path d sub suf good) target_size 85 final_img →
  derivable (fs s') (posixpath.join d good)
    (derivative_path d sub suf good) target_size 85 final_img.
Proof.
  intros Hx Hg Rg Hsub E HD.
  assert (s' = final (batch_step d backup x s)) as -> by (by rewrite E).
  eapply derivable_transfer; [| |done].
  - rewrite (join_dir d Hd good Hg).
    apply process_file_keeps_entry; [done..|].
    destruct HD as (? & ? & ? & HD & _).
    rewrite (join_dir d Hd good Hg) in HD. by rewrite HD.
  - eapply only_writes_not_dir; [by apply only_writes_process_file|].
    destruct (derivative_ne_backup good x Hg Rg Hx) as [H1 H2].
    by destruct Hsub as [[-> ->]|[-> ->]].
Qed.

Lemma setup_keeps_derivable s s1 good suf sub target_size final_img :
  entry_name good → recognized good →
  (sub = "preview" ∧ suf = "_preview" ∨ sub = "slider" ∧ suf = "_slider") →
  (∀ p, is_Some (fs s !! p) → fs s1 !! p = fs s !! p) →
  (∀ p, p ≠ posixpath.join d "backup_original" →
        p ≠ posixpath.join d "preview" → p ≠ posixpath.join d "slider" →
        fs s1 !! p = fs s !! p) →
  derivable (fs s) (posixpath.join d good)
    (derivative_path d sub suf good) target_size 85 final_img →
  derivable (fs s1) (posixpath.join d good)
    (derivative_path d sub suf good) target_size 85 final_img.
Proof.
  intros Hg Rg Hsub K F HD. eapply derivable_transfer; [| |done].
  - apply K. destruct HD as (? & ? & ? & -> & _). eauto.
  - assert (∀ x, entry_name x →
              derivative_path d sub suf good ≠ posixpath.join d x) as Hne.
    { intros x Hx.
      destruct (entry_ne_paths d good Hd Hg Rg x Hx) as (H1 & H2 & _).
      by destruct Hsub as [[-> ->]|[-> ->]]; apply not_eq_sym. }
    rewrite F; [done|apply Hne; entry_tac..].
Qed.

(** What the batch does for one file that can be derived, whatever the
    other entries of the directory are. *)
Lemma batch_derives s good preview_img slider_img :
  fs s !! d = Some Dir →
  (backup = true → creatable (fs s) (posixpath.join d "backup_original")) →
  creatable (fs s) (posixpath.join d "preview") →
  creatable (fs s) (posixpath.join d "slider") →
  entry_name good → recognized good →
  derivable (fs s) (posixpath.join d good) (preview_path d good)
    preview_size 85 preview_img →
  derivable (fs s) (posixpath.join d good) (slider_path d good)
    slider_size 85 slider_img →
  ∃ s', process_portfolio_images d backup s = Returned tt s'
    ∧ fs s' !! preview_path d good
      = Some (derivative (preview_path d good) 85 preview_img)
    ∧ fs s' !! slider_path d good
      = Some (derivative (slider_path d good) 85 slider_img)
    ∧ Resized (posixpath.join d good) preview_size (preview_path d good)
      ∈ stdout s'
    ∧ Resized (posixpath.join d good) slider_size (slider_path d good)
      ∈ stdout s'.
Proof.
  intros Hf Hcb Hcp Hcs Hg Rg D1 D2.
  destruct (run_setup s Hf Hcb Hcp Hcs)
    as (s1 & names & -> & Hready & Hnames & Hin & K & F & _).
  rewrite Forall_forall in Hnames.
  set (I st := directories_ready (fs st) d backup
               ∧ derivable (fs st) (posixpath.join d good)
                   (preview_path d good) preview_size 85 preview_img
               ∧ derivable (fs st) (posixpath.join d good)
                   (slider_path d good) slider_size 85 slider_img).
  set (Q st := fs st !! preview_path d good
               = Some (derivative (preview_path d good) 85 preview_img)
             ∧ fs st !! slider_path d good
               = Some (derivative (slider_path d good) 85 slider_img)
             ∧ Resized (posixpath.join d good) preview_size
                 (preview_path d good) ∈ stdout st
             ∧ Resized (posixpath.join d good) slider_size
                 (slider_path d good) ∈ stdout st).
  assert (I s1) as HI.
  { split_and!; [done|..].
    + by apply (setup_keeps_derivable s s1 good "_preview" "preview"); auto.
    + by apply (setup_keeps_derivable s s1 good "_slider" "slider"); auto. }
  assert (good ∈ names) as Hgood.
  { apply Hin; [done|]. destruct D1 as (? & ? & ? & -> & _). eauto. }
  destruct (for_each_establish I Q names (batch_step d backup) good) with (s := s1)
    as (s' & E & _ & HQ); [|done|done|by exists s'].
  - intros x st Hx (Ir & I1 & I2). pose proof (Hnames x Hx) as Ex.
    destruct (process_file_returns d backup x Hd Ex st Ir) as [st' E].
    exists st'. split; [done|].
    assert (st' = final (batch_step d backup x st)) as Est by (by rewrite E).
    split_and!.
    + split_and!.
      * rewrite Est. by apply process_file_keeps_ready.
      * eapply (step_keeps_derivable x st st' good "_preview" "preview");
          by eauto.
      * eapply (step_keeps_derivable x st st' good "_slider" "slider");
          by eauto.
    + intros ->.
      destruct (process_file_derives d backup good Hd Hg Rg st
                  preview_img slider_img Ir I1 I2) as (st2 & E2 & HQ2).
      assert (st2 = st') as -> by congruence. exact HQ2.
    + intros (Q1 & Q2 & Q3 & Q4). destruct (decide (x = good)) as [->|Hne].
      { destruct (process_file_derives d backup good Hd Hg Rg st
                    preview_img slider_img Ir I1 I2) as (st2 & E2 & HQ2).
        assert (st2 = st') as -> by congruence. exact HQ2. }
      destruct (paths_of_other_file good x Hg Rg Ex (not_eq_sym Hne))
        as [P1 P2].
      pose proof (only_prints_process_file d backup x st) as Hp.
      rewrite <-Est in Hp.
      subst st'. split_and!.
      * rewrite <-Q1. eapply only_writes_keeps;
          [by apply only_writes_process_file|done|by rewrite Q1].
      * rewrite <-Q2. eapply only_writes_keeps;
          [by apply only_writes_process_file|done|by rewrite Q2].
      * destruct Hp as [l ->]. apply elem_of_app. by left.
      * destruct Hp as [l ->]. apply elem_of_app. by left.
Qed.


(** With its directories in place, the batch returns. *)
Lemma batch_returns s :
  fs s !! d = Some Dir →
  (backup = true → creatable (fs s) (posixpath.join d "backup_original")) →
  creatable (fs s) (posixpath.join d "preview") →
  creatable (fs s) (posixpath.join d "slider") →
  ∃ s', process_portfolio_images d backup s = Returned tt s'.
Proof.
  intros Hf Hcb Hcp Hcs.
  destruct (run_setup s Hf Hcb Hcp Hcs)
    as (s1 & names & -> & Hready & Hnames & _).
  rewrite Forall_forall in Hnames.
  destruct (for_each_invariant (λ st, directories_ready (fs st) d backup)
              names (batch_step d backup)) with (s := s1) as (s' & E & _); [|done|by exists s'].
  intros x st Hx Ir.
  destruct (process_file_returns d backup x Hd (Hnames x Hx) st Ir) as [st' E].
  exists st'. split; [exact E|].
  assert (st' = final (batch_step d backup x st)) as -> by (by rewrite E).
  apply process_file_keeps_ready; auto.
Qed.

(** All the batch writes: derivatives of recognized entries, and entries
    that were absent. *)
Lemma only_writes_batch :
  only_writes
    (λ p, ∃ n, entry_name n ∧ recognized n
               ∧ (p = preview_path d n ∨ p = slider_path d n))
    (λ _, True) (process_portfolio_images d backup).
Proof.
  unfold process_portfolio_images.
  apply only_writes_bind.
  { destruct backup; [|by apply only_writes_pure].
    apply only_writes_bind; [apply only_writes_makedirs_rec|].
    intros _. apply only_writes_print. }
  intros _. apply only_writes_bind; [apply only_writes_makedirs_rec|].
  intros _. apply only_writes_bind; [apply only_writes_makedirs_rec|].
  intros _. apply only_writes_bind; [apply only_writes_print|].
  intros _. apply only_writes_bind; [apply only_writes_print|].
  intros _ s p. rewrite run_bind.
  destruct (os.listdir d s) as [names s1|e s1] eqn:EL.
  - assert (s1 = s ∧ Forall entry_name names) as [-> Hnames].
    { unfold os.listdir in EL. rewrite run_bind in EL. simpl in EL.
      destruct (fs s !! d) as [[|c]|] eqn:Hf; [|done..].
      destruct (run_listdir d s Hf) as (names' & EL' & ? & _).
      unfold os.listdir in EL'. rewrite run_bind in EL'. simpl in EL'.
      rewrite Hf in EL'. split; congruence. }
    rewrite Forall_forall in Hnames.
    apply (only_writes_for_each
             (λ p, ∃ n, entry_name n ∧ recognized n
                        ∧ (p = preview_path d n ∨ p = slider_path d n))
             (λ _, True) names (batch_step d backup)). intros x Hx.
    eapply only_writes_weaken; [| |by apply only_writes_process_file];
      simpl; [|done].
    intros q [Hr Hq]. exists x. auto.
  - left. unfold os.listdir in EL. rewrite run_bind in EL. simpl in EL.
    destruct (fs s !! d) as [[|c]|]; [done|..]; by injection EL as <- <-.
Qed.

End batch.

(** * The properties of the specification *)

(** ** [resize_image] *)

(** C1, at images that have the aspect ratio of the target.  For a 9x7
    image and the target size (9, 7) the ratios are equal, so the code
    takes the second branch; there [9 / (9 / 7)] is 6.999999999999999 in
    binary64 and [int] truncates it to 6.  The image is resized to 9x6,
    one row short of the target height, and the box that is cut out,
    rows -1 to 6, starts one row above the resized image instead of
    cutting it down to the target height.  The same happens to a 220x200
    image and the target size (110, 100): [110 / 1.1] is
    99.99999999999999, the image is resized to 110x99 and the box is
    rows -1 to 99. *)
Theorem crop_to_fill_equal_ratio_falls_short :
  crop_to_fill (Image 9 7 "RGB" (Raster 0)) (9, 7)
  = inr (Image 9 7 "RGB" (Crop (0, -1, 9, 6) (Resize (9, 6) (Raster 0))))
  ∧ crop_to_fill (Image 220 200 "RGB" (Raster 3)) (110, 100)
    = inr (Image 110 100 "RGB"
             (Crop (0, -1, 110, 99) (Resize (110, 99) (Raster 3))))
  ∧ resize_image "thumb.png" "thumb_small.png" (110, 100) 85 true
      (State thumb_fs [])
    = Returned tt
        (State
           (<["thumb_small.png" :=
                File (Encoded "PNG" None
                        (Image 110 100 "RGB"
                           (Crop (0, -1, 110, 99)
                              (Resize (110, 99) (Raster 3)))))]> thumb_fs)
           [Resized "thumb.png" (110, 100) "thumb_small.png"]).
Proof. split_and!; vm_compute; reflexivity. Qed.

(** C2: whenever [resize_image] in crop mode reports that it wrote its
    output, the output file holds an image of exactly the target size,
    cut out of the resized image by a box of the target size whose margin
    on the right (at the bottom) exceeds the margin on the left (at the
    top) by zero or one. *)
Theorem resize_image_crop_exact_size input_path output_path tw th quality s s' :
  resize_image input_path output_path (tw, th) quality true s = Returned tt s' →
  stdout s' = (stdout s ++ [Resized input_path (tw, th) output_path])%list →
  ∃ final_img m src new_width new_height x0 y0 x1 y1,
    fs s' !! output_path = Some (derivative output_path quality final_img)
    ∧ width final_img = tw ∧ height final_img = th
    ∧ final_img
      = Image tw th m (Crop (x0, y0, x1, y1) (Resize (new_width, new_height) src))
    ∧ x1 - x0 = tw ∧ y1 - y0 = th
    ∧ 0 ≤ (new_width - x1) - x0 ≤ 1
    ∧ 0 ≤ (new_height - y1) - y0 ≤ 1.
Proof.
  intros E Hout.
  destruct (run_resize_image input_path output_path (tw, th) quality true s)
    as [(e & f' & E' & _)
       |(fmt & q & img & final_img & Hi & Hc & _ & _ & _ & E')];
    rewrite E' in E; injection E as <-; simpl in Hout.
  { by apply (inj (app (stdout s))) in Hout. }
  destruct (crop_to_fill_centered _ _ _ _ Hc)
    as (nw & nh & x0 & y0 & x1 & y1 & -> & ? & ? & ? & ?).
  exists (Image tw th (mode (to_rgb_if_necessary img))
            (Crop (x0, y0, x1, y1)
               (Resize (nw, nh) (data (to_rgb_if_necessary img))))),
    (mode (to_rgb_if_necessary img)), (data (to_rgb_if_necessary img)),
    nw, nh, x0, y0, x1, y1.
  simpl. rewrite lookup_insert_eq. split_and!; (done || lia).
Qed.

(** C7, as the code has it: an image of mode RGBA, LA or P is converted
    to RGB before it is resized and saved.  When [resize_image] reports
    that it wrote its output for such an input, the image in the file
    has the mode RGB and is made, by the resize and the crop or the
    paste, of the conversion to RGB of what the input holds. *)
Theorem resize_image_saved_mode input_path output_path tw th quality
    crop_mode s s' fmt q img :
  fs s !! input_path = Some (File (Encoded fmt q img)) →
  mode img ∈ ["RGBA"; "LA"; "P"] →
  resize_image input_path output_path (tw, th) quality crop_mode s
  = Returned tt s' →
  stdout s' = (stdout s ++ [Resized input_path (tw, th) output_path])%list →
  ∃ final_img size,
    fs s' !! output_path = Some (derivative output_path quality final_img)
    ∧ mode final_img = "RGB"
    ∧ (if crop_mode
       then ∃ box,
              data final_img
              = Crop box (Resize size (Convert "RGB" (data img)))
       else ∃ at_,
              data final_img
              = Paste (New "RGB" (tw, th) (255, 255, 255))
                  (Resize size (Convert "RGB" (data img))) at_).
Proof.
  intros Hi Hm E Hout.
  destruct (run_resize_image input_path output_path (tw, th) quality
              crop_mode s)
    as [(e & f' & E' & _)
       |(fmt' & q' & img' & final_img & Hi' & Hc & _ & _ & _ & E')];
    rewrite E' in E; injection E as <-; simpl in Hout.
  { by apply (inj (app (stdout s))) in Hout. }
  rewrite Hi in Hi'. injection Hi' as <- <- <-.
  rewrite (to_rgb_if_necessary_converts img Hm) in Hc.
  destruct crop_mode.
  - apply crop_to_fill_centered in Hc
      as (nw & nh & x0 & y0 & x1 & y1 & -> & _).
    eexists _, (nw, nh). simpl. rewrite lookup_insert_eq.
    split_and!; [done..|]. by eexists.
  - apply pad_to_fit_inv in Hc as (nw & nh & -> & _).
    eexists _, (nw, nh). simpl. rewrite lookup_insert_eq.
    split_and!; [done..|]. by eexists.
Qed.

(** C9, as the code has it: on a console that has the characters of
    the error line, [resize_image] returns, for every input and from
    every state, after printing one line: the success, or the
    exception that was raised in the [try] block, the one of the
    [print] of line 96 included; a missing input, an input no decoder
    accepts and an output path that is a directory are reported in
    this way. *)
Theorem resize_image_never_raises (c : console) input_path output_path
    target_size quality crop_mode s :
  (∀ e, c (ErrorProcessing input_path e) = true) →
  ∃ s',
    resize_image_on c input_path output_path target_size quality crop_mode s
    = Returned tt s'
    ∧ (stdout s' = (stdout s ++ [Resized input_path target_size output_path])%list
       ∨ ∃ e, is_Exception e = true
              ∧ stdout s' = (stdout s ++ [ErrorProcessing input_path e])%list)
    ∧ (fs s !! input_path = None →
       ∃ e, is_OSError e = true
            ∧ stdout s' = (stdout s ++ [ErrorProcessing input_path e])%list)
    ∧ (∀ b, fs s !! input_path = Some (File (Bytes b)) →
       stdout s' = (stdout s ++ [ErrorProcessing input_path UnidentifiedImageError])%list)
    ∧ (fs s !! output_path = Some Dir →
       ∃ e, stdout s' = (stdout s ++ [ErrorProcessing input_path e])%list).
Proof.
  intros Hc. unfold resize_image_on, try_except.
  rewrite resize_image_try_on_eq.
  destruct (run_resize_image_try input_path output_path target_size quality
              crop_mode s)
    as [(e & f' & E & He & _)
       |(fmt & q & img & final_img & Hi & _ & _ & Hd & _ & E)]; rewrite E.
  - rewrite He. unfold print_on. rewrite Hc.
    eexists. split; [done|]. simpl. split_and!.
    + right. by exists e.
    + intros Hi. unfold resize_image_try in E.
      rewrite run_bind in E. unfold PIL.open in E. rewrite run_bind in E.
      simpl in E. rewrite Hi in E. simpl in E. injection E as <- _.
      exists (os.missing (fs s) input_path). by rewrite missing_OSError.
    + intros b Hi. unfold resize_image_try in E.
      rewrite run_bind in E. unfold PIL.open in E. rewrite run_bind in E.
      simpl in E. rewrite Hi in E. simpl in E. by injection E as <- _.
    + intros _. by exists e.
  - destruct (c (Resized input_path target_size output_path)).
    + eexists. split; [done|]. simpl. split_and!; [by left|..].
      * intros Hn. by rewrite Hn in Hi.
      * intros b Hb. by rewrite Hb in Hi.
      * done.
    + cbn [is_Exception]. unfold print_on. rewrite Hc.
      eexists. split; [done|]. simpl. split_and!.
      * right. by exists UnicodeEncodeError.
      * intros Hn. by rewrite Hn in Hi.
      * intros b Hb. by rewrite Hb in Hi.
      * done.
Qed.

(** ** The batch driver *)


(** C5: a backup that is there is still there, unchanged, when the batch
    ends, however it ends; and the derivatives of a file that can be
    derived are written anew, whatever files were at their paths. *)
Theorem rerun_keeps_backups_rewrites_derivatives d s n v :
  normal_path d → entry_name n →
  fs s !! backup_path d n = Some v →
  fs (final (process_portfolio_images d true s)) !! backup_path d n = Some v
  ∧ ∀ preview_img slider_img,
      fs s !! d = Some Dir →
      creatable (fs s) (posixpath.join d "backup_original") →
      creatable (fs s) (posixpath.join d "preview") →
      creatable (fs s) (posixpath.join d "slider") →
      recognized n →
      derivable (fs s) (posixpath.join d n) (preview_path d n)
        preview_size 85 preview_img →
      derivable (fs s) (posixpath.join d n) (slider_path d n)
        slider_size 85 slider_img →
      fs (final (process_portfolio_images d true s)) !! preview_path d n
      = Some (derivative (preview_path d n) 85 preview_img)
      ∧ fs (final (process_portfolio_images d true s)) !! slider_path d n
        = Some (derivative (slider_path d n) 85 slider_img).
Proof.
  intros Hd Hn Hv. split.
  - rewrite <-Hv. eapply only_writes_keeps;
      [by apply only_writes_batch| |by rewrite Hv].
    simpl. intros (m & Hm & Rm & H).
    by apply (backup_ne_derivative d Hd n m Hn Hm).
  - intros preview_img slider_img Hf Hcb Hcp Hcs Rn D1 D2.
    destruct (batch_derives d true Hd s n preview_img slider_img
                Hf (λ _, Hcb) Hcp Hcs Hn Rn D1 D2) as (s' & -> & H1 & H2 & _).
    done.
Qed.

(** C8, at a valid image in the colours of print.  The poster is a
    CMYK image in a TIFF file, a recognized extension.  Its mode is not
    one of RGBA, LA and P, so the image is not converted; its
    extension is neither [.jpg] nor [.jpeg], so both derivatives go to
    the PNG writer, which has no CMYK: each call prints an [OSError]
    and removes the file it had opened.  The batch backs the poster up
    and returns, and neither the preview nor the slider exists. *)
Theorem cmyk_tiff_gets_no_derivative :
  recognized "poster.tiff"
  ∧ to_rgb_if_necessary poster = poster
  ∧ output_format (preview_path "portfolio" "poster.tiff") 85 = ("PNG", None)
  ∧ output_format (slider_path "portfolio" "poster.tiff") 85 = ("PNG", None)
  ∧ process_portfolio_images "portfolio" true (State poster_fs [])
    = Returned tt
        (State
           (<["portfolio/backup_original/poster.tiff" :=
                File (Encoded "TIFF" None poster)]>
              (<["portfolio/slider" := Dir]>
                 (<["portfolio/preview" := Dir]>
                    (<["portfolio/backup_original" := Dir]> poster_fs))))
           [BackupDirectoryCreated "portfolio/backup_original";
            PreviewDirectory "portfolio/preview";
            SliderDirectory "portfolio/slider";
            BackedUp "poster.tiff";
            ErrorProcessing "portfolio/poster.tiff" OSError;
            ErrorProcessing "portfolio/poster.tiff" OSError])
  ∧ fs (final (process_portfolio_images "portfolio" true (State poster_fs [])))
      !! "portfolio/preview/poster_preview.tiff" = None
  ∧ fs (final (process_portfolio_images "portfolio" true (State poster_fs [])))
      !! "portfolio/slider/poster_slider.tiff" = None.
Proof.
  split.
  { apply (bool_decide_unpack (recognized "poster.tiff")). vm_compute. exact I. }
  split_and!; vm_compute; reflexivity.
Qed.


(** ** The command line *)


(** ** The contact view *)

(** C3: on a POST request the view adds exactly one record to the store,
    holding for each of the four fields the last value submitted, and
    the empty string for a field that is absent; it returns the home
    page. *)
Theorem contact_post_stores_one_record request db :
  Views.method request = "POST" →
  ∃ c,
    Views.contact request db = (Views.Rendered "home.html", (db ++ [c])%list)
    ∧ (Views.POST request !! "name" = None → Views.name c = "")
    ∧ (Views.POST request !! "email" = None → Views.email c = "")
    ∧ (Views.POST request !! "subject" = None → Views.subject c = "")
    ∧ (Views.POST request !! "message" = None → Views.message c = "")
    ∧ (∀ v, last <$> Views.POST request !! "name" = Some (Some v) →
            Views.name c = v).
Proof.
  intros Hm. unfold Views.contact. rewrite Hm. simpl.
  eexists. split; [done|]. simpl. unfold Views.QueryDict_get.
  split_and!; try (by intros ->).
  intros v Hv. destruct (Views.POST request !! "name") as [l|]; [|done].
  simpl in Hv. injection Hv as ->. done.
Qed.

(** * The theorems at work on the example worlds *)

(** Closed side conditions are settled by evaluation. *)
Ltac evaluate :=
  lazymatch goal with
  | |- plain_path _ =>
      unfold plain_path; simpl; repeat constructor; discriminate
  | |- normal_path _ => split; [done|vm_compute; reflexivity]
  | |- entry_name _ => split; [done|vm_compute; reflexivity]
  | |- recognized ?n =>
      apply (bool_decide_unpack (recognized n)); vm_compute; exact I
  | |- creatable _ _ =>
      first [left; vm_compute; reflexivity|right; vm_compute; reflexivity]
  | |- derivable _ _ _ _ _ _ =>
      eexists _, _, _; split_and!;
        [vm_compute; reflexivity..|vm_compute; discriminate]
  | |- directories_ready _ _ _ =>
      split_and!; [intros _|..]; vm_compute; reflexivity
  | |- _ ≠ _ => vm_compute; discriminate
  | |- _ => vm_compute; reflexivity
  end.

Lemma resize_image_crop_exact_size_witness :
  ∃ final_img m src new_width new_height x0 y0 x1 y1,
    fs (final (resize_image "portfolio/good.jpg" "good_preview.jpg"
                 (800, 600) 85 true (State portfolio_fs [])))
      !! "good_preview.jpg"
    = Some (derivative "good_preview.jpg" 85 final_img)
    ∧ width final_img = 800 ∧ height final_img = 600
    ∧ final_img
      = Image 800 600 m (Crop (x0, y0, x1, y1) (Resize (new_width, new_height) src))
    ∧ x1 - x0 = 800 ∧ y1 - y0 = 600
    ∧ 0 ≤ (new_width - x1) - x0 ≤ 1
    ∧ 0 ≤ (new_height - y1) - y0 ≤ 1.
Proof.
  apply (resize_image_crop_exact_size "portfolio/good.jpg" "good_preview.jpg"
           800 600 85 (State portfolio_fs [])); evaluate.
Defined.

Lemma resize_image_saved_mode_witness :
  (∃ final_img size,
     fs (final (resize_image "portfolio/good.jpg" "good_preview.jpg"
                  (800, 600) 85 true (State portfolio_fs [])))
       !! "good_preview.jpg"
     = Some (derivative "good_preview.jpg" 85 final_img)
     ∧ mode final_img = "RGB"
     ∧ ∃ box,
         data final_img
         = Crop box (Resize size (Convert "RGB" (data photo))))
  ∧ mode photo = "RGBA"
  ∧ fs (final (resize_image "portfolio/good.jpg" "good_preview.jpg"
                 (800, 600) 85 true (State portfolio_fs [])))
      !! "good_preview.jpg"
    = Some (File (Encoded "JPEG" (Some 85) photo_preview)).
Proof.
  split; [|split; vm_compute; reflexivity].
  apply (resize_image_saved_mode "portfolio/good.jpg" "good_preview.jpg"
           800 600 85 true (State portfolio_fs []) _ "JPEG" None photo);
    [evaluate| |evaluate..].
  apply (bool_decide_unpack (mode photo ∈ ["RGBA"; "LA"; "P"])).
  vm_compute. exact I.
Defined.

(** C7 fails for a greyscale image: its mode is L, not RGB, and the
    image that is saved has the mode L, with no conversion in its
    history. *)
Lemma greyscale_image_is_not_converted :
  grey_fs !! "grey.png"
  = Some (File (Encoded "PNG" None (Image 1600 1200 "L" (Raster 2))))
  ∧ resize_image "grey.png" "grey_preview.png" (800, 600) 85 true
      (State grey_fs [])
    = Returned tt
        (State
           (<["grey_preview.png" :=
                File (Encoded "PNG" None
                        (Image 800 600 "L"
                           (Crop (0, 0, 800, 600)
                              (Resize (800, 600) (Raster 2)))))]> grey_fs)
           [Resized "grey.png" (800, 600) "grey_preview.png"]).
Proof. split; vm_compute; reflexivity. Qed.

Lemma resize_image_never_raises_witness :
  (∃ s',
     resize_image_on utf8 "portfolio/bad.png" "bad_preview.png" (800, 600) 85
       true (State portfolio_fs [])
     = Returned tt s'
     ∧ (stdout s'
        = ([] ++ [Resized "portfolio/bad.png" (800, 600) "bad_preview.png"])%list
        ∨ ∃ e, is_Exception e = true
               ∧ stdout s' = ([] ++ [ErrorProcessing "portfolio/bad.png" e])%list)
     ∧ (portfolio_fs !! "portfolio/bad.png" = None →
        ∃ e, is_OSError e = true
             ∧ stdout s' = ([] ++ [ErrorProcessing "portfolio/bad.png" e])%list)
     ∧ (∀ b, portfolio_fs !! "portfolio/bad.png" = Some (File (Bytes b)) →
        stdout s'
        = ([] ++ [ErrorProcessing "portfolio/bad.png" UnidentifiedImageError])%list)
     ∧ (portfolio_fs !! "bad_preview.png" = Some Dir →
        ∃ e, stdout s' = ([] ++ [ErrorProcessing "portfolio/bad.png" e])%list))
  ∧ resize_image_on utf8 "portfolio/bad.png" "bad_preview.png" (800, 600) 85
      true (State portfolio_fs [])
    = Returned tt
        (State portfolio_fs
           [ErrorProcessing "portfolio/bad.png" UnidentifiedImageError])
  ∧ resize_image_on utf8 "missing.jpg" "missing_preview.jpg" (800, 600) 85
      true (State portfolio_fs [])
    = Returned tt
        (State portfolio_fs [ErrorProcessing "missing.jpg" FileNotFoundError]).
Proof.
  split; [|split; vm_compute; reflexivity].
  apply (resize_image_never_raises utf8 "portfolio/bad.png" "bad_preview.png"
           (800, 600) 85 true (State portfolio_fs [])).
  intros e. reflexivity.
Defined.

(** C9 fails on a console whose encoding lacks the marks of the two
    lines.  For a missing input the exception of the [try] block is
    caught, and the [print] of the handler raises; for the photograph
    the preview is written, the [print] of the success raises inside
    the [try] block and is caught, and the [print] of the handler
    raises in its turn.  Both times [UnicodeEncodeError] reaches the
    caller, and nothing is on the console. *)
Lemma resize_image_raises_on_legacy_console :
  cp1252 (ErrorProcessing "missing.jpg" FileNotFoundError) = false
  ∧ resize_image_on cp1252 "missing.jpg" "missing_preview.jpg" (800, 600) 85
      true (State portfolio_fs [])
    = Raised UnicodeEncodeError (State portfolio_fs [])
  ∧ resize_image_on cp1252 "portfolio/good.jpg" "good_preview.jpg" (800, 600)
      85 true (State portfolio_fs [])
    = Raised UnicodeEncodeError
        (State
           (<["good_preview.jpg" :=
                File (Encoded "JPEG" (Some 85) photo_preview)]> portfolio_fs)
           []).
Proof. split_and!; vm_compute; reflexivity. Qed.



Lemma rerun_keeps_backups_rewrites_derivatives_witness :
  fs (final (process_portfolio_images "portfolio" true (State rerun_fs [])))
    !! backup_path "portfolio" "good.jpg"
  = Some (File (Encoded "JPEG" None photo))
  ∧ fs (final (process_portfolio_images "portfolio" true (State rerun_fs [])))
      !! preview_path "portfolio" "good.jpg"
    = Some (derivative (preview_path "portfolio" "good.jpg") 85 photo_preview)
  ∧ fs (final (process_portfolio_images "portfolio" true (State rerun_fs [])))
      !! slider_path "portfolio" "good.jpg"
    = Some (derivative (slider_path "portfolio" "good.jpg") 85 photo_slider).
Proof.
  destruct (rerun_keeps_backups_rewrites_derivatives "portfolio"
              (State rerun_fs []) "good.jpg" (File (Encoded "JPEG" None photo)))
    as [Hb Hd]; [evaluate..|].
  split; [exact Hb|]. apply Hd; evaluate.
Defined.




Lemma contact_post_stores_one_record_witness :
  ∃ c,
    Views.contact partial_form []
    = (Views.Rendered "home.html", ([] ++ [c])%list)
    ∧ (Views.POST partial_form !! "name" = None → Views.name c = "")
    ∧ (Views.POST partial_form !! "email" = None → Views.email c = "")
    ∧ (Views.POST partial_form !! "subject" = None → Views.subject c = "")
    ∧ (Views.POST partial_form !! "message" = None → Views.message c = "")
    ∧ (∀ v, last <$> Views.POST partial_form !! "name" = Some (Some v) →
            Views.name c = v).
Proof. apply (contact_post_stores_one_record partial_form []). reflexivity. Defined.

(** * Further properties of the resizer *)

(** ** [resize_image]: the padding mode, the frame, the unreadable input *)

(** X1: in padding mode, whenever [resize_image] reports that it wrote its
    output, the file holds an RGB image of exactly the target size: a
    white canvas on which the resized image is pasted.  One side of the
    resized image has the length of the target's, and the margin after
    the pasted image exceeds the margin before it by zero or one. *)
Theorem resize_image_pad_exact_size input_path output_path tw th quality s s' :
  resize_image input_path output_path (tw, th) quality false s = Returned tt s' →
  stdout s' = (stdout s ++ [Resized input_path (tw, th) output_path])%list →
  ∃ final_img src new_width new_height x y,
    fs s' !! output_path = Some (derivative output_path quality final_img)
    ∧ final_img
      = Image tw th "RGB"
          (Paste (New "RGB" (tw, th) (255, 255, 255))
             (Resize (new_width, new_height) src) (x, y))
    ∧ (new_width = tw ∨ new_height = th)
    ∧ 0 ≤ (tw - new_width - x) - x ≤ 1
    ∧ 0 ≤ (th - new_height - y) - y ≤ 1.
Proof.
  intros E Hout.
  destruct (run_resize_image input_path output_path (tw, th) quality false s)
    as [(e & f' & E' & _)
       |(fmt & q & img & final_img & Hi & Hc & _ & _ & _ & E')];
    rewrite E' in E; injection E as <-; simpl in Hout.
  { by apply (inj (app (stdout s))) in Hout. }
  apply pad_to_fit_inv in Hc as (nw & nh & -> & _ & _ & Hside).
  eexists _, _, nw, nh, _, _. simpl. rewrite lookup_insert_eq.
  pose proof (Z.div_mod (tw - nw) 2). pose proof (Z.mod_pos_bound (tw - nw) 2).
  pose proof (Z.div_mod (th - nh) 2). pose proof (Z.mod_pos_bound (th - nh) 2).
  split_and!; [done|done|done|lia..].
Qed.

(** X4: when the input is missing, is a directory or holds no image a
    decoder accepts, [resize_image] leaves the file system as it is and
    prints the one error line, with an error of class [OSError]. *)
Theorem resize_image_unreadable_input input_path output_path target_size
    quality crop_mode s :
  (∀ fmt q img, fs s !! input_path ≠ Some (File (Encoded fmt q img))) →
  ∃ e, is_OSError e = true
       ∧ resize_image input_path output_path target_size quality crop_mode s
         = Returned tt
             (State (fs s) (stdout s ++ [ErrorProcessing input_path e])).
Proof.
  intros Hi. unfold resize_image, try_except, resize_image_try.
  rewrite run_bind. unfold PIL.open. rewrite run_bind. simpl.
  destruct (fs s !! input_path) as [[|[fmt q img|fmt img|b]]|] eqn:E; simpl.
  - by exists IsADirectoryError.
  - by destruct (Hi fmt q img).
  - by exists OSError.
  - by exists UnidentifiedImageError.
  - exists (os.missing (fs s) input_path).
    by rewrite missing_OSError, missing_Exception.
Qed.

(** X3: [resize_image] changes no path but its output path, whatever
    happens.  There, it leaves what was, or writes the derivative, or,
    when the writer gave up after the file was opened, leaves a
    regular file where a regular file was, with what the writer had
    written; where nothing was, nothing is left unless the derivative
    is written. *)
Theorem resize_image_touches_only_output input_path output_path target_size
    quality crop_mode s :
  (∀ p, p ≠ output_path →
        fs (final (resize_image input_path output_path target_size quality
                     crop_mode s)) !! p = fs s !! p)
  ∧ (fs (final (resize_image input_path output_path target_size quality
                  crop_mode s)) !! output_path = fs s !! output_path
     ∨ (∃ final_img,
          fs (final (resize_image input_path output_path target_size quality
                       crop_mode s)) !! output_path
          = Some (derivative output_path quality final_img))
     ∨ ((∃ c, fs s !! output_path = Some (File c))
        ∧ ∃ c', fs (final (resize_image input_path output_path target_size
                             quality crop_mode s)) !! output_path
                = Some (File c')))
  ∧ (fs s !! output_path = None →
     fs (final (resize_image input_path output_path target_size quality
                  crop_mode s)) !! output_path = None
     ∨ ∃ final_img,
         fs (final (resize_image input_path output_path target_size quality
                      crop_mode s)) !! output_path
         = Some (derivative output_path quality final_img)).
Proof.
  destruct (run_resize_image input_path output_path target_size quality
              crop_mode s)
    as [(e & f' & -> & _ & [->|[Hc [c' ->]]])
       |(fmt & q & img & final_img & _ & _ & _ & _ & _ & ->)]; simpl.
  - auto.
  - split_and!.
    + intros p Hp. by rewrite lookup_insert_ne.
    + right; right. rewrite lookup_insert_eq. eauto.
    + intros Hn. destruct Hc as [c Hc]. congruence.
  - split_and!.
    + intros p Hp. by rewrite lookup_insert_ne.
    + right; left. exists final_img. by rewrite lookup_insert_eq.
    + intros _. right. exists final_img. by rewrite lookup_insert_eq.
Qed.

(** X2: in crop mode the image is cut along one axis only: whenever
    [resize_image] reports that it wrote its output, the resized image
    has the width of the target and the box spans it from 0 to that
    width, or it has the height of the target and the box spans it from
    0 to that height. *)
Theorem resize_image_crop_one_axis input_path output_path tw th quality s s' :
  resize_image input_path output_path (tw, th) quality true s = Returned tt s' →
  stdout s' = (stdout s ++ [Resized input_path (tw, th) output_path])%list →
  ∃ m src new_width new_height x0 y0 x1 y1,
    fs s' !! output_path
    = Some (derivative output_path quality
              (Image tw th m
                 (Crop (x0, y0, x1, y1) (Resize (new_width, new_height) src))))
    ∧ 1 ≤ new_width ∧ 1 ≤ new_height
    ∧ (new_width = tw ∧ x0 = 0 ∧ x1 = tw
       ∨ new_height = th ∧ y0 = 0 ∧ y1 = th).
Proof.
  intros E Hout.
  destruct (run_resize_image input_path output_path (tw, th) quality true s)
    as [(e & f' & E' & _)
       |(fmt & q & img & final_img & Hi & Hc & _ & _ & _ & E')];
    rewrite E' in E; injection E as <-; simpl in Hout.
  { by apply (inj (app (stdout s))) in Hout. }
  apply crop_to_fill_inv in Hc
    as (img_ratio & target_ratio & nw & nh & x0 & y0 & x1 & y1
        & _ & _ & -> & ? & ? & H).
  eexists _, _, nw, nh, x0, y0, x1, y1. simpl. rewrite lookup_insert_eq.
  split_and!; [done..|].
  destruct (PyFloat.gt img_ratio target_ratio).
  - right. by destruct H as (-> & _ & _ & -> & _ & ->).
  - left. by destruct H as (-> & _ & -> & _ & -> & _).
Qed.

(** X5: a target of height zero is an error like any other: in both modes
    [resize_image] returns after printing the error line, and the file
    system is as it was. *)
Theorem resize_image_zero_height input_path output_path tw quality crop_mode s :
  ∃ e, is_Exception e = true
       ∧ resize_image input_path output_path (tw, 0) quality crop_mode s
         = Returned tt
             (State (fs s) (stdout s ++ [ErrorProcessing input_path e])).
Proof.
  unfold resize_image, try_except, resize_image_try.
  rewrite run_bind. unfold PIL.open. rewrite run_bind. simpl.
  destruct (fs s !! input_path) as [[|[fmt q img|fmt img|b]]|] eqn:E; simpl.
  - by exists IsADirectoryError.
  - destruct (zero_height_fails (to_rgb_if_necessary img) tw crop_mode)
      as (e & He & Hexn).
    exists e. split; [done|]. rewrite run_bind, He. simpl. by rewrite Hexn.
  - by exists OSError.
  - by exists UnidentifiedImageError.
  - exists (os.missing (fs s) input_path). by rewrite !missing_Exception.
Qed.

(** ** The names of the derivatives *)

Lemma lower_app s t : Str.lower (s +:+ t) = Str.lower s +:+ Str.lower t.
Proof.
  induction s as [|c s IH]; [done|].
  rewrite string_app_cons. cbn [Str.lower]. by rewrite string_app_cons, IH.
Qed.

Lemma endswith_cons c s suf :
  Str.endswith (String c s) suf
  = String.eqb (String c s) suf || Str.endswith s suf.
Proof. done. Qed.

Lemma endswith_app_true s t suf :
  Str.endswith t suf = true → Str.endswith (s +:+ t) suf = true.
Proof.
  intros H. induction s as [|c s IH]; [done|].
  rewrite string_app_cons, endswith_cons, IH. apply orb_true_r.
Qed.

Lemma endswith_app_inv s t suf :
  Str.endswith (s +:+ t) suf = true →
  Str.endswith t suf = true ∨ ∃ z, z ≠ "" ∧ suf = z +:+ t.
Proof.
  induction s as [|c s IH]; [by left|].
  rewrite string_app_cons, endswith_cons. intros [H|H]%orb_true_iff.
  - right. exists (String c s). split; [done|].
    apply String.eqb_eq in H. by rewrite string_app_cons.
  - by apply IH.
Qed.

(** A suffix that [t] does not extend is found at the end of [s +:+ t]
    when it is found at the end of [t]. *)
Lemma endswith_app_other s t suf :
  (∀ z, z ≠ "" → suf ≠ z +:+ t) →
  Str.endswith (s +:+ t) suf = Str.endswith t suf.
Proof.
  intros Hz. destruct (Str.endswith t suf) eqn:E.
  - by apply endswith_app_true.
  - destruct (Str.endswith (s +:+ t) suf) eqn:E'; [|done].
    apply endswith_app_inv in E' as [E'|(z & Hne & ->)]; [congruence|].
    by destruct (Hz z).
Qed.

Ltac no_extension :=
  let z := fresh "z" in
  let Hz := fresh "Hz" in
  let H := fresh "H" in
  intros z Hz H;
  destruct z as [|? [|? z]]; [done| |];
  [ rewrite string_app_cons, string_app_nil_l in H; discriminate
  | apply (f_equal String.length) in H;
    rewrite !string_app_cons in H; cbn [String.length] in H;
    rewrite string_app_length in H; cbn [String.length] in H; lia ].

(** X6: the format follows the extension of the source: a derivative of a
    recognized file is written as a JPEG when the extension is, in
    lower case, [.jpg] or [.jpeg], and as a PNG otherwise, under the
    extension of the source. *)
Theorem derivative_format_by_extension d n quality :
  normal_path d → entry_name n → recognized n →
  let fmt :=
    if bool_decide (Str.lower (snd (posixpath.splitext n)) ∈ [".jpg"; ".jpeg"])
    then ("JPEG", Some quality) else ("PNG", None) in
  output_format (preview_path d n) quality = fmt
  ∧ output_format (slider_path d n) quality = fmt.
Proof.
  intros Hd Hn Hr fmt.
  assert (∀ L, output_format (L +:+ snd (posixpath.splitext n)) quality = fmt)
    as Hfmt.
  { intros L. rewrite output_format_eq, lower_app. subst fmt.
    unfold recognized, image_extensions in Hr.
    repeat (apply elem_of_cons in Hr as [Hr|Hr]);
      [..|by apply elem_of_nil in Hr];
      rewrite Hr, !endswith_app_other by no_extension;
      vm_compute; reflexivity. }
  split.
  - rewrite preview_path_eq by done.
    rewrite <-!string_app_assoc. apply Hfmt.
  - rewrite slider_path_eq by done.
    rewrite <-!string_app_assoc. apply Hfmt.
Qed.

(** X7: no two outputs of the batch share a path, and none is at the path
    of an entry of the directory: the derivatives and the backups of
    two recognized entries are at six different paths, all of them
    below the output directories. *)
Theorem outputs_never_collide d n m x :
  normal_path d → entry_name n → recognized n → entry_name m → recognized m →
  entry_name x →
  (preview_path d n = preview_path d m → n = m)
  ∧ (slider_path d n = slider_path d m → n = m)
  ∧ (backup_path d n = backup_path d m → n = m)
  ∧ preview_path d n ≠ slider_path d m
  ∧ preview_path d n ≠ backup_path d m
  ∧ slider_path d n ≠ backup_path d m
  ∧ posixpath.join d x ≠ preview_path d n
  ∧ posixpath.join d x ≠ slider_path d n
  ∧ posixpath.join d x ≠ backup_path d n.
Proof.
  intros Hd Hn Rn Hm Rm Hx.
  destruct (derivative_ne_backup d Hd n m Hn Rn Hm) as [B1 B2].
  destruct (entry_ne_paths d n Hd Hn Rn x Hx) as (E1 & E2 & E3).
  split_and!; try done.
  - intros H. destruct (decide (n = m)) as [|Hne]; [done|].
    destruct (paths_of_other_file d Hd n m Hn Rn Hm Hne) as [H1 _].
    destruct H1. auto.
  - intros H. destruct (decide (n = m)) as [|Hne]; [done|].
    destruct (paths_of_other_file d Hd n m Hn Rn Hm Hne) as [_ H1].
    destruct H1. auto.
  - rewrite !backup_path_eq by done. intros H.
    apply path_inj in H as [_ H]; [done|..]; try entry_tac;
      apply normal_join, entry_backup_original.
  - intros H. destruct (decide (n = m)) as [->|Hne].
    + by destruct (slider_ne_preview d m Hd Hm Rm).
    + destruct (paths_of_other_file d Hd n m Hn Rn Hm Hne) as [H1 _].
      destruct H1. auto.
Qed.

(** ** One file of the batch, once more *)

Lemma resize_image_other_paths input_path output_path target_size quality
    crop_mode s p :
  p ≠ output_path →
  fs (final (resize_image input_path output_path target_size quality
               crop_mode s)) !! p = fs s !! p.
Proof.
  intros Hp.
  apply (only_writes_outside (λ p, p = output_path) (λ _, False));
    [apply only_writes_resize_image|done|tauto].
Qed.

Lemma run_resize_image_line input_path output_path target_size quality
    crop_mode s :
  ∃ f' l,
    resize_image input_path output_path target_size quality crop_mode s
    = Returned tt (State f' (stdout s ++ [l]))
    ∧ report_line l input_path target_size output_path.
Proof.
  destruct (run_resize_image input_path output_path target_size quality
              crop_mode s)
    as [(e & f' & -> & He & _)
       |(fmt & q & img & final_img & _ & _ & _ & _ & _ & ->)].
  - eexists _, _. split; [done|]. right. eauto.
  - eexists _, _. split; [done|]. by left.
Qed.

Lemma run_resize_image_bytes input_path output_path target_size quality
    crop_mode s b :
  fs s !! input_path = Some (File (Bytes b)) →
  resize_image input_path output_path target_size quality crop_mode s
  = Returned tt
      (State (fs s)
         (stdout s ++ [ErrorProcessing input_path UnidentifiedImageError])).
Proof.
  intros Hi. unfold resize_image, try_except, resize_image_try.
  rewrite run_bind. unfold PIL.open. rewrite run_bind. simpl.
  by rewrite Hi.
Qed.

Lemma for_each_final {X} (I : state → Prop) (l : list X) (body : X → M unit) :
  (∀ x s, x ∈ l → I s → I (final (body x s))) →
  ∀ s, I s → I (final (for_each l body s)).
Proof.
  induction l as [|x l IH]; intros Hb s Hs; [done|].
  cbn [for_each]. rewrite run_bind.
  pose proof (Hb x s (list_elem_of_here x l) Hs) as Hx.
  destruct (body x s) as [[] s'|e s']; [|done].
  apply IH; [|done]. intros y t Hy. apply Hb. by apply list_elem_of_further.
Qed.

Lemma for_each_skip {X} (l : list X) (body : X → M unit) s :
  (∀ x, x ∈ l → body x s = Returned tt s) → for_each l body s = Returned tt s.
Proof.
  induction l as [|x l IH]; intros Hb; [done|].
  cbn [for_each]. rewrite run_bind, (Hb x) by apply list_elem_of_here.
  apply IH. intros y Hy. apply Hb. by apply list_elem_of_further.
Qed.

Lemma created_directories_refl W f : created_directories W f f.
Proof. intros p. by left. Qed.

Lemma created_directories_trans W f0 f1 f2 :
  created_directories W f0 f1 → created_directories W f1 f2 →
  created_directories W f0 f2.
Proof.
  intros H1 H2 p. destruct (H2 p) as [E2|(Hw & E2 & E2')].
  - rewrite E2. apply H1.
  - destruct (H1 p) as [E1|(_ & _ & E1)]; [|congruence].
    right. rewrite <-E1. done.
Qed.

Lemma created_directories_insert (W : string → Prop) f p :
  W p → f !! p = None → created_directories W f (<[p := Dir]> f).
Proof.
  intros Hw Hp q. destruct (decide (q = p)) as [->|Hne].
  - right. by rewrite lookup_insert_eq.
  - left. by rewrite lookup_insert_ne.
Qed.

Lemma created_directories_keeps W f f' p v :
  created_directories W f f' → f !! p = Some v → f' !! p = Some v.
Proof. intros H Hp. destruct (H p) as [->|(_ & ? & _)]; congruence. Qed.

Lemma run_resize_image_frame input_path output_path target_size quality
    crop_mode s :
  ∃ s',
    resize_image input_path output_path target_size quality crop_mode s
    = Returned tt s'
    ∧ (∀ p, p ≠ output_path → fs s' !! p = fs s !! p)
    ∧ stdout s `prefix_of` stdout s'.
Proof.
  pose proof (resize_image_other_paths input_path output_path target_size
                quality crop_mode s) as Hp.
  pose proof (only_prints_resize_image input_path output_path target_size
                quality crop_mode s) as Ho.
  destruct (resize_image_returns input_path output_path target_size quality
              crop_mode s) as [s' E].
  rewrite E in Hp, Ho. by exists s'.
Qed.

Section file_outputs.

Context (d : string) (backup : bool) (n : string).
Hypothesis Hd : normal_path d.
Hypothesis Hn : entry_name n.

(** The backup, in full: a copy is made when backups are enabled and
    nothing is at the backup path. *)
Lemma run_backup_file_exact s c :
  (backup = true → fs s !! posixpath.join d "backup_original" = Some Dir) →
  fs s !! posixpath.join d n = Some (File c) →
  backup_file backup (posixpath.join d "backup_original")
    (posixpath.join d n) n s
  = Returned tt
      (if backup
       then match fs s !! backup_path d n with
            | None => State (<[backup_path d n := File c]> (fs s))
                            (stdout s ++ [BackedUp n])
            | Some _ => s
            end
       else s).
Proof.
  intros Hb Hi. unfold backup_file. destruct backup; [|done].
  specialize (Hb eq_refl).
  rewrite run_bind, run_exists. fold (backup_path d n).
  destruct (fs s !! backup_path d n) as [v|] eqn:E.
  { by rewrite bool_decide_eq_true_2 by eauto. }
  rewrite bool_decide_eq_false_2 by (by intros [? ?]). simpl.
  rewrite run_bind. unfold shutil.copy2. rewrite run_bind. simpl.
  rewrite E, Hi. simpl. rewrite E. rewrite run_bind, run_check_parent_ready.
  2:{ rewrite backup_path_eq by done. apply parent_ready_in; [|apply Hn|].
      - apply normal_join, entry_backup_original.
      - by rewrite <-(join_normal d) by (done || apply entry_backup_original). }
  done.
Qed.

(** What one step writes, with the backup told apart. *)
Lemma only_writes_backup_enabled Wa input_path :
  only_writes Wa (λ p, backup = true ∧ p = backup_path d n)
    (backup_file backup (posixpath.join d "backup_original") input_path n).
Proof.
  intros s p.
  destruct (only_writes_backup_file d backup n Wa input_path s p)
    as [H|[H|[-> H]]]; [by left|by right; left|].
  destruct backup; [by right; right|by left].
Qed.

Lemma only_writes_batch_step :
  only_writes
    (λ p, recognized n ∧ (p = preview_path d n ∨ p = slider_path d n))
    (λ p, backup = true ∧ recognized n ∧ p = backup_path d n)
    (batch_step d backup n).
Proof.
  unfold batch_step, process_file.
  apply only_writes_bind; [by apply only_writes_pure|]. intros is_file.
  destruct is_file; [|by apply only_writes_pure]. simpl.
  destruct (bool_decide_reflect
              (Str.lower (snd (posixpath.splitext n)) ∈ image_extensions))
    as [Hr|Hr]; [|by apply only_writes_pure]. simpl.
  apply only_writes_bind.
  { apply (only_writes_weaken
             (λ p, recognized n ∧ (p = preview_path d n ∨ p = slider_path d n))
             (λ p, backup = true ∧ p = backup_path d n));
      [done| |apply only_writes_backup_enabled].
    intros p [? ?]. done. }
  intros _.
  apply only_writes_bind; [|intros _];
    (eapply (only_writes_weaken _
               (λ p, backup = true ∧ recognized n ∧ p = backup_path d n));
       [| |apply only_writes_resize_image]);
    simpl; intros p; try done; intros ->; auto.
Qed.

Hypothesis Hr : recognized n.

(** The first backup of a file is a copy of the file. *)
Lemma batch_step_backs_up s c :
  backup = true → directories_ready (fs s) d backup →
  fs s !! posixpath.join d n = Some (File c) →
  fs s !! backup_path d n = None →
  ∃ s', batch_step d backup n s = Returned tt s'
    ∧ fs s' !! backup_path d n = Some (File c)
    ∧ BackedUp n ∈ stdout s'.
Proof.
  intros Hbk (Hb & _ & _) Hi Hnone.
  rewrite (process_file_eq d backup n s c Hi Hr).
  rewrite run_bind, (run_backup_file_exact s c Hb Hi), Hbk, Hnone.
  rewrite run_bind.
  destruct (run_resize_image_frame (posixpath.join d n) (preview_path d n)
              preview_size 85 true
              (State (<[backup_path d n := File c]> (fs s))
                     (stdout s ++ [BackedUp n])))
    as (s1 & -> & F1 & P1).
  destruct (run_resize_image_frame (posixpath.join d n) (slider_path d n)
              slider_size 85 true s1) as (s2 & -> & F2 & P2).
  exists s2. split; [done|].
  pose proof (preview_ne_backup d n Hd Hn Hr).
  pose proof (slider_ne_backup d n Hd Hn Hr).
  split.
  - rewrite F2, F1 by done. simpl. by rewrite lookup_insert_eq.
  - eapply elem_of_prefix; [|exact P2]. eapply elem_of_prefix; [|exact P1].
    simpl. apply elem_of_app. right. apply list_elem_of_here.
Qed.

(** A file no decoder accepts leaves nothing at the paths of its
    derivatives. *)
Lemma batch_step_bytes s b :
  directories_ready (fs s) d backup →
  fs s !! posixpath.join d n = Some (File (Bytes b)) →
  ∃ s', batch_step d backup n s = Returned tt s'
    ∧ fs s' !! preview_path d n = fs s !! preview_path d n
    ∧ fs s' !! slider_path d n = fs s !! slider_path d n.
Proof.
  intros (Hb & _ & _) Hi.
  rewrite (process_file_eq d backup n s _ Hi Hr).
  rewrite run_bind, (run_backup_file_exact s _ Hb Hi).
  set (s0 := if backup then _ else s).
  pose proof (preview_ne_backup d n Hd Hn Hr).
  pose proof (slider_ne_backup d n Hd Hn Hr).
  destruct (entry_ne_paths d n Hd Hn Hr n Hn) as (_ & _ & Hne).
  assert (∀ p, p ≠ backup_path d n → fs s0 !! p = fs s !! p) as Hs0.
  { intros p Hp. subst s0. destruct backup; [|done].
    destruct (fs s !! backup_path d n); [done|].
    simpl. by rewrite lookup_insert_ne. }
  rewrite run_bind, (run_resize_image_bytes _ _ _ _ _ s0 b)
    by (by rewrite Hs0).
  rewrite (run_resize_image_bytes _ _ _ _ _ _ b) by (simpl; by rewrite Hs0).
  eexists. split; [done|]. simpl. by rewrite !Hs0.
Qed.

End file_outputs.

(** ** The batch, once more *)

Section batch_outputs.

Context (d : string) (backup : bool).
Hypothesis Hd : normal_path d.

(** One output directory: created, reused, or in the way. *)
Lemma run_makedirs_cases sub s :
  entry_name sub → fs s !! d = Some Dir →
  ∃ s', fs s' !! d = Some Dir ∧ stdout s' = stdout s
    ∧ created_directories (λ p, p = posixpath.join d sub) (fs s) (fs s')
    ∧ (os.makedirs (posixpath.join d sub) true s = Raised FileExistsError s'
       ∨ os.makedirs (posixpath.join d sub) true s = Returned tt s'
         ∧ fs s' !! posixpath.join d sub = Some Dir).
Proof.
  intros Hs Hf. rewrite (join_dir d Hd sub Hs), (run_makedirs d sub s Hd Hs Hf).
  destruct (fs s !! (d +:+ "/" +:+ sub)) as [[|c]|] eqn:E.
  - exists s. split_and!; [done..|apply created_directories_refl|by right].
  - exists s. split_and!; [done..|apply created_directories_refl|by left].
  - exists (State (<[d +:+ "/" +:+ sub := Dir]> (fs s)) (stdout s)). simpl.
    split_and!; [|done|by apply created_directories_insert|right; split; [done|]].
    + rewrite lookup_insert_ne; [done|]. apply path_ne_dir.
    + by rewrite lookup_insert_eq.
Qed.

(** The set-up of the batch: it stops at a name that is taken, or goes
    on to the loop with its directories in place. *)
Lemma run_setup_cases s :
  fs s !! d = Some Dir →
  ∃ s1, fs s1 !! d = Some Dir
    ∧ created_directories (output_directory d backup) (fs s) (fs s1)
    ∧ (process_portfolio_images d backup s = Raised FileExistsError s1
       ∨ ∃ names,
           process_portfolio_images d backup s
           = for_each names (batch_step d backup) s1
           ∧ Forall entry_name names
           ∧ directories_ready (fs s1) d backup
           ∧ stdout s1 = (stdout s ++ setup_lines d backup)%list).
Proof.
  intros Hf. unfold process_portfolio_images.
  assert (∃ s0, fs s0 !! d = Some Dir
            ∧ created_directories (output_directory d backup) (fs s) (fs s0)
            ∧ ((if backup
                then os.makedirs (posixpath.join d "backup_original") true ;;
                     print (BackupDirectoryCreated
                              (posixpath.join d "backup_original"))
                else ret tt) s = Raised FileExistsError s0
               ∨ (if backup
                  then os.makedirs (posixpath.join d "backup_original") true ;;
                       print (BackupDirectoryCreated
                                (posixpath.join d "backup_original"))
                  else ret tt) s = Returned tt s0
                 ∧ (backup = true →
                    fs s0 !! posixpath.join d "backup_original" = Some Dir)
                 ∧ stdout s0
                   = (stdout s
                      ++ if backup
                         then [BackupDirectoryCreated
                                 (posixpath.join d "backup_original")]
                         else [])%list))
    as (s0 & Hf0 & C0 & [E0|(E0 & B0 & O0)]).
  { destruct backup.
    - destruct (run_makedirs_cases "backup_original" s entry_backup_original Hf)
        as (s' & Hf' & Ho & Hc & [E|[E Hdir]]).
      + exists s'. split_and!; [done| |left; by rewrite (bind_raised _ _ _ _ _ E)].
        intros p. destruct (Hc p) as [?|(-> & ? & ?)]; [by left|right].
        split; [|done]. right; right. done.
      + exists (State (fs s') (stdout s' ++ [BackupDirectoryCreated
                                               (posixpath.join d "backup_original")])).
        split_and!; [done| |right].
        * intros p. destruct (Hc p) as [?|(-> & ? & ?)]; [by left|right].
          split; [|done]. right; right. done.
        * rewrite (bind_returned _ _ _ _ _ E).
          split_and!; [done|done|simpl; by rewrite Ho].
    - exists s. split_and!; [done|apply created_directories_refl|right].
      split_and!; [done|done|by rewrite app_nil_r]. }
  { exists s0. split_and!; [done..|left]. by rewrite (bind_raised _ _ _ _ _ E0). }
  rewrite (bind_returned _ _ _ _ _ E0).
  destruct (run_makedirs_cases "preview" s0 entry_preview Hf0)
    as (s1 & Hf1 & O1 & C1 & [E1|[E1 D1]]).
  { exists s1. split_and!; [done| |left; by rewrite (bind_raised _ _ _ _ _ E1)].
    eapply created_directories_trans; [exact C0|].
    intros p. destruct (C1 p) as [?|(-> & ? & ?)]; [by left|right].
    split; [|done]. by left. }
  rewrite (bind_returned _ _ _ _ _ E1).
  destruct (run_makedirs_cases "slider" s1 entry_slider Hf1)
    as (s2 & Hf2 & O2 & C2 & [E2|[E2 D2]]).
  { exists s2. split_and!; [done| |left; by rewrite (bind_raised _ _ _ _ _ E2)].
    eapply created_directories_trans; [exact C0|].
    eapply created_directories_trans.
    - intros p. destruct (C1 p) as [?|(-> & ? & ?)]; [by left|right].
      split; [|done]. by left.
    - intros p. destruct (C2 p) as [?|(-> & ? & ?)]; [by left|right].
      split; [|done]. right. by left. }
  rewrite (bind_returned _ _ _ _ _ E2).
  rewrite run_bind. simpl. rewrite run_bind. simpl.
  destruct (run_listdir d
              (State (fs s2)
                 ((stdout s2 ++ [PreviewDirectory (posixpath.join d "preview")])
                  ++ [SliderDirectory (posixpath.join d "slider")])))
    as (names & EL & Hnames & _); [done|].
  rewrite (bind_returned _ _ _ _ _ EL).
  eexists. split_and!; [| |right; exists names; split_and!; [done|done| |]].
  - done.
  - simpl. eapply created_directories_trans; [exact C0|].
    eapply created_directories_trans.
    + intros p. destruct (C1 p) as [?|(-> & ? & ?)]; [by left|right].
      split; [|done]. by left.
    + intros p. destruct (C2 p) as [?|(-> & ? & ?)]; [by left|right].
      split; [|done]. right. by left.
  - simpl. split_and!; [|by eapply created_directories_keeps|done].
    intros Hbk. eapply created_directories_keeps; [exact C2|].
    eapply created_directories_keeps; [exact C1|]. auto.
  - simpl. rewrite O2, O1, O0. unfold setup_lines.
    by rewrite <-!app_assoc.
Qed.

End batch_outputs.

Section batch_frame.

Context (d : string) (backup : bool).
Hypothesis Hd : normal_path d.

(** An output directory is no path below an output directory. *)
Lemma directory_ne_below sub sub' x :
  entry_name sub → entry_name sub' → Str.rfind posixpath.sep x = -1 →
  posixpath.join d sub ≠ (d +:+ "/" +:+ sub') +:+ "/" +:+ x.
Proof.
  intros Hs Hs' Hx. rewrite (join_dir d Hd sub Hs). by apply below_ne.
Qed.

Lemma directory_ne_outputs sub n :
  entry_name sub → entry_name n →
  posixpath.join d sub ≠ backup_path d n
  ∧ (recognized n → posixpath.join d sub ≠ preview_path d n
                    ∧ posixpath.join d sub ≠ slider_path d n).
Proof.
  intros Hs Hn. split; [|intros Hr; split].
  - rewrite backup_path_eq by done.
    apply directory_ne_below; [done|apply entry_backup_original|apply Hn].
  - rewrite preview_path_eq by done.
    apply directory_ne_below; [done|apply entry_preview|].
    by apply derived_name_entry.
  - rewrite slider_path_eq by done.
    apply directory_ne_below; [done|apply entry_slider|].
    by apply derived_name_entry.
Qed.

Lemma portfolio_ne_outputs n :
  entry_name n →
  d ≠ backup_path d n
  ∧ (recognized n → d ≠ preview_path d n ∧ d ≠ slider_path d n).
Proof.
  intros Hn. split; [|intros Hr; split].
  - rewrite backup_path_eq by done. rewrite string_app_assoc.
    intros H. by apply eq_sym, path_ne_dir in H.
  - rewrite preview_path_eq by done. rewrite string_app_assoc.
    intros H. by apply eq_sym, path_ne_dir in H.
  - rewrite slider_path_eq by done. rewrite string_app_assoc.
    intros H. by apply eq_sym, path_ne_dir in H.
Qed.

(** What the loop writes: derivatives of recognized entries and, with
    backups enabled, backups that were absent. *)
Lemma loop_writes names :
  Forall entry_name names →
  only_writes
    (λ p, ∃ n, entry_name n ∧ recognized n
               ∧ (p = preview_path d n ∨ p = slider_path d n))
    (λ p, backup = true
          ∧ ∃ n, entry_name n ∧ recognized n ∧ p = backup_path d n)
    (for_each names (batch_step d backup)).
Proof.
  intros Hnames. rewrite Forall_forall in Hnames.
  apply only_writes_for_each. intros x Hx.
  eapply only_writes_weaken; [| |apply only_writes_batch_step]; simpl.
  - intros q [Hr Hq]. exists x. auto.
  - intros q (Hb & Hr & Hq). split; [done|]. exists x. auto.
Qed.

(** The loop keeps the portfolio directory and the output directories. *)
Lemma loop_keeps_directories names s :
  Forall entry_name names →
  fs s !! d = Some Dir → directories_ready (fs s) d backup →
  fs (final (for_each names (batch_step d backup) s)) !! d = Some Dir
  ∧ directories_ready (fs (final (for_each names (batch_step d backup) s)))
      d backup.
Proof.
  intros Hnames Hf Hready. rewrite Forall_forall in Hnames.
  apply (for_each_final
           (λ s, fs s !! d = Some Dir ∧ directories_ready (fs s) d backup));
    [|done].
  intros x t Hx [Hft Hrt]. split; [|by apply process_file_keeps_ready; auto].
  rewrite <-Hft.
  apply (only_writes_keeps _ _ _ _ _ (only_writes_process_file d backup x));
    [|by rewrite Hft].
  intros [Hr [H|H]];
    by destruct (portfolio_ne_outputs x (Hnames x Hx)) as [_ [? ?]].
Qed.

End batch_frame.

(** ** What the batch keeps and what it changes *)

(** X9: the batch removes nothing, and it leaves every entry of the
    portfolio directory as it is, the originals among them: what was at
    a path directly in the directory is still there when the batch
    ends, however it ends. *)
Theorem batch_keeps_what_is_there d backup s :
  normal_path d →
  (∀ p, is_Some (fs s !! p) →
        is_Some (fs (final (process_portfolio_images d backup s)) !! p))
  ∧ (∀ x v, entry_name x → fs s !! posixpath.join d x = Some v →
            fs (final (process_portfolio_images d backup s))
              !! posixpath.join d x = Some v).
Proof.
  intros Hd. split.
  - intros p Hp.
    destruct (only_writes_batch d backup s p) as [->|[[_ [c ->]]|[_ E]]];
      [done|by eauto|].
    rewrite E in Hp. by destruct Hp.
  - intros x v Hx Hv. rewrite <-Hv.
    apply (only_writes_keeps _ _ _ _ _ (only_writes_batch d backup));
      [|by rewrite Hv].
    intros (n & Hn & Hr & H).
    destruct (entry_ne_paths d n Hd Hn Hr x Hx) as (? & ? & ?).
    by destruct H.
Qed.

(** X10: over an existing directory, whatever is at a path when the batch
    ends was there before, or is an output directory the batch
    created, a regular file at the preview or slider path of a
    recognized entry, or, with backups enabled, the backup of a
    recognized entry at a path where nothing was. *)
Theorem batch_changes_only_outputs d backup s p :
  normal_path d → fs s !! d = Some Dir →
  fs (final (process_portfolio_images d backup s)) !! p = fs s !! p
  ∨ (output_directory d backup p ∧ fs s !! p = None
     ∧ fs (final (process_portfolio_images d backup s)) !! p = Some Dir)
  ∨ (∃ n, entry_name n ∧ recognized n
          ∧ (p = preview_path d n ∨ p = slider_path d n)
          ∧ ∃ c, fs (final (process_portfolio_images d backup s)) !! p
                 = Some (File c))
  ∨ (backup = true ∧ fs s !! p = None
     ∧ ∃ n, entry_name n ∧ recognized n ∧ p = backup_path d n).
Proof.
  intros Hd Hf.
  destruct (run_setup_cases d backup Hd s Hf)
    as (s1 & Hf1 & C & [->|(names & -> & Hnames & _ & _)]).
  { simpl. destruct (C p) as [?|?]; auto. }
  destruct (loop_writes d backup names Hnames s1 p)
    as [E|[[(n & Hn & Hr & Hp) Hc]|[[Hb Hn] Hnone]]].
  - rewrite E. destruct (C p) as [?|?]; auto.
  - right; right; left. exists n. auto.
  - right; right; right. split; [done|]. split; [|done].
    destruct (C p) as [<-|(_ & _ & ?)]; [done|congruence].
Qed.

Lemma main_final_fs d no_backup s v :
  fs s !! d = Some v →
  fs (final (main d no_backup s))
  = fs (final (process_portfolio_images d (negb no_backup)
                 (State (fs s) (stdout s ++ banner d no_backup)))).
Proof.
  intros Hf. unfold main. rewrite run_bind, run_exists, Hf.
  rewrite bool_decide_eq_true_2 by eauto. cbn [negb].
  rewrite run_bind. change (ret tt s) with (Returned tt s). cbn iota.
  rewrite run_bind, run_for_each_print, run_bind.
  destruct (process_portfolio_images d (negb no_backup) _) as [[] s'|e s'];
    [|done].
  by rewrite run_for_each_print.
Qed.

(** X17: with [--no-backup], [main] over an existing directory leaves the
    backup directory and everything below it as they are: no path that
    begins with the path of [backup_original] changes. *)
Theorem main_no_backup_spares_backups d s r :
  normal_path d → fs s !! d = Some Dir →
  fs (final (main d true s)) !! (posixpath.join d "backup_original" +:+ r)
  = fs s !! (posixpath.join d "backup_original" +:+ r).
Proof.
  intros Hd Hf. rewrite (main_final_fs d true s Dir Hf). cbn [negb].
  set (p := posixpath.join d "backup_original" +:+ r).
  assert (¬ output_directory d false p) as Hdir.
  { subst p. intros [H|[H|[? _]]]; [| |done];
      rewrite !(join_dir d Hd) in H by entry_tac;
      rewrite !string_app_assoc in H;
      apply (inj (String.app d)) in H; discriminate. }
  assert (¬ ∃ n, entry_name n ∧ recognized n
                 ∧ (p = preview_path d n ∨ p = slider_path d n)) as Hout.
  { subst p. intros (n & Hn & Hr & [H|H]);
      rewrite ?preview_path_eq, ?slider_path_eq in H by done;
      rewrite !(join_dir d Hd) in H by entry_tac;
      rewrite !string_app_assoc in H;
      apply (inj (String.app d)) in H; discriminate. }
  destruct (run_setup_cases d false Hd
              (State (fs s) (stdout s ++ banner d true)) Hf)
    as (s1 & Hf1 & C & [->|(names & -> & Hnames & _ & _)]).
  - simpl. destruct (C p) as [?|[? _]]; done.
  - rewrite (only_writes_outside _ _ _ s1 p (loop_writes d false names Hnames));
      [|done|by intros [? _]].
    destruct (C p) as [?|[? _]]; done.
Qed.

Lemma backup_path_inj d n m :
  normal_path d → entry_name n → entry_name m →
  backup_path d n = backup_path d m → n = m.
Proof.
  intros Hd Hn Hm. rewrite !backup_path_eq by done. intros H.
  apply path_inj in H as [_ H]; [done|..]; try entry_tac;
    apply normal_join, entry_backup_original.
Qed.

(** X11: with backups enabled, the first run over a recognized file, be it
    an image or not, leaves a copy of the file at its backup path and
    says so. *)
Theorem batch_first_run_backs_up d s n c :
  normal_path d → fs s !! d = Some Dir →
  creatable (fs s) (posixpath.join d "backup_original") →
  creatable (fs s) (posixpath.join d "preview") →
  creatable (fs s) (posixpath.join d "slider") →
  entry_name n → recognized n →
  fs s !! posixpath.join d n = Some (File c) →
  fs s !! backup_path d n = None →
  ∃ s', process_portfolio_images d true s = Returned tt s'
    ∧ fs s' !! backup_path d n = Some (File c)
    ∧ BackedUp n ∈ stdout s'.
Proof.
  intros Hd Hf Hcb Hcp Hcs Hn Hr Hi Hnone.
  destruct (run_setup d true Hd s Hf (λ _, Hcb) Hcp Hcs)
    as (s1 & names & -> & Hready & Hnames & Hall & Hkeep & Hframe & _).
  rewrite Forall_forall in Hnames.
  destruct (for_each_establish
              (λ s, directories_ready (fs s) d true
                    ∧ fs s !! posixpath.join d n = Some (File c)
                    ∧ (fs s !! backup_path d n = None
                       ∨ fs s !! backup_path d n = Some (File c)
                         ∧ BackedUp n ∈ stdout s))
              (λ s, fs s !! backup_path d n = Some (File c)
                    ∧ BackedUp n ∈ stdout s)
              names (batch_step d true) n) with s1
    as (s' & E & _ & Hq).
  - intros x t Hx (Hrt & Hit & Hbt).
    pose proof (Hnames x Hx) as Hxn.
    destruct (process_file_returns d true x Hd Hxn t Hrt) as [t' E].
    pose proof (process_file_keeps_ready d true x Hd Hxn t Hrt) as Hrt'.
    pose proof (process_file_keeps_entry d true x Hd Hxn t n Hn) as Hit'.
    pose proof (only_prints_process_file d true x t) as Hpr.
    pose proof (only_writes_process_file d true x t (backup_path d n)) as Hw.
    rewrite E in Hrt', Hit', Hpr, Hw. simpl in Hrt', Hit', Hpr, Hw.
    rewrite <-(join_dir d Hd n Hn) in Hit'.
    assert (fs t !! backup_path d n = Some (File c) ∧ BackedUp n ∈ stdout t →
            fs t' !! backup_path d n = Some (File c) ∧ BackedUp n ∈ stdout t')
      as Hkept.
    { intros [Hb Hl]. split; [|by eapply elem_of_prefix].
      destruct Hw as [->|[[H _]|[_ H]]]; [done| |congruence].
      by destruct (backup_ne_derivative d Hd n x Hn Hxn). }
    assert (fs t' !! backup_path d n = None
            ∨ fs t' !! backup_path d n = Some (File c)
              ∧ BackedUp n ∈ stdout t') as Hbt'.
    { destruct Hbt as [Hb|Hb]; [|by auto].
      destruct Hw as [Hw|[[H _]|[Hw _]]].
      - left. by rewrite Hw.
      - by destruct (backup_ne_derivative d Hd n x Hn Hxn).
      - apply backup_path_inj in Hw as <-; [|done..].
        destruct (batch_step_backs_up d true n Hd Hn Hr t c eq_refl Hrt Hit Hb)
          as (t'' & E'' & ? & ?).
        rewrite E'' in E. injection E as <-. by right. }
    exists t'. split; [done|]. split_and!; [done| |done| |done].
    + rewrite Hit'; [done|by rewrite Hit].
    + intros ->. destruct Hbt as [Hb|Hb]; [|by auto].
      destruct (batch_step_backs_up d true n Hd Hn Hr t c eq_refl Hrt Hit Hb)
        as (t'' & E'' & ? & ?).
      rewrite E'' in E. by injection E as <-.
  - apply Hall; [done|]. by rewrite Hi.
  - split_and!; [done| |left].
    + rewrite Hkeep; [done|by rewrite Hi].
    + rewrite Hframe; [done|..]; intros H; symmetry in H; revert H;
        refine (proj1 (directory_ne_outputs d Hd _ n _ Hn)); entry_tac.
  - by exists s'.
Qed.

(** X12: a recognized file no decoder accepts gets no derivative: when the
    batch ends, what is at its preview path and at its slider path is
    what was there before, nothing if there was nothing. *)
Theorem batch_corrupt_file_leaves_no_output d backup s bad b :
  normal_path d → fs s !! d = Some Dir →
  (backup = true → creatable (fs s) (posixpath.join d "backup_original")) →
  creatable (fs s) (posixpath.join d "preview") →
  creatable (fs s) (posixpath.join d "slider") →
  entry_name bad → recognized bad →
  fs s !! posixpath.join d bad = Some (File (Bytes b)) →
  ∃ s', process_portfolio_images d backup s = Returned tt s'
    ∧ fs s' !! preview_path d bad = fs s !! preview_path d bad
    ∧ fs s' !! slider_path d bad = fs s !! slider_path d bad.
Proof.
  intros Hd Hf Hcb Hcp Hcs Hn Hr Hi.
  destruct (run_setup d backup Hd s Hf Hcb Hcp Hcs)
    as (s1 & names & -> & Hready & Hnames & _ & Hkeep & Hframe & _).
  rewrite Forall_forall in Hnames.
  destruct (for_each_invariant
              (λ t, directories_ready (fs t) d backup
                    ∧ fs t !! posixpath.join d bad = Some (File (Bytes b))
                    ∧ fs t !! preview_path d bad = fs s !! preview_path d bad
                    ∧ fs t !! slider_path d bad = fs s !! slider_path d bad)
              names (batch_step d backup)) with s1
    as (s' & E & _ & _ & Hp & Hs).
  - intros x t Hx (Hrt & Hit & Hpt & Hst).
    pose proof (Hnames x Hx) as Hxn.
    destruct (decide (x = bad)) as [->|Hne].
    + destruct (batch_step_bytes d backup bad Hd Hn Hr t b Hrt Hit)
        as (t' & E & Hp & Hs).
      pose proof (process_file_keeps_ready d backup bad Hd Hn t Hrt) as Hrt'.
      pose proof (process_file_keeps_entry d backup bad Hd Hn t bad Hn) as Hit'.
      rewrite E in Hrt', Hit'. simpl in Hrt', Hit'.
      rewrite <-(join_dir d Hd bad Hn) in Hit'.
      exists t'. split; [done|]. split_and!; [done| |congruence..].
      rewrite Hit'; [done|by rewrite Hit].
    + destruct (process_file_returns d backup x Hd Hxn t Hrt) as [t' E].
      pose proof (process_file_keeps_ready d backup x Hd Hxn t Hrt) as Hrt'.
      pose proof (process_file_keeps_entry d backup x Hd Hxn t bad Hn) as Hit'.
      pose proof (only_writes_process_file d backup x) as Hw.
      pose proof (only_writes_outside _ _ _ t (preview_path d bad) Hw) as Hp.
      pose proof (only_writes_outside _ _ _ t (slider_path d bad) Hw) as Hs.
      rewrite E in Hrt', Hit', Hp, Hs. simpl in Hrt', Hit', Hp, Hs.
      rewrite <-(join_dir d Hd bad Hn) in Hit'.
      destruct (paths_of_other_file d Hd bad x Hn Hr Hxn (not_eq_sym Hne))
        as [N1 N2].
      destruct (derivative_ne_backup d Hd bad x Hn Hr Hxn) as [N3 N4].
      exists t'. split; [done|]. split_and!; [done| | |].
      * rewrite Hit'; [done|by rewrite Hit].
      * by rewrite Hp.
      * by rewrite Hs.
  - split_and!; [done| | |].
    + rewrite Hkeep; [done|by rewrite Hi].
    + apply Hframe; intros H; symmetry in H; revert H;
        refine (proj1 (proj2 (directory_ne_outputs d Hd _ bad _ Hn) Hr));
        entry_tac.
    + apply Hframe; intros H; symmetry in H; revert H;
        refine (proj2 (proj2 (directory_ne_outputs d Hd _ bad _ Hn) Hr));
        entry_tac.
  - by exists s'.
Qed.

(** X13: over an existing directory whose output directories can be
    created or reused, and which holds no recognized regular file,
    the batch sets up its output directories and does nothing else:
    it returns, it prints the lines of the set-up only, and no file is
    written. *)
Theorem batch_without_images d backup s :
  normal_path d → fs s !! d = Some Dir →
  (backup = true → creatable (fs s) (posixpath.join d "backup_original")) →
  creatable (fs s) (posixpath.join d "preview") →
  creatable (fs s) (posixpath.join d "slider") →
  (∀ n c, entry_name n → fs s !! posixpath.join d n = Some (File c) →
          ¬ recognized n) →
  ∃ f', process_portfolio_images d backup s
        = Returned tt (State f' (stdout s ++ setup_lines d backup)%list)
    ∧ directories_ready f' d backup
    ∧ created_directories (output_directory d backup) (fs s) f'.
Proof.
  intros Hd Hf Hcb Hcp Hcs Hnone.
  destruct (batch_returns d backup Hd s Hf Hcb Hcp Hcs) as [s' E'].
  destruct (run_setup_cases d backup Hd s Hf)
    as (s1 & Hf1 & C & [E|(names & E & Hnames & Hready & Hout)]);
    [congruence|].
  rewrite E. rewrite Forall_forall in Hnames.
  exists (fs s1). rewrite <-Hout. split; [|done].
  rewrite for_each_skip; [by destruct s1|].
  intros x Hx. unfold batch_step, process_file.
  rewrite run_bind, run_isfile.
  destruct (fs s1 !! posixpath.join d x) as [[|c]|] eqn:Hi; [done| |done].
  cbn [negb]. cbv iota.
  rewrite bool_decide_eq_false_2; [done|].
  apply (Hnone x c (Hnames x Hx)).
  destruct (C (posixpath.join d x)) as [<-|(_ & _ & ?)]; [done|congruence].
Qed.

Lemma batch_returned_ready d backup s s' :
  normal_path d → fs s !! d = Some Dir →
  process_portfolio_images d backup s = Returned tt s' →
  fs s' !! d = Some Dir ∧ directories_ready (fs s') d backup.
Proof.
  intros Hd Hf E.
  destruct (run_setup_cases d backup Hd s Hf)
    as (s1 & Hf1 & C & [E1|(names & E1 & Hnames & Hready & _)]);
    [congruence|].
  destruct (loop_keeps_directories d backup Hd names s1 Hnames Hf1 Hready)
    as [Hf' Hready'].
  rewrite <-E1, E in Hf', Hready'. done.
Qed.

(** X14: a batch that returned can be run again: it leaves the portfolio
    directory and its output directories in place, and the next batch
    returns as well. *)
Theorem batch_can_be_rerun d backup s s' :
  normal_path d → fs s !! d = Some Dir →
  process_portfolio_images d backup s = Returned tt s' →
  fs s' !! d = Some Dir
  ∧ directories_ready (fs s') d backup
  ∧ ∃ s'', process_portfolio_images d backup s' = Returned tt s''.
Proof.
  intros Hd Hf E.
  destruct (batch_returned_ready d backup s s' Hd Hf E) as [Hf' Hready'].
  split_and!; [done..|].
  destruct Hready' as (Hb & Hp & Hs).
  apply batch_returns; [done|done| |by right..].
  intros Hbk. right. auto.
Qed.

(** X15: for a recognized file of the directory, the step of the batch
    prints the line of the backup when it makes one, that is when
    backups are enabled and nothing is at the backup path, and then
    exactly two lines: the success or the error of the preview, and the
    success or the error of the slider. *)
Theorem batch_step_report_lines d backup n s c :
  normal_path d → entry_name n → recognized n →
  directories_ready (fs s) d backup →
  fs s !! posixpath.join d n = Some (File c) →
  ∃ f' l1 l2,
    batch_step d backup n s
    = Returned tt
        (State f'
           (stdout s
            ++ (if backup
                then match fs s !! backup_path d n with
                     | None => [BackedUp n]
                     | Some _ => []
                     end
                else [])
            ++ [l1; l2])%list)
    ∧ report_line l1 (posixpath.join d n) preview_size (preview_path d n)
    ∧ report_line l2 (posixpath.join d n) slider_size (slider_path d n).
Proof.
  intros Hd Hn Hr (Hb & _ & _) Hi.
  rewrite (process_file_eq d backup n s c Hi Hr).
  rewrite run_bind, (run_backup_file_exact d backup n Hd Hn s c Hb Hi).
  set (s0 := if backup then _ else s).
  assert (stdout s0
          = (stdout s ++ (if backup
                          then match fs s !! backup_path d n with
                               | None => [BackedUp n]
                               | Some _ => []
                               end
                          else []))%list) as Hs0.
  { subst s0. destruct backup; [|by rewrite app_nil_r].
    destruct (fs s !! backup_path d n); [by rewrite app_nil_r|done]. }
  rewrite run_bind.
  destruct (run_resize_image_line (posixpath.join d n) (preview_path d n)
              preview_size 85 true s0) as (f1 & l1 & -> & H1).
  destruct (run_resize_image_line (posixpath.join d n) (slider_path d n)
              slider_size 85 true (State f1 (stdout s0 ++ [l1])))
    as (f2 & l2 & -> & H2).
  exists f2, l1, l2. split; [|done]. cbn [stdout]. rewrite Hs0.
  by rewrite <-!app_assoc.
Qed.

(** ** The views *)

(** X18: the [contact] view never removes or changes a stored record: the
    store it leaves is the store it found, followed by one record when
    the method is POST and by nothing otherwise, form data or not; and
    it always answers with the home page. *)
Theorem contact_keeps_stored_records request db :
  fst (Views.contact request db) = Views.Rendered "home.html"
  ∧ db `prefix_of` snd (Views.contact request db)
  ∧ (Views.method request ≠ "POST" → snd (Views.contact request db) = db)
  ∧ length (snd (Views.contact request db))
    = (length db + if String.eqb (Views.method request) "POST" then 1 else 0)%nat.
Proof.
  unfold Views.contact, Views.objects_create. cbn [fst snd].
  destruct (String.eqb_spec (Views.method request) "POST") as [E|E].
  - split_and!; [done|by apply prefix_app_r|done|].
    by rewrite length_app.
  - split_and!; [done|done|done|]. by rewrite Nat.add_0_r.
Qed.

(** ** Names in capitals *)

(** X8: the extension is compared without regard to the case of its
    letters: a name made of a base, which has no slash and is not made
    of dots only, and of one of the six extensions written in
    capitals, in small letters or in both, splits into that base and
    that extension, and is recognized. *)
Theorem extension_case_is_ignored b e :
  Str.rfind posixpath.sep b = -1 →
  Str.all_chars posixpath.extsep b = false →
  Str.lower e ∈ image_extensions →
  posixpath.splitext (b +:+ e) = (b, e) ∧ recognized (b +:+ e).
Proof.
  intros Hb Hdots He.
  assert (∃ e', e = String posixpath.extsep e'
                ∧ Str.rfind posixpath.extsep e' = -1
                ∧ Str.rfind posixpath.sep e' = -1) as (e' & -> & Hd & Hs).
  { destruct e as [|a e'].
    { exfalso. revert He. cbn [Str.lower]. unfold image_extensions.
      intros He. repeat (apply elem_of_cons in He as [He|He]; [done|]).
      by apply elem_of_nil in He. }
    exists e'.
    rewrite <-(rfind_lower posixpath.extsep e') by apply lower_char_extsep.
    rewrite <-(rfind_lower posixpath.sep e') by apply lower_char_sep.
    revert He. cbn [Str.lower]. unfold image_extensions. intros He.
    repeat (apply elem_of_cons in He as [He|He];
            [injection He as Ha ->;
             pose proof (lower_char_extsep a) as Hx; rewrite Ha in Hx;
             apply eq_sym, Ascii.eqb_eq in Hx as ->; by split_and!|]).
    by apply elem_of_nil in He. }
  assert (posixpath.splitext (b +:+ String posixpath.extsep e')
          = (b, String posixpath.extsep e')) as E.
  { pose proof (splitext_derived b "" e' Hdots Hd) as H.
    rewrite string_app_nil_l, string_app_nil_r in H. apply H.
    apply rfind_app_none. split; [done|].
    change (String posixpath.extsep e')
      with (String posixpath.extsep "" +:+ e').
    by apply rfind_app_none. }
  split; [done|]. unfold recognized. by rewrite E.
Qed.

(** ** A portfolio directory that is missing *)

Section missing.

Context (d : string).
Hypothesis Hd : entry_name d.

Lemma entry_normal : normal_path d.
Proof. split; [apply Hd|by apply endswith_entry]. Qed.

Lemma run_makedirs_rec_entry depth s :
  fs s !! d = None →
  os.makedirs_rec depth d true s
  = Returned tt (State (<[d := Dir]> (fs s)) (stdout s)).
Proof.
  intros Hf. destruct Hd as [Hd1 Hd2].
  rewrite makedirs_rec_eq, (split_no_sep d Hd2).
  destruct (String.eqb_spec d "") as [?|_]; [done|].
  rewrite run_bind, run_exists. cbn [String.eqb negb andb].
  destruct depth; cbv iota; rewrite run_bind; (change (ret tt s) with (Returned tt s));
    cbv iota; unfold try_except, os.mkdir; rewrite run_bind; simpl;
    rewrite Hf, run_bind;
    (rewrite run_check_parent_ready
       by (left; by rewrite (split_no_sep d Hd2))); done.
Qed.

Lemma run_makedirs_missing sub s :
  entry_name sub → sub ≠ "." →
  fs s !! d = None → fs s !! (d +:+ "/" +:+ sub) = None →
  os.makedirs (d +:+ "/" +:+ sub) true s
  = Returned tt
      (State (<[d +:+ "/" +:+ sub := Dir]> (<[d := Dir]> (fs s))) (stdout s)).
Proof.
  intros Hs Hdot Hf Hfs. pose proof entry_normal as Hnd.
  unfold os.makedirs.
  destruct (String.length (d +:+ "/" +:+ sub)) as [|depth] eqn:El.
  { rewrite string_app_length in El. destruct d; [by destruct Hd|].
    simpl in El. lia. }
  rewrite makedirs_rec_eq, split_join by (done || apply Hs).
  assert (String.eqb sub "" = false) as Es by (apply String.eqb_neq, Hs).
  assert (String.eqb d "" = false) as Ed by (apply String.eqb_neq, Hd).
  assert (String.eqb sub "." = false) as Edot by (by apply String.eqb_neq).
  rewrite Es. cbv beta iota zeta.
  rewrite run_bind, run_exists, Hf.
  rewrite bool_decide_eq_false_2 by (by intros [? ?]).
  rewrite Es, Ed, Edot. cbn [negb andb]. rewrite run_bind.
  unfold try_except at 1.
  rewrite run_makedirs_rec_entry by done.
  unfold try_except, os.mkdir. rewrite run_bind. simpl.
  rewrite lookup_insert_ne by (intros H; by apply eq_sym, path_ne_dir in H).
  rewrite Hfs, run_bind, run_check_parent_ready; [done|].
  apply parent_ready_in; [done|apply Hs|]. simpl. by rewrite lookup_insert_eq.
Qed.

(** The batch over a missing directory is the batch over the directory
    once the first of its [makedirs] has created it. *)
Lemma batch_over_missing (backup : bool) s :
  fs s !! d = None →
  fs s !! (d +:+ "/" +:+ (if backup then "backup_original" else "preview"))
  = None →
  process_portfolio_images d backup s
  = process_portfolio_images d backup
      (State (<[d +:+ "/" +:+ (if backup then "backup_original" else "preview")
                := Dir]> (<[d := Dir]> (fs s)))
             (stdout s)).
Proof.
  intros Hf Hfs. pose proof entry_normal as Hnd.
  unfold process_portfolio_images.
  rewrite !(join_dir d Hnd) by entry_tac.
  destruct backup; rewrite !run_bind.
  - rewrite (run_makedirs_missing "backup_original" s)
      by (done || apply entry_backup_original).
    rewrite (run_makedirs d "backup_original");
      [|done|apply entry_backup_original|simpl;
         rewrite lookup_insert_ne by apply path_ne_dir;
         by rewrite lookup_insert_eq].
    simpl. by rewrite lookup_insert_eq.
  - change (ret tt s) with (Returned tt s). cbv iota.
    rewrite !run_bind.
    rewrite (run_makedirs_missing "preview" s) by (done || apply entry_preview).
    change (ret tt ?t) with (Returned tt t). cbv iota. rewrite !run_bind.
    rewrite (run_makedirs d "preview");
      [|done|apply entry_preview|simpl;
         rewrite lookup_insert_ne by apply path_ne_dir;
         by rewrite lookup_insert_eq].
    simpl. by rewrite lookup_insert_eq.
Qed.

End missing.

(** X16: [process_portfolio_images] itself does not ask for the directory:
    over a name that is not there, with nothing at the paths of its
    output directories, it creates the directory and the output
    directories, and returns. *)
Theorem batch_creates_missing_directory d backup s :
  entry_name d → fs s !! d = None →
  (backup = true → fs s !! posixpath.join d "backup_original" = None) →
  fs s !! posixpath.join d "preview" = None →
  fs s !! posixpath.join d "slider" = None →
  ∃ s', process_portfolio_images d backup s = Returned tt s'
    ∧ fs s' !! d = Some Dir
    ∧ directories_ready (fs s') d backup.
Proof.
  intros Hd Hf Hb Hp Hs. pose proof (entry_normal d Hd) as Hnd.
  rewrite (batch_over_missing d Hd backup s Hf).
  2:{ rewrite <-(join_dir d Hnd) by (destruct backup; entry_tac).
      destruct backup; auto. }
  set (s0 := State _ _).
  assert (fs s0 !! d = Some Dir) as Hf0.
  { subst s0. simpl.
    rewrite lookup_insert_ne by apply path_ne_dir.
    by rewrite lookup_insert_eq. }
  assert (∀ p, p ≠ d →
               p ≠ d +:+ "/" +:+ (if backup then "backup_original" else "preview") →
               fs s0 !! p = fs s !! p) as Hother.
  { intros p H1 H2. subst s0. simpl. by rewrite !lookup_insert_ne. }
  destruct (batch_returns d backup Hnd s0 Hf0) as [s' E].
  - intros ->. right. subst s0. simpl.
    rewrite (join_dir d Hnd) by entry_tac. by rewrite lookup_insert_eq.
  - destruct backup.
    + left. rewrite Hother; [done|..]; rewrite (join_dir d Hnd) by entry_tac.
      * apply path_ne_dir.
      * intros H. by apply (inj (String.app d)) in H.
    + right. subst s0. simpl.
      rewrite (join_dir d Hnd) by entry_tac. by rewrite lookup_insert_eq.
  - left. rewrite Hother; [done|..]; rewrite (join_dir d Hnd) by entry_tac.
    + apply path_ne_dir.
    + intros H. apply (inj (String.app d)) in H. by destruct backup.
  - exists s'. split; [done|]. by apply (batch_returned_ready d backup s0 s').
Qed.

(** * The further properties at work on the example worlds *)

Lemma resize_image_pad_exact_size_witness :
  (∃ final_img src new_width new_height x y,
     fs (final (resize_image "portfolio/good.jpg" "good_padded.jpg"
                  (800, 600) 85 false (State portfolio_fs [])))
       !! "good_padded.jpg"
     = Some (derivative "good_padded.jpg" 85 final_img)
     ∧ final_img
       = Image 800 600 "RGB"
           (Paste (New "RGB" (800, 600) (255, 255, 255))
              (Resize (new_width, new_height) src) (x, y))
     ∧ (new_width = 800 ∨ new_height = 600)
     ∧ 0 ≤ (800 - new_width - x) - x ≤ 1
     ∧ 0 ≤ (600 - new_height - y) - y ≤ 1)
  ∧ fs (final (resize_image "portfolio/good.jpg" "good_padded.jpg"
                 (800, 600) 85 false (State portfolio_fs [])))
      !! "good_padded.jpg"
    = Some (derivative "good_padded.jpg" 85 photo_padded).
Proof.
  split; [|vm_compute; reflexivity].
  apply (resize_image_pad_exact_size "portfolio/good.jpg" "good_padded.jpg"
           800 600 85 (State portfolio_fs [])); evaluate.
Defined.

Lemma resize_image_crop_one_axis_witness :
  ∃ m src new_width new_height x0 y0 x1 y1,
    fs (final (resize_image "portfolio/good.jpg" "good_preview.jpg"
                 (800, 600) 85 true (State portfolio_fs [])))
      !! "good_preview.jpg"
    = Some (derivative "good_preview.jpg" 85
              (Image 800 600 m
                 (Crop (x0, y0, x1, y1) (Resize (new_width, new_height) src))))
    ∧ 1 ≤ new_width ∧ 1 ≤ new_height
    ∧ (new_width = 800 ∧ x0 = 0 ∧ x1 = 800
       ∨ new_height = 600 ∧ y0 = 0 ∧ y1 = 600).
Proof.
  apply (resize_image_crop_one_axis "portfolio/good.jpg" "good_preview.jpg"
           800 600 85 (State portfolio_fs [])); evaluate.
Defined.

Lemma resize_image_unreadable_input_witness :
  ∃ e, is_OSError e = true
       ∧ resize_image "portfolio/bad.png" "bad_preview.png" (800, 600) 85 true
           (State portfolio_fs [])
         = Returned tt
             (State portfolio_fs
                ([] ++ [ErrorProcessing "portfolio/bad.png" e])).
Proof.
  apply (resize_image_unreadable_input "portfolio/bad.png" "bad_preview.png"
           (800, 600) 85 true (State portfolio_fs [])).
  intros fmt q img. vm_compute. discriminate.
Defined.

Lemma extension_case_is_ignored_witness :
  posixpath.splitext ("IMG_0042" +:+ ".JPeG") = ("IMG_0042", ".JPeG")
  ∧ recognized ("IMG_0042" +:+ ".JPeG").
Proof.
  apply (extension_case_is_ignored "IMG_0042" ".JPeG"); [evaluate..|].
  apply (bool_decide_unpack (Str.lower ".JPeG" ∈ image_extensions)).
  vm_compute. exact I.
Defined.

Lemma derivative_format_by_extension_witness :
  let fmt :=
    if bool_decide (Str.lower (snd (posixpath.splitext "LOGO.BMP"))
                    ∈ [".jpg"; ".jpeg"])
    then ("JPEG", Some 85) else ("PNG", None) in
  output_format (preview_path "portfolio" "LOGO.BMP") 85 = fmt
  ∧ output_format (slider_path "portfolio" "LOGO.BMP") 85 = fmt.
Proof.
  apply (derivative_format_by_extension "portfolio" "LOGO.BMP" 85); evaluate.
Defined.

Lemma outputs_never_collide_witness :
  (preview_path "portfolio" "good.jpg" = preview_path "portfolio" "bad.png" →
   "good.jpg" = "bad.png")
  ∧ (slider_path "portfolio" "good.jpg" = slider_path "portfolio" "bad.png" →
     "good.jpg" = "bad.png")
  ∧ (backup_path "portfolio" "good.jpg" = backup_path "portfolio" "bad.png" →
     "good.jpg" = "bad.png")
  ∧ preview_path "portfolio" "good.jpg" ≠ slider_path "portfolio" "bad.png"
  ∧ preview_path "portfolio" "good.jpg" ≠ backup_path "portfolio" "bad.png"
  ∧ slider_path "portfolio" "good.jpg" ≠ backup_path "portfolio" "bad.png"
  ∧ posixpath.join "portfolio" "notes.txt" ≠ preview_path "portfolio" "good.jpg"
  ∧ posixpath.join "portfolio" "notes.txt" ≠ slider_path "portfolio" "good.jpg"
  ∧ posixpath.join "portfolio" "notes.txt" ≠ backup_path "portfolio" "good.jpg".
Proof.
  apply (outputs_never_collide "portfolio" "good.jpg" "bad.png" "notes.txt");
    evaluate.
Defined.

Lemma batch_keeps_what_is_there_witness :
  (∀ p, is_Some (portfolio_fs !! p) →
        is_Some (fs (final (process_portfolio_images "portfolio" true
                              (State portfolio_fs []))) !! p))
  ∧ (∀ x v, entry_name x →
            portfolio_fs !! posixpath.join "portfolio" x = Some v →
            fs (final (process_portfolio_images "portfolio" true
                         (State portfolio_fs [])))
              !! posixpath.join "portfolio" x = Some v).
Proof.
  apply (batch_keeps_what_is_there "portfolio" true (State portfolio_fs [])).
  evaluate.
Defined.

Lemma batch_changes_only_outputs_witness :
  fs (final (process_portfolio_images "portfolio" true (State portfolio_fs [])))
    !! "portfolio/preview" = portfolio_fs !! "portfolio/preview"
  ∨ (output_directory "portfolio" true "portfolio/preview"
     ∧ portfolio_fs !! "portfolio/preview" = None
     ∧ fs (final (process_portfolio_images "portfolio" true
                    (State portfolio_fs []))) !! "portfolio/preview"
       = Some Dir)
  ∨ (∃ n, entry_name n ∧ recognized n
          ∧ ("portfolio/preview" = preview_path "portfolio" n
             ∨ "portfolio/preview" = slider_path "portfolio" n)
          ∧ ∃ c, fs (final (process_portfolio_images "portfolio" true
                              (State portfolio_fs []))) !! "portfolio/preview"
                 = Some (File c))
  ∨ (true = true ∧ portfolio_fs !! "portfolio/preview" = None
     ∧ ∃ n, entry_name n ∧ recognized n
            ∧ "portfolio/preview" = backup_path "portfolio" n).
Proof.
  apply (batch_changes_only_outputs "portfolio" true (State portfolio_fs [])
           "portfolio/preview"); evaluate.
Defined.

Lemma main_no_backup_spares_backups_witness :
  fs (final (main "portfolio" true (State rerun_fs [])))
    !! (posixpath.join "portfolio" "backup_original" +:+ "/good.jpg")
  = rerun_fs !! (posixpath.join "portfolio" "backup_original" +:+ "/good.jpg").
Proof.
  apply (main_no_backup_spares_backups "portfolio" (State rerun_fs [])
           "/good.jpg"); evaluate.
Defined.

Lemma batch_first_run_backs_up_witness :
  ∃ s', process_portfolio_images "portfolio" true (State portfolio_fs [])
        = Returned tt s'
    ∧ fs s' !! backup_path "portfolio" "bad.png"
      = Some (File (Bytes "not an image"))
    ∧ BackedUp "bad.png" ∈ stdout s'.
Proof.
  apply (batch_first_run_backs_up "portfolio" (State portfolio_fs [])
           "bad.png" (Bytes "not an image")); evaluate.
Defined.

Lemma batch_corrupt_file_leaves_no_output_witness :
  ∃ s', process_portfolio_images "portfolio" true (State portfolio_fs [])
        = Returned tt s'
    ∧ fs s' !! preview_path "portfolio" "bad.png"
      = portfolio_fs !! preview_path "portfolio" "bad.png"
    ∧ fs s' !! slider_path "portfolio" "bad.png"
      = portfolio_fs !! slider_path "portfolio" "bad.png".
Proof.
  apply (batch_corrupt_file_leaves_no_output "portfolio" true
           (State portfolio_fs []) "bad.png" "not an image");
    try (intros _); evaluate.
Defined.

Lemma batch_without_images_witness :
  ∃ f', process_portfolio_images "docs" true (State notes_fs [])
        = Returned tt (State f' ([] ++ setup_lines "docs" true)%list)
    ∧ directories_ready f' "docs" true
    ∧ created_directories (output_directory "docs" true) notes_fs f'.
Proof.
  apply (batch_without_images "docs" true (State notes_fs []));
    try (intros _); try evaluate.
  intros n c Hn Hi Hr.
  rewrite join_normal in Hi by (evaluate || apply Hn).
  unfold notes_fs in Hi. cbn [fs list_to_map foldr] in Hi.
  repeat match type of Hi with
         | <[?k := _]> _ !! ?p = _ =>
             destruct (decide (k = p)) as [E|E];
               [clear Hi|rewrite lookup_insert_ne in Hi by done; clear E]
         end;
    cbn [fst snd] in *; rewrite ?string_app_cons, ?string_app_nil_l in *;
    simplify_eq;
    try (apply (bool_decide_pack (recognized _)) in Hr; vm_compute in Hr; done);
    try (destruct Hn as [_ Hn]; vm_compute in Hn; discriminate).
Defined.

Lemma batch_can_be_rerun_witness :
  fs (final (process_portfolio_images "portfolio" true (State portfolio_fs [])))
    !! "portfolio" = Some Dir
  ∧ directories_ready
      (fs (final (process_portfolio_images "portfolio" true
                    (State portfolio_fs [])))) "portfolio" true
  ∧ ∃ s'', process_portfolio_images "portfolio" true
             (final (process_portfolio_images "portfolio" true
                       (State portfolio_fs [])))
           = Returned tt s''.
Proof.
  apply (batch_can_be_rerun "portfolio" true (State portfolio_fs [])); evaluate.
Defined.

Lemma batch_step_report_lines_witness :
  ∃ f' l1 l2,
    batch_step "portfolio" true "good.jpg"
      (State (<["portfolio/slider" := Dir]>
                (<["portfolio/preview" := Dir]>
                   (<["portfolio/backup_original" := Dir]> portfolio_fs))) [])
    = Returned tt
        (State f'
           ([] ++ match (<["portfolio/slider" := Dir]>
                           (<["portfolio/preview" := Dir]>
                              (<["portfolio/backup_original" := Dir]>
                                 portfolio_fs)))
                        !! backup_path "portfolio" "good.jpg" with
                  | None => [BackedUp "good.jpg"]
                  | Some _ => []
                  end
            ++ [l1; l2])%list)
    ∧ report_line l1 (posixpath.join "portfolio" "good.jpg") preview_size
        (preview_path "portfolio" "good.jpg")
    ∧ report_line l2 (posixpath.join "portfolio" "good.jpg") slider_size
        (slider_path "portfolio" "good.jpg").
Proof.
  destruct (batch_step_report_lines "portfolio" true "good.jpg"
              (State (<["portfolio/slider" := Dir]>
                        (<["portfolio/preview" := Dir]>
                           (<["portfolio/backup_original" := Dir]> portfolio_fs)))
                     [])
              (Encoded "JPEG" None photo))
    as (f' & l1 & l2 & E & H1 & H2); [evaluate..|].
  exists f', l1, l2. split_and!; [exact E|exact H1|exact H2].
Defined.

Lemma batch_creates_missing_directory_witness :
  ∃ s', process_portfolio_images "missing" true (State portfolio_fs [])
        = Returned tt s'
    ∧ fs s' !! "missing" = Some Dir
    ∧ directories_ready (fs s') "missing" true.
Proof.
  apply (batch_creates_missing_directory "missing" true (State portfolio_fs []));
    try (intros _); evaluate.
Defined.
